(** * Snow Tracker: the station analytics engine of [src/App.tsx]

    A shallow embedding of [linearRegression], [dateToWY], [dateToDOWY],
    [waterYearDates] and [computeAnalytics], and the properties of the
    engine that the specification states.

    Modelling conventions.
    - A JavaScript [number] is a finite double, kept as the rational it
      denotes ([Q]).  Comparisons, [Math.abs], [Math.max], [Math.min] and
      [Math.round] are exact on doubles; the four operations of arithmetic
      round their exact result to the nearest double, a tie to the even
      one ([binary64]), as IEEE 754 prescribes.  [NaN] and the infinities
      are not numbers of the model: a result beyond the largest double, a
      division by zero and the result of [Math.max] and [Math.min] on an
      empty argument list ([None]) are outside it.  Every division of the
      engine is guarded against a zero divisor.
    - A date string is one that passed the ingestion filter
      [/^\d{4}-\d{2}-\d{2}$/]; it is kept as its three numeric fields.  On
      such strings [localeCompare] and [>=] are the lexicographic order of
      the fields.
    - [new Date()] is the only ambient input of the engine; it is the
      explicit [Clock] argument of the functions that read it. *)

From Stdlib Require Import ZArith QArith Qround Qabs Qpower Lia Lqa.
From stdpp Require Import base option list sorting gmap strings pretty.

Local Open Scope Z_scope.

(** ** Numbers *)

Definition Qltb (a b : Q) : bool := negb (Qle_bool b a).
Definition Qgtb (a b : Q) : bool := Qltb b a.

(** The binade of a positive rational [a]: the [e] with
    [2^e <= a < 2^(e+1)]. *)
Definition ilog2 (a : Q) : Z :=
  let e := Z.log2 (Qnum a) - Z.log2 (Zpos (Qden a)) in
  if Qle_bool (2 ^ e) a then e else e - 1.

(** The integer nearest to [x], a tie going to the even one. *)
Definition round_even (x : Q) : Z :=
  let f := Qfloor x in
  match (x - inject_Z f ?= 1 # 2)%Q with
  | Lt => f
  | Gt => f + 1
  | Eq => if Z.even f then f else f + 1
  end.

(** The weight of the last of the 53 significant bits of a double near
    [a > 0], as a power of two; it is never below [2^-1074]. *)
Definition ulp_exponent (a : Q) : Z := Z.max (ilog2 a - 52) (-1074).

(** The double nearest to a rational [a >= 0]. *)
Definition nearest (a : Q) : Q :=
  if Qle_bool a 0 then 0%Q else
  let e := ulp_exponent a in
  (inject_Z (round_even (a / 2 ^ e)) * 2 ^ e)%Q.

(** The double nearest to a rational: what a numeric literal denotes and
    what an operation of arithmetic returns for its exact result. *)
Definition binary64 (x : Q) : Q :=
  if Qle_bool 0 x then nearest x else (- nearest (- x))%Q.

(** [x + y], [x - y], [x * y] and [x / y] on doubles *)
Definition js_add (x y : Q) : Q := binary64 (x + y).
Definition js_sub (x y : Q) : Q := binary64 (x - y).
Definition js_mul (x y : Q) : Q := binary64 (x * y).
Definition js_div (x y : Q) : Q := binary64 (x / y).

Notation "x ⊕ y" := (js_add x y) (at level 50, left associativity).
Notation "x ⊖ y" := (js_sub x y) (at level 50, left associativity).
Notation "x ⊗ y" := (js_mul x y) (at level 40, left associativity).
Notation "x ⊘ y" := (js_div x y) (at level 40, left associativity).

(** [Math.round x]: the integer nearest to [x], halves going up. *)
Definition Math_round (x : Q) : Z := Qfloor (x + (1 # 2)).

(** [Math.round(x * 10) / 10] *)
Definition round1 (x : Q) : Q := inject_Z (Math_round (x ⊗ 10)) ⊘ 10.

(** [Math.abs] *)
Definition Math_abs (x : Q) : Q := Qabs x.

(** [Math.max(...l)] and [Math.min(...l)]; [None] is the infinity that
    JavaScript returns on no argument. *)
Definition Math_max (l : list Q) : option Q :=
  match l with
  | [] => None
  | x :: l' => Some (fold_left (fun m v => if Qltb m v then v else m) l' x)
  end.

Definition Math_min (l : list Q) : option Q :=
  match l with
  | [] => None
  | x :: l' => Some (fold_left (fun m v => if Qltb v m then v else m) l' x)
  end.

(** [l.reduce((a, b) => a + b, 0)] *)
Definition sum (l : list Q) : Q := fold_left js_add l 0%Q.

(** [l.reduce((a, x, i) => f a x i, init)] *)
Fixpoint reduce_from {A} (f : Q -> A -> nat -> Q) (i : nat) (l : list A) (acc : Q) : Q :=
  match l with
  | [] => acc
  | x :: l' => reduce_from f (S i) l' (f acc x i)
  end.

Definition reduce {A} (f : Q -> A -> nat -> Q) (l : list A) (init : Q) : Q :=
  reduce_from f 0 l init.

(** [l.length] as a number *)
Definition len {A} (l : list A) : Q := inject_Z (Z.of_nat (length l)).

(** JavaScript truthiness of a [number | null]: neither [null] nor zero. *)
Definition truthy (v : option Q) : bool :=
  match v with
  | Some q => negb (Qeq_bool q 0)
  | None => false
  end.

(** ** Sorting

    [Array.prototype.sort] is stable; so is insertion from the right. *)

Section Sort.
Context {A : Type} (leb : A -> A -> bool).

Fixpoint insert_sorted (x : A) (l : list A) : list A :=
  match l with
  | [] => [x]
  | y :: l' => if leb x y then x :: l else y :: insert_sorted x l'
  end.

Definition sort_by (l : list A) : list A := foldr insert_sorted [] l.
End Sort.

(** ** Linear regression *)

Record Regression := mkReg { slope : Q; intercept : Q; r2 : Q }.

(** [ys[i]]; out of range only when the arrays differ in length, which the
    callers exclude. *)
Definition at_index (l : list Q) (i : nat) : Q := nth i l 0%Q.

(** [x ** 2], the correctly rounded square *)
Definition sq (x : Q) : Q := x ⊗ x.

Definition linearRegression (xs ys : list Q) : Regression :=
  let n := len xs in
  if (length xs <? 2)%nat then mkReg 0 0 0 else
  let sumX := sum xs in
  let sumY := sum ys in
  let sumXX := reduce (fun a x _ => a ⊕ x ⊗ x) xs 0%Q in
  let sumXY := reduce (fun a x i => a ⊕ x ⊗ at_index ys i) xs 0%Q in
  let denom := n ⊗ sumXX ⊖ sumX ⊗ sumX in
  if Qeq_bool denom 0 then mkReg 0 (sumY ⊘ n) 0 else
  let slope := (n ⊗ sumXY ⊖ sumX ⊗ sumY) ⊘ denom in
  let intercept := (sumY ⊖ slope ⊗ sumX) ⊘ n in
  let meanY := sumY ⊘ n in
  let ssRes := reduce (fun a y i => a ⊕ sq (y ⊖ (slope ⊗ at_index xs i ⊕ intercept))) ys 0%Q in
  let ssTot := reduce (fun a y _ => a ⊕ sq (y ⊖ meanY)) ys 0%Q in
  let r2 := if Qgtb ssTot 0 then 1 ⊖ ssRes ⊘ ssTot else 0%Q in
  mkReg slope intercept r2.

(** ** Dates *)

(** The date string [YYYY-MM-DD]; [month] is 1 to 12. *)
Record Date := mkDate { year : Z; month : Z; day : Z }.

(** [a.localeCompare(b)] on date strings *)
Definition date_compare (a b : Date) : comparison :=
  match year a ?= year b with
  | Eq => match month a ?= month b with
          | Eq => day a ?= day b
          | c => c
          end
  | c => c
  end.

(** [a <= b] on date strings *)
Definition date_leb (a b : Date) : bool :=
  match date_compare a b with Gt => false | _ => true end.

(** [d.getMonth()], zero-based *)
Definition getMonth (d : Date) : Z := month d - 1.

(** [d.getFullYear()] *)
Definition getFullYear (d : Date) : Z := year d.

(** Days from 1970-01-01 to a civil date of the proleptic Gregorian
    calendar; [Date.prototype.getTime] is this count in milliseconds (the
    offset of the local time zone is taken as constant over the record). *)
Definition epochDay (d : Date) : Z :=
  let y := if month d <=? 2 then year d - 1 else year d in
  let era := y / 400 in
  let yoe := y - era * 400 in
  let mp := (month d + 9) mod 12 in
  let doy := (153 * mp + 2) / 5 + day d - 1 in
  let doe := yoe * 365 + yoe / 4 - yoe / 100 + doy in
  era * 146097 + doe - 719468.

Definition msPerDay : Z := 86400000.

Definition getTime (d : Date) : Z := epochDay d * msPerDay.

(** [dateToDOWY(dateStr)].  The two time values are local midnights, and
    the model takes their difference as the whole number of days between
    the two calendar dates: that is what [Math.floor] leaves of it on a
    host whose clock on the date is not ahead of its clock on October
    1st (no daylight saving, or the northern pattern of it).  [wy] is
    taken as a year that [new Date(wy, 9, 1)] reads as written, which it
    does from 100 on (0 to 99 are read as 1900 to 1999).  The quotient of
    two such whole numbers of milliseconds is then a whole number, exact
    in doubles. *)
Definition dateToDOWY (dateStr : Date) : Z :=
  let d := dateStr in
  let wy := if 9 <=? getMonth d then getFullYear d else getFullYear d - 1 in
  let wyStart := mkDate wy 10 1 in
  Qfloor (inject_Z (getTime d - getTime wyStart) / inject_Z msPerDay) + 1.

Definition dateToWY (dateStr : Date) : Z :=
  let d := dateStr in
  if 9 <=? getMonth d then getFullYear d + 1 else getFullYear d.

(** What [new Date()] reads: the calendar date of the local time zone and
    the UTC calendar date ([toISOString().slice(0, 10)]). *)
Record Clock := mkClock { localDate : Date; utcDate : Date }.

(** The [wyYear] field of [waterYearDates()] *)
Definition waterYearDates_wyYear (now : Clock) : Z :=
  let d := localDate now in
  if 9 <=? getMonth d then getFullYear d else getFullYear d - 1.

(** ** Records of the engine *)

Record SnotelStation := mkStation {
  st_id : string; st_name : string; st_state : string; st_elevation : Q;
  st_lat : Q; st_lon : Q; st_swe : option Q; st_pctMedian : option Q }.

Record HydroPoint := mkHydro {
  h_date : Date; h_dowy : Z; h_swe : option Q; h_median : option Q;
  h_pctMedian : option Q }.

Record PORDay := mkPOR { por_date : Date; por_swe : option Q }.

Record WaterYearSummary := mkWY {
  wy : Z; peakSWE : Q; peakDate : Date;
  onsetDate : option Date; meltOutDate : option Date; seasonDays : Z }.

Record MonthClim := mkClim { mc_month : string; mc_avg : Q; mc_min : Q; mc_max : Q }.

Record StationAnalytics := mkAnalytics {
  waterYears : list WaterYearSummary;
  peakTrendSlope : Q;
  peakTrendPct : Q;
  peakTrendSignificant : bool;
  avgOnsetDOWY : Z;
  currentOnsetDOWY : option Z;
  onsetTrendDays : Q;
  avgMeltOutDOWY : Z;
  meltOutTrendDays : Q;
  avgSeasonLength : Z;
  seasonLengthChange : Q;
  currentRank : nat;
  totalYears : nat;
  belowMedianCount10yr : nat;
  projectedPeak : option Q;
  monthlyClim : list MonthClim;
  nearbyComparison : list (string * option Q);
  regionName : string;
  regionAvgPct : Z }.

Definition MONTHS : list string :=
  ["Jan"; "Feb"; "Mar"; "Apr"; "May"; "Jun"; "Jul"; "Aug"; "Sep"; "Oct"; "Nov"; "Dec"]%string.

Definition REGIONS : list (string * list string) :=
  [ ("Sierra Nevada", ["CA"; "NV"]);
    ("Rockies", ["CO"; "WY"; "MT"; "ID"; "UT"]);
    ("Cascades", ["WA"; "OR"]);
    ("Northeast", ["VT"; "NH"; "ME"; "NY"]);
    ("Southwest", ["AZ"; "NM"]) ]%string.

(** ** The period-of-record analytics engine *)

(** One turn of the loop that groups [porData] by water year. *)
Definition byWY_step (byWY : gmap Z (list PORDay)) (d : PORDay) : gmap Z (list PORDay) :=
  match por_swe d with
  | None => byWY
  | Some _ =>
      let wy := dateToWY (por_date d) in
      <[wy := default [] (byWY !! wy) ++ [d]]> byWY
  end.

Definition group_byWY (porData : list PORDay) : gmap Z (list PORDay) :=
  fold_left byWY_step porData ∅.

(** [Object.entries(o)] of an object whose keys are integer indices: the
    entries come in ascending order of the key. *)
Definition Object_entries {V} (o : gmap Z V) : list (Z * V) :=
  sort_by (fun a b => a.1 <=? b.1) (map_to_list o).

(** [d.swe !== null && d.swe > 1] *)
Definition above1 (d : PORDay) : bool :=
  match por_swe d with
  | Some v => Qgtb v 1
  | None => false
  end.

(** One turn of the peak loop on the pair [(peakSWE, peakDate)]. *)
Definition peak_step (acc : Q * Date) (d : PORDay) : Q * Date :=
  match por_swe d with
  | Some v => if Qgtb v acc.1 then (v, por_date d) else acc
  | None => acc
  end.

(** [sorted[0].date]; the groups that reach it have more than 60 days. *)
Definition first_date (sorted : list PORDay) : Date :=
  match sorted with
  | d :: _ => por_date d
  | [] => mkDate 0 0 0
  end.

Definition sort_days (days : list PORDay) : list PORDay :=
  sort_by (fun a b => date_leb (por_date a) (por_date b)) days.

(** The body of the [.map] that turns one entry of [byWY] into a summary. *)
Definition summarize (wyStr : Z) (days : list PORDay) : WaterYearSummary :=
  let sorted := sort_days days in
  let peak := fold_left peak_step sorted (0%Q, first_date sorted) in
  let peakDate := peak.2 in
  let onsetDay := List.find above1 sorted in
  let onsetDate := por_date <$> onsetDay in
  let afterPeak := List.filter (fun d => date_leb peakDate (por_date d)) sorted in
  let lastAbove := List.find above1 (rev afterPeak) in
  let meltOutDate := por_date <$> lastAbove in
  let seasonDays :=
    match onsetDate, meltOutDate with
    | Some o, Some m =>
        Math_round (inject_Z (getTime m - getTime o) / inject_Z msPerDay)
    | _, _ => 0
    end in
  mkWY wyStr peak.1 peakDate onsetDate meltOutDate seasonDays.

Definition summarize_all (byWY : gmap Z (list PORDay)) : list WaterYearSummary :=
  sort_by (fun a b => wy a <=? wy b)
    (map (fun e => summarize e.1 e.2)
       (List.filter (fun e => (60 <? length e.2)%nat) (Object_entries byWY))).

(** The fit of a metric against the water year, skipped below six points. *)
Definition timing_slope (data : list (Z * Z)) : Q :=
  if (5 <? length data)%nat
  then slope (linearRegression (map (fun o => inject_Z o.1) data)
                               (map (fun o => inject_Z o.2) data))
  else 0%Q.

Definition avg_dowy (data : list (Z * Z)) : Z :=
  if (0 <? length data)%nat
  then Math_round (reduce (fun a o _ => a ⊕ inject_Z o.2) data 0%Q ⊘ len data)
  else 0.

(** [Math.abs(dowy - todayDOWY) <= 3] for the [dowy] of [d.date] *)
Definition within3 (todayDOWY : Z) (d : PORDay) : bool :=
  let dowy := dateToDOWY (por_date d) in
  Z.abs (dowy - todayDOWY) <=? 3.

(** One turn of the loop over the entries of [byWY] that fills the pool. *)
Definition pool_step (todayDOWY : Z) (acc : list Q) (e : Z * list PORDay) : list Q :=
  let dayAtDOWY := List.find (within3 todayDOWY) e.2 in
  match dayAtDOWY with
  | Some d => match por_swe d with Some v => acc ++ [v] | None => acc end
  | None => acc
  end.

(** The pool of historical values within three days of today's day of
    water year, one per water year, sorted ascending. *)
Definition historicalAtDOWY (byWY : gmap Z (list PORDay)) (todayDOWY : Z) : list Q :=
  sort_by Qle_bool (fold_left (pool_step todayDOWY) (Object_entries byWY) []).

(** [l.slice(-10)] *)
Definition slice_last10 {A} (l : list A) : list A := drop (length l - 10) l.

Definition project_peak (currentWYHydro : list HydroPoint) : option Q :=
  if (5 <? length currentWYHydro)%nat then
    match last currentWYHydro with
    | None => None
    | Some latestHydro =>
        let latestMedian := h_median latestHydro in
        let latestSWE := h_swe latestHydro in
        match latestMedian, latestSWE with
        | Some med, Some swe =>
            if truthy latestMedian && truthy latestSWE && Qgtb med 0 then
              let ratio := swe ⊘ med in
              match Math_max (omap h_median currentWYHydro) with
              | Some peakMedian =>
                  if Qgtb peakMedian med
                  then Some (round1 (ratio ⊗ peakMedian))
                  else None
              | None => None
              end
            else None
        | _, _ => None
        end
    end
  else None.

(** One turn of the loop that fills [monthlyBuckets]. *)
Definition bucket_step (b : gmap Z (list Q)) (d : PORDay) : gmap Z (list Q) :=
  match por_swe d with
  | None => b
  | Some v =>
      let mo := getMonth (por_date d) in
      <[mo := default [] (b !! mo) ++ [v]]> b
  end.

Definition monthly_buckets (porData : list PORDay) : gmap Z (list Q) :=
  fold_left bucket_step porData ∅.

Definition clim_of (monthlyBuckets : gmap Z (list Q)) (mo : Z) : MonthClim :=
  let vals := default [] (monthlyBuckets !! mo) in
  let avg := if (0 <? length vals)%nat then sum vals ⊘ len vals else 0%Q in
  let min := if (0 <? length vals)%nat then default 0%Q (Math_min vals) else 0%Q in
  let max := if (0 <? length vals)%nat then default 0%Q (Math_max vals) else 0%Q in
  mkClim (nth (Z.to_nat mo) MONTHS ""%string) (round1 avg) (round1 min) (round1 max).

(** The nine snow-season months, October to June, as [getMonth] numbers. *)
Definition snow_months : list Z := [9; 10; 11; 0; 1; 2; 3; 4; 5].

Definition monthly_clim (porData : list PORDay) : list MonthClim :=
  map (clim_of (monthly_buckets porData)) snow_months.

Definition manhattan (station s : SnotelStation) : Q :=
  Math_abs (st_lat s ⊖ st_lat station) ⊕ Math_abs (st_lon s ⊖ st_lon station).

Definition nearby_of (station : SnotelStation) (allStations : list SnotelStation)
  : list (string * option Q) :=
  map (fun s => (st_name s, st_pctMedian s))
    (take 3
      (sort_by (fun a b => Qle_bool (manhattan station a) (manhattan station b))
        (List.filter (fun s =>
            negb (String.eqb (st_id s) (st_id station))
            && Qltb (Math_abs (st_lat s ⊖ st_lat station)) 1
            && Qltb (Math_abs (st_lon s ⊖ st_lon station)) 1
            && bool_decide (st_pctMedian s <> None)) allStations))).

(** [states.includes(x)] *)
Definition includes (states : list string) (x : string) : bool :=
  existsb (String.eqb x) states.

Definition region_of (station : SnotelStation) (allStations : list SnotelStation)
  : string * list SnotelStation :=
  match List.find (fun r => includes r.2 (st_state station)) REGIONS with
  | Some (name, states) =>
      (name, List.filter (fun s => includes states (st_state s)
                                   && bool_decide (st_pctMedian s <> None)) allStations)
  | None => ("Region"%string, [])
  end.

Definition computeAnalytics (now : Clock)
    (porData : list PORDay) (station : SnotelStation)
    (allStations : list SnotelStation) (currentWYHydro : list HydroPoint)
  : StationAnalytics :=
  let byWY := group_byWY porData in
  let waterYears := summarize_all byWY in
  (* peak SWE trend *)
  let peakXs := map (fun w => inject_Z (wy w)) waterYears in
  let peakYs := map peakSWE waterYears in
  let peakReg := linearRegression peakXs peakYs in
  let peakTrendSlope := slope peakReg ⊗ 10 in
  let span :=
    if (1 <? length waterYears)%nat
    then match last waterYears, head waterYears with
         | Some l, Some f => wy l - wy f
         | _, _ => 1
         end
    else 1 in
  let avgPeak := if (0 <? length peakYs)%nat then sum peakYs ⊘ len peakYs else 1%Q in
  let peakTrendPct :=
    if Qgtb avgPeak 0 then slope peakReg ⊗ inject_Z span ⊘ avgPeak ⊗ 100 else 0%Q in
  (* season timing trends *)
  let onsetData :=
    omap (fun w => (fun d => (wy w, dateToDOWY d)) <$> onsetDate w) waterYears in
  let meltData :=
    omap (fun w => (fun d => (wy w, dateToDOWY d)) <$> meltOutDate w) waterYears in
  let seasonsWithLength :=
    map (fun w => (wy w, seasonDays w))
        (List.filter (fun w => 0 <? seasonDays w) waterYears) in
  (* current onset for this water year *)
  let wyYear := waterYearDates_wyYear now in
  let currentWY := List.find (fun w => wy w =? wyYear) waterYears in
  let currentOnsetDOWY := currentWY ≫= (fun w => dateToDOWY <$> onsetDate w) in
  (* current rank *)
  let todayDOWY := dateToDOWY (utcDate now) in
  let currentSWE := default 0%Q (st_swe station) in
  let historical := historicalAtDOWY byWY todayDOWY in
  let currentRank :=
    (length (List.filter (fun v => Qltb v currentSWE) historical) + 1)%nat in
  (* below median count in the last ten years *)
  let recent10 := slice_last10 waterYears in
  let medianPeak :=
    if (0 <? length peakYs)%nat
    then nth (length peakYs / 2) (sort_by Qle_bool peakYs) 0%Q
    else 0%Q in
  let belowMedianCount10yr :=
    length (List.filter (fun w => Qltb (peakSWE w) medianPeak) recent10) in
  (* regional average *)
  let region := region_of station allStations in
  let regionStations := region.2 in
  let regionAvgPct :=
    if (0 <? length regionStations)%nat
    then Math_round (reduce (fun a s _ => a ⊕ default 0%Q (st_pctMedian s))
                            regionStations 0%Q ⊘ len regionStations)
    else 0 in
  {| waterYears := waterYears;
     peakTrendSlope := peakTrendSlope;
     peakTrendPct := peakTrendPct;
     peakTrendSignificant :=
       Qgtb (r2 peakReg) (binary64 (15 # 100)) && (10 <? length waterYears)%nat;
     avgOnsetDOWY := avg_dowy onsetData;
     currentOnsetDOWY := currentOnsetDOWY;
     onsetTrendDays := timing_slope onsetData ⊗ 10;
     avgMeltOutDOWY := avg_dowy meltData;
     meltOutTrendDays := timing_slope meltData ⊗ 10;
     avgSeasonLength := avg_dowy seasonsWithLength;
     seasonLengthChange := timing_slope seasonsWithLength ⊗ inject_Z span;
     currentRank := currentRank;
     totalYears := length historical;
     belowMedianCount10yr := belowMedianCount10yr;
     projectedPeak := project_peak currentWYHydro;
     monthlyClim := monthly_clim porData;
     nearbyComparison := nearby_of station allStations;
     regionName := region.1;
     regionAvgPct := regionAvgPct |}.

(** ** The specification's vocabulary *)

(** The arithmetic mean of an array of doubles, taken as the engine takes
    it: the running sum in array order, divided by the length. *)
Definition mean (l : list Q) : Q := sum l ⊘ len l.

(** The order of two observations by date. *)
Definition date_le (a b : PORDay) : Prop := date_leb (por_date a) (por_date b) = true.

(** A valid observation is one whose value is not missing. *)
Definition is_valid (d : PORDay) : bool :=
  match por_swe d with Some _ => true | None => false end.

(** The valid observations of water year [y], in input order. *)
Definition year_days (porData : list PORDay) (y : Z) : list PORDay :=
  List.filter (fun d => is_valid d && (dateToWY (por_date d) =? y)) porData.

(** The number of valid observations of water year [y]. *)
Definition valid_count (porData : list PORDay) (y : Z) : nat :=
  length (year_days porData y).

(** The number of summaries that carry the label [y]. *)
Definition summaries_of (ws : list WaterYearSummary) (y : Z) : nat :=
  length (List.filter (fun s => wy s =? y) ws).

(** A group of [byWY] or a bucket exists only once it has an element. *)
Definition nonempty_opt {A} (l : list A) : option (list A) :=
  match l with [] => None | _ => Some l end.

(** The valid readings of calendar month [mo] (zero-based), in input order. *)
Definition month_values (porData : list PORDay) (mo : Z) : list Q :=
  omap (fun d => if getMonth (por_date d) =? mo then por_swe d else None) porData.

(** The denominator of the slope, [n * sumXX - sumX * sumX], as the fit
    computes it. *)
Definition slope_denominator (xs : list Q) : Q :=
  len xs ⊗ reduce (fun a x _ => a ⊕ x ⊗ x) xs 0%Q ⊖ sum xs ⊗ sum xs.

(** The total sum of squares [ssTot] of a fit of [ys] against [xs], as the
    fit computes it. *)
Definition total_sum_of_squares (xs ys : list Q) : Q :=
  reduce (fun a y _ => a ⊕ sq (y ⊖ sum ys ⊘ len xs)) ys 0%Q.

(** The water years that hold a valid observation, in ascending order. *)
Definition water_years_of (porData : list PORDay) : list Z :=
  sort_by Z.leb
    (remove_dups (map (fun d => dateToWY (por_date d)) (List.filter is_valid porData))).

(** An observation whose day of water year is within three days of
    [today], either way. *)
Definition in_window (today : Z) (d : PORDay) : bool :=
  (today - 3 <=? dateToDOWY (por_date d)) && (dateToDOWY (por_date d) <=? today + 3).

(** The value that water year [y] gives to the pool of the rank: that of
    its first valid observation, in input order, within the window. *)
Definition pooled_value (porData : list PORDay) (today y : Z) : option Q :=
  List.find (in_window today) (year_days porData y) ≫= por_swe.

(** The pool of historical values: one per water year that has an
    observation within the window. *)
Definition pool_of (porData : list PORDay) (today : Z) : list Q :=
  omap (pooled_value porData today) (water_years_of porData).

(** The water years with more than 60 valid observations, ascending. *)
Definition summarized_years (porData : list PORDay) : list Z :=
  List.filter (fun y => (60 <? valid_count porData y)%nat) (water_years_of porData).

(** The peak value of the valid observations of water year [y]. *)
Definition peak_of_year (porData : list PORDay) (y : Z) : Q :=
  peakSWE (summarize y (year_days porData y)).

(** ** The claims as the specification words them *)

(** C1 as the specification words it: a summary exists exactly for the
    water years with at least 60 valid observations. *)
Definition summary_iff_at_least_60 (ws : list WaterYearSummary)
    (porData : list PORDay) (y : Z) : Prop :=
  (exists s, s ∈ ws /\ wy s = y) <-> (60 <= valid_count porData y)%nat.

(** C2 as the specification words it: [peakSWE] is the maximum of the
    year's observed values and [peakDate] the earliest date on which the
    maximum occurs. *)
Definition peak_is_first_maximum (porData : list PORDay) (s : WaterYearSummary) : Prop :=
  let days := year_days porData (wy s) in
  (forall d v, d ∈ days -> por_swe d = Some v -> (v <= peakSWE s)%Q) /\
  (exists d v, d ∈ days /\ por_swe d = Some v /\ (v == peakSWE s)%Q /\
               por_date d = peakDate s) /\
  (forall d v, d ∈ days -> por_swe d = Some v -> (v == peakSWE s)%Q ->
               date_leb (peakDate s) (por_date d) = true).

(** C5 as the specification words it, for the projection [p] returned on
    the current-season series [hydro]; the quotient and the product are
    those of doubles. *)
Definition projection_as_worded (hydro : list HydroPoint) (p : option Q) : Prop :=
  ((length hydro < 6)%nat -> p = None) /\
  (forall latest med,
     last hydro = Some latest -> h_median latest = Some med ->
     (med <= 0)%Q -> p = None) /\
  (forall latest med peakMedian,
     last hydro = Some latest -> h_median latest = Some med ->
     Math_max (omap h_median hydro) = Some peakMedian ->
     (peakMedian <= med)%Q -> p = None) /\
  (forall latest swe med peakMedian,
     (6 <= length hydro)%nat ->
     last hydro = Some latest ->
     h_swe latest = Some swe -> h_median latest = Some med -> (0 < med)%Q ->
     Math_max (omap h_median hydro) = Some peakMedian -> (med < peakMedian)%Q ->
     exists q, p = Some q /\ (q == swe ⊘ med ⊗ peakMedian)%Q).

(** C6 as the specification words it, for a pair of arrays of equal
    length. *)
Definition regression_as_worded (xs ys : list Q) : Prop :=
  let r := linearRegression xs ys in
  ((length xs < 2)%nat -> r = mkReg 0 0 0) /\
  ((2 <= length xs)%nat ->
     forall c, (forall x, x ∈ xs -> (x == c)%Q) ->
       slope r = 0%Q /\ (intercept r == mean ys)%Q /\ r2 r = 0%Q) /\
  (forall c, (forall y, y ∈ ys -> (y == c)%Q) -> (r2 r == 0)%Q).

(** C8 as the specification words it: the result is a function of the
    four inputs alone, whatever the clock reads. *)
Definition clock_independent (porData : list PORDay) (station : SnotelStation)
    (allStations : list SnotelStation) (hydro : list HydroPoint) : Prop :=
  forall now1 now2,
    computeAnalytics now1 porData station allStations hydro =
    computeAnalytics now2 porData station allStations hydro.

(** C9 as the specification words it: the monthly statistics and the
    projected peak leave the engine unrounded. *)
Definition returned_unrounded (porData : list PORDay) (hydro : list HydroPoint)
    (a : StationAnalytics) : Prop :=
  (forall i mo c,
     snow_months !! i = Some mo -> monthlyClim a !! i = Some c ->
     month_values porData mo <> [] ->
     (mc_avg c == mean (month_values porData mo))%Q /\
     (exists mn, Math_min (month_values porData mo) = Some mn /\ (mc_min c == mn)%Q) /\
     (exists mx, Math_max (month_values porData mo) = Some mx /\ (mc_max c == mx)%Q)) /\
  (forall q latest swe med peakMedian,
     projectedPeak a = Some q -> last hydro = Some latest ->
     h_swe latest = Some swe -> h_median latest = Some med ->
     Math_max (omap h_median hydro) = Some peakMedian ->
     (q == swe ⊘ med ⊗ peakMedian)%Q).

(** ** Sample inputs *)

(** The [i]-th of a run of distinct dates from January 1st of year [y]. *)
Definition nth_date (y : Z) (i : nat) : Date :=
  mkDate y (1 + Z.of_nat i / 28) (1 + Z.of_nat i mod 28).

(** [n] daily readings from January 1st of [y], the [i]-th being [v i]. *)
Definition season (y : Z) (n : nat) (v : nat -> Q) : list PORDay :=
  map (fun i => mkPOR (nth_date y i) (Some (v i))) (seq 0 n).

(** A reading of [i] tenths of an inch on day [i]. *)
Definition ramp (i : nat) : Q := binary64 (inject_Z (Z.of_nat i) / 10).

(** A year of 61 readings, all of them one inch below zero. *)
Definition below_zero (i : nat) : Q := (-1)%Q.

(** Three water years of 61 readings each, the readings doubling and
    tripling from one year to the next. *)
Definition three_years : list PORDay :=
  season 2018 61 ramp
  ++ season 2019 61 (fun i => 2 ⊗ ramp i)
  ++ season 2020 61 (fun i => 3 ⊗ ramp i).

(** Eleven water years of 61 readings each, those of year [2010 + k]
    being [k + 1] times the readings of [ramp]. *)
Definition eleven_years : list PORDay :=
  flat_map (fun k => season (2010 + Z.of_nat k) 61
                       (fun i => inject_Z (Z.of_nat (k + 1)) ⊗ ramp i))
           (seq 0 11).

(** A tenth, as a double. *)
Definition tenth : Q := binary64 (1 # 10).

(** Three January readings of 0.35 inches. *)
Definition three_of_035 : list PORDay :=
  map (fun i => mkPOR (mkDate 2020 1 i) (Some (binary64 (35 # 100)))) [1; 2; 3].

(** One January reading of a quarter of an inch. *)
Definition quarter_inch : list PORDay := [mkPOR (mkDate 2020 1 15) (Some (1 # 4)%Q)].

(** The summary of a year of 61 rising readings. *)
Definition sample_summary : WaterYearSummary := summarize 2020 (season 2020 61 ramp).

(** A station snapshot with a current reading of 3 inches. *)
Definition harts_pass : SnotelStation :=
  mkStation "515" "Harts Pass" "WA" 6490 (binary64 (487 # 10)) (binary64 (-1207 # 10))
            (Some 3%Q) (Some 90%Q).

(** A station snapshot with a current reading of an inch and a half. *)
Definition stevens_pass : SnotelStation :=
  mkStation "791" "Stevens Pass" "WA" 3950 (binary64 (477 # 10)) (binary64 (-1211 # 10))
            (Some (3 # 2)%Q) (Some 100%Q).

(** A clock that reads November 3rd, 2026: day 34 of water year 2027. *)
Definition sample_clock : Clock := mkClock (mkDate 2026 11 3) (mkDate 2026 11 3).

(** A clock that reads January 10th, 2026: day 102 of water year 2026. *)
Definition january_clock : Clock := mkClock (mkDate 2026 1 10) (mkDate 2026 1 10).

(** A point of the current season with reading [swe] and median [med]. *)
Definition hydro_point (i : Z) (swe med : option Q) : HydroPoint :=
  mkHydro (mkDate 2025 10 i) i swe med None.

(** Six days at a median of 4 inches, then one at 3 with a 1 inch reading. *)
Definition declining_median : list HydroPoint :=
  map (fun i => hydro_point i (Some 2%Q) (Some 4%Q)) [1; 2; 3; 4; 5; 6]
  ++ [hydro_point 7 (Some 1%Q) (Some 3%Q)].

(** Six days at a median of 0.3 inches, then one at 0.2 with a reading of
    0.1: the product 0.5 * 0.3 is a double just below 0.15, ten times it
    rounds to the double 1.5, and the projection is 0.2. *)
Definition tenths_of_an_inch : list HydroPoint :=
  map (fun i => hydro_point i (Some tenth) (Some (binary64 (3 # 10)))) [1; 2; 3; 4; 5; 6]
  ++ [hydro_point 7 (Some tenth) (Some (binary64 (2 # 10)))].


(** ** The calendar *)

(** A leap year of the Gregorian calendar. *)
Definition is_leap (y : Z) : bool :=
  ((y mod 4 =? 0) && negb (y mod 100 =? 0)) || (y mod 400 =? 0).

Definition days_in_month (y m : Z) : Z :=
  if m =? 2 then (if is_leap y then 29 else 28)
  else if (m =? 4) || (m =? 6) || (m =? 9) || (m =? 11) then 30 else 31.

(** A date string that names a day of the calendar. *)
Definition valid_date (d : Date) : Prop :=
  1 <= month d <= 12 /\ 1 <= day d <= days_in_month (year d) (month d).

(** The day count of the first of March of year [y], up to a constant. *)
Definition year_base (y : Z) : Z :=
  let era := y / 400 in
  let yoe := y - era * 400 in
  era * 146097 + yoe * 365 + yoe / 4 - yoe / 100.

(** The days from October 1st that starts a water year to the first of
    month [m], which falls in calendar year [y]. *)
Definition dowy_offset (y m : Z) : Z :=
  let leap := if is_leap y then 1 else 0 in
  if m =? 10 then 0 else if m =? 11 then 31 else if m =? 12 then 61
  else if m =? 1 then 92 else if m =? 2 then 123
  else leap + (if m =? 3 then 151 else if m =? 4 then 182 else if m =? 5 then 212
               else if m =? 6 then 243 else if m =? 7 then 273
               else if m =? 8 then 304 else 335).

(** ** More of [src/App.tsx] *)

Record WaterYearDates := mkWYD { wyd_start : Date; wyd_end : Date; wyd_wyYear : Z }.

(** [waterYearDates()]: the request window of the current-season series,
    from October 1st of [wyYear] to today's local date. *)
Definition waterYearDates (now : Clock) : WaterYearDates :=
  let d := localDate now in
  let wyYear := if 9 <=? getMonth d then getFullYear d else getFullYear d - 1 in
  mkWYD (mkDate wyYear 10 1)
        (mkDate (getFullYear d) (getMonth d + 1) (day d))
        wyYear.

(** [s[k]] for a number [k]: [undefined] outside the array. *)
Definition js_index {A} (s : list A) (k : Z) : option A :=
  if k <? 0 then None else s !! Z.to_nat k.

(** [ordinal(n)] for a whole number [n] that a double holds exactly and
    the template literal prints as its decimal numeral (up to [2^53] in
    size); [%] is the remainder that takes the sign of the dividend, and
    the suffixes are all truthy. *)
Definition ordinal (n : Z) : string :=
  let s := ["th"; "st"; "nd"; "rd"]%string in
  let v := Z.rem n 100 in
  let suffix :=
    match js_index s (Z.rem (v - 20) 10) with
    | Some x => x
    | None => match js_index s v with
              | Some x => x
              | None => default ""%string (js_index s 0)
              end
    end in
  (pretty n +:+ suffix)%string.

Record SnotelSummary := mkSummary {
  ss_avg : Z; ss_above : nat; ss_below : nat; ss_total : nat }.

(** The [snotelSummary] memo of the main component. *)
Definition snotelSummary (snotelStations : list SnotelStation) : SnotelSummary :=
  let withData := List.filter (fun s => bool_decide (st_pctMedian s <> None)) snotelStations in
  let avg :=
    if (0 <? length withData)%nat
    then Math_round (reduce (fun a s _ => a ⊕ default 0%Q (st_pctMedian s)) withData 0%Q
                     ⊘ len withData)
    else 0 in
  let above :=
    length (List.filter (fun s => Qle_bool 100 (default 0%Q (st_pctMedian s))) withData) in
  let below :=
    length (List.filter (fun s => Qltb (default 0%Q (st_pctMedian s)) 100) withData) in
  mkSummary avg above below (length withData).

(** ** [src/DataDashboard.tsx] *)

Module DataDashboard.

(** The dashboard's copy of the fit, with [ssTot = syy - sy * sy / n]. *)
Definition linearRegression (xs ys : list Q) : Regression :=
  let n := len xs in
  if (length xs <? 2)%nat then mkReg 0 0 0 else
  let sx := sum xs in
  let sy := sum ys in
  let sxx := reduce (fun a x _ => a ⊕ x ⊗ x) xs 0%Q in
  let sxy := reduce (fun a x i => a ⊕ x ⊗ at_index ys i) xs 0%Q in
  let syy := reduce (fun a y _ => a ⊕ y ⊗ y) ys 0%Q in
  let denom := n ⊗ sxx ⊖ sx ⊗ sx in
  if Qeq_bool denom 0 then mkReg 0 (sy ⊘ n) 0 else
  let slope := (n ⊗ sxy ⊖ sx ⊗ sy) ⊘ denom in
  let intercept := (sy ⊖ slope ⊗ sx) ⊘ n in
  let ssTot := syy ⊖ sy ⊗ sy ⊘ n in
  let ssRes := reduce (fun a y i => a ⊕ sq (y ⊖ (slope ⊗ at_index xs i ⊕ intercept))) ys 0%Q in
  let r2 := if Qgtb ssTot 0 then 1 ⊖ ssRes ⊘ ssTot else 0%Q in
  mkReg slope intercept r2.

End DataDashboard.

(** ** Vocabulary of the further properties *)

(** The correct English suffix of a whole number. *)
Definition english_suffix (n : Z) : string :=
  if n <? 0 then "th"
  else if (11 <=? n mod 100) && (n mod 100 <=? 13) then "th"
  else if n mod 10 =? 1 then "st"
  else if n mod 10 =? 2 then "nd"
  else if n mod 10 =? 3 then "rd"
  else "th".

(** A station that [computeAnalytics] may list as a neighbour of [station]. *)
Definition eligible_neighbour (station s : SnotelStation) : bool :=
  negb (String.eqb (st_id s) (st_id station))
  && Qltb (Math_abs (st_lat s ⊖ st_lat station)) 1
  && Qltb (Math_abs (st_lon s ⊖ st_lon station)) 1
  && bool_decide (st_pctMedian s <> None).

(** [d.swe] of a valid observation. *)
Definition reading (d : PORDay) : Q := default 0%Q (por_swe d).

(** The stations of [allStations] in one of [states] that report a
    percent of median. *)
Definition region_members (states : list string) (allStations : list SnotelStation)
  : list SnotelStation :=
  List.filter (fun s => includes states (st_state s)
                        && bool_decide (st_pctMedian s <> None)) allStations.

(** The percent-of-median values of a list of stations that report one. *)
Definition pct_values (l : list SnotelStation) : list Q := omap st_pctMedian l.

(** A station in Colorado and three of its neighbours. *)
Definition berthoud : SnotelStation :=
  mkStation "335" "Berthoud Summit" "CO" 11300 (binary64 (398 # 10)) (binary64 (-1058 # 10))
            (Some 10%Q) (Some 95%Q).

Definition colorado_stations : list SnotelStation :=
  [ berthoud;
    mkStation "936" "Loveland Basin" "CO" 11400 (binary64 (397 # 10)) (binary64 (-1059 # 10))
              (Some 12%Q) (Some 105%Q);
    mkStation "1" "Far Away" "CO" 9000 37 (-107) (Some 5%Q) (Some 80%Q);
    mkStation "2" "No Data" "CO" 9000 (binary64 (398 # 10)) (binary64 (-1057 # 10)) None None;
    mkStation "3" "Jackson" "WY" 7000 (binary64 (402 # 10)) (-106) (Some 8%Q) (Some 120%Q) ].

(** Two stations at the same computed distance of a third, and two
    stations that report 0.3 and 0.7 percent of median. *)
Definition origin_station : SnotelStation :=
  mkStation "0" "Origin" "CO" 9000 (binary64 (1 # 10)) (binary64 (2 # 10)) None None.

Definition tied_stations : list SnotelStation :=
  [ mkStation "1" "East" "CO" 9000 (binary64 (1 # 10)) (binary64 (8 # 10))
              (Some 1%Q) (Some 100%Q);
    mkStation "2" "North" "CO" 9000 (binary64 (4 # 10)) (binary64 (5 # 10))
              (Some 1%Q) (Some 100%Q) ].

Definition sparse_stations : list SnotelStation :=
  [ mkStation "1" "Low" "CO" 9000 40 (-106) (Some 1%Q) (Some (binary64 (3 # 10)));
    mkStation "2" "Lower" "CO" 9000 40 (-106) (Some 1%Q) (Some (binary64 (7 # 10))) ].

(** The summaries that have an onset date. *)
Definition with_onset (ws : list WaterYearSummary) : list WaterYearSummary :=
  List.filter (fun s => bool_decide (onsetDate s <> None)) ws.

(** The summaries with a positive season length. *)
Definition with_season (ws : list WaterYearSummary) : list WaterYearSummary :=
  List.filter (fun s => 0 <? seasonDays s) ws.

(** The calendar date of a day count, the inverse of [epochDay]: what
    [getFullYear], [getMonth] and [getDate] read off a time value. *)
Definition civil_from_days (days : Z) : Date :=
  let z := days + 719468 in
  let era := z / 146097 in
  let doe := z - era * 146097 in
  let yoe := (doe - doe / 1460 + doe / 36524 - doe / 146096) / 365 in
  let y := yoe + era * 400 in
  let doy := doe - (365 * yoe + yoe / 4 - yoe / 100) in
  let mp := (5 * doy + 2) / 153 in
  let d := doy - (153 * mp + 2) / 5 + 1 in
  let m := if mp <? 10 then mp + 3 else mp - 9 in
  mkDate (if m <=? 2 then y + 1 else y) m d.

(** [d.setDate(n)]: day [n] of the month of [d], carried over the ends of
    the month. *)
Definition setDate (d : Date) (n : Z) : Date :=
  civil_from_days (epochDay (mkDate (year d) (month d) 1) + n - 1).

(** The year that [new Date(y, m, d)] takes for its first argument: 0 to
    99 stand for 1900 to 1999. *)
Definition constructor_year (y : Z) : Z :=
  if (0 <=? y) && (y <=? 99) then 1900 + y else y.

(** [dowyToDate(dowy, wyYear)] for whole numbers [dowy] and [wyYear]
    within the years that a [Date] holds; [setDate] moves along the
    calendar of the local time zone. *)
Definition dowyToDate (dowy wyYear : Z) : string :=
  let start := mkDate (constructor_year wyYear) 10 1 in
  let start := setDate start (day start + dowy - 1) in
  (nth (Z.to_nat (getMonth start)) MONTHS "" +:+ " " +:+ pretty (day start))%string.

(** The label ["Mon D"] of a date. *)
Definition date_label (d : Date) : string :=
  (nth (Z.to_nat (month d - 1)) MONTHS "" +:+ " " +:+ pretty (day d))%string.

(** * Properties *)

(** ** The rounding of doubles *)

Lemma pow2_pos e : (0 < 2 ^ e)%Q.
Proof. apply Qpower_0_lt. reflexivity. Qed.

Lemma pow2_le e1 e2 : e1 <= e2 -> (2 ^ e1 <= 2 ^ e2)%Q.
Proof. intros H. apply Qpower_le_compat_l; [exact H | discriminate]. Qed.

Lemma pow2_lt e1 e2 : e1 < e2 -> (2 ^ e1 < 2 ^ e2)%Q.
Proof. intros H. apply Qpower_lt_compat_l; [exact H | reflexivity]. Qed.

Lemma pow2_lt_inv e1 e2 : (2 ^ e1 < 2 ^ e2)%Q -> e1 < e2.
Proof. intros H. apply (Qpower_lt_compat_l_inv 2); [exact H | reflexivity]. Qed.

Lemma pow2_plus e1 e2 : (2 ^ (e1 + e2) == 2 ^ e1 * 2 ^ e2)%Q.
Proof. apply Qpower_plus. discriminate. Qed.

Lemma pow2_minus e1 e2 : (2 ^ (e1 - e2) == 2 ^ e1 / 2 ^ e2)%Q.
Proof. apply Qpower_minus. discriminate. Qed.

Lemma pow2_Z n : 0 <= n -> (2 ^ n == inject_Z (2 ^ n))%Q.
Proof. intros H. symmetry. apply (Zpower_Qpower 2 n H). Qed.

Lemma inject_Z_pos z : 0 < z -> (0 < inject_Z z)%Q.
Proof. intros H. change 0%Q with (inject_Z 0). rewrite <- Zlt_Qlt. exact H. Qed.

Lemma ilog2_spec a : (0 < a)%Q -> (2 ^ ilog2 a <= a)%Q /\ (a < 2 ^ (ilog2 a + 1))%Q.
Proof.
  intros Ha. unfold ilog2.
  destruct a as [n d]. cbn [Qnum Qden].
  assert (Hn : 0 < n) by (unfold Qlt in Ha; cbn in Ha; lia).
  destruct (Z.log2_spec n Hn) as [Hn1 Hn2].
  destruct (Z.log2_spec (Zpos d) (Pos2Z.is_pos d)) as [Hd1 Hd2].
  pose proof (Z.log2_nonneg n) as Hln. pose proof (Z.log2_nonneg (Zpos d)) as Hld.
  set (ln := Z.log2 n) in *. set (ld := Z.log2 (Zpos d)) in *.
  assert (Hq : (n # d == inject_Z n / inject_Z (Zpos d))%Q) by apply Qmake_Qdiv.
  assert (Hdpos : (0 < inject_Z (Zpos d))%Q) by (unfold Qlt; cbn; lia).
  assert (Hup : (n # d < 2 ^ (ln - ld + 1))%Q).
  { rewrite Hq. apply Qlt_shift_div_r; [exact Hdpos|].
    replace (ln - ld + 1) with ((ln + 1) - ld) by lia.
    rewrite pow2_minus. rewrite (pow2_Z (ln + 1)) by lia. rewrite (pow2_Z ld) by lia.
    unfold Qdiv. rewrite <- Qmult_assoc.
    set (t := (/ inject_Z (2 ^ ld) * inject_Z (Z.pos d))%Q).
    assert (Ht : (1 <= t)%Q).
    { unfold t. rewrite Qmult_comm. apply Qle_shift_div_l.
      - apply inject_Z_pos. lia.
      - rewrite Qmult_1_l. rewrite <- Zle_Qle. exact Hd1. }
    apply Qlt_le_trans with (inject_Z (2 ^ (ln + 1))).
    - rewrite <- Zlt_Qlt. exact Hn2.
    - rewrite <- (Qmult_1_r (inject_Z (2 ^ (ln + 1)))) at 1.
      apply Qmult_le_l; [apply inject_Z_pos; lia | exact Ht]. }
  assert (Hlo : (2 ^ (ln - ld - 1) < n # d)%Q).
  { rewrite Hq. apply Qlt_shift_div_l; [exact Hdpos|].
    replace (ln - ld - 1) with (ln - (ld + 1)) by lia.
    rewrite pow2_minus. rewrite (pow2_Z ln) by lia. rewrite (pow2_Z (ld + 1)) by lia.
    unfold Qdiv. rewrite <- Qmult_assoc.
    set (t := (/ inject_Z (2 ^ (ld + 1)) * inject_Z (Z.pos d))%Q).
    assert (Ht : (t < 1)%Q).
    { unfold t. rewrite Qmult_comm. apply Qlt_shift_div_r.
      - apply inject_Z_pos. lia.
      - rewrite Qmult_1_l. rewrite <- Zlt_Qlt. exact Hd2. }
    apply Qlt_le_trans with (inject_Z (2 ^ ln)).
    - rewrite <- (Qmult_1_r (inject_Z (2 ^ ln))) at 2.
      apply Qmult_lt_l; [apply inject_Z_pos; lia | exact Ht].
    - rewrite <- Zle_Qle. exact Hn1. }
  destruct (Qle_bool (2 ^ (ln - ld)) (n # d)) eqn:E.
  - apply Qle_bool_iff in E. split; [exact E | exact Hup].
  - split.
    + apply Qlt_le_weak. exact Hlo.
    + replace (ln - ld - 1 + 1) with (ln - ld) by lia.
      apply Qnot_le_lt. intros H. apply Qle_bool_iff in H. congruence.
Qed.

Lemma ilog2_unique a e : (2 ^ e <= a)%Q -> (a < 2 ^ (e + 1))%Q -> ilog2 a = e.
Proof.
  intros H1 H2.
  assert (Ha : (0 < a)%Q) by (eapply Qlt_le_trans; [apply (pow2_pos e) | exact H1]).
  destruct (ilog2_spec a Ha) as [H3 H4].
  assert (ilog2 a < e + 1).
  { apply pow2_lt_inv. eapply Qle_lt_trans; [exact H3 | exact H2]. }
  assert (e < ilog2 a + 1).
  { apply pow2_lt_inv. eapply Qle_lt_trans; [exact H1 | exact H4]. }
  lia.
Qed.

Lemma ilog2_mono a b : (0 < a)%Q -> (a <= b)%Q -> ilog2 a <= ilog2 b.
Proof.
  intros Ha Hab.
  assert (Hb : (0 < b)%Q) by (eapply Qlt_le_trans; eassumption).
  destruct (ilog2_spec a Ha) as [H1 _]. destruct (ilog2_spec b Hb) as [_ H2].
  assert (ilog2 a < ilog2 b + 1); [|lia].
  apply pow2_lt_inv. eapply Qle_lt_trans; [exact H1|]. eapply Qle_lt_trans; eassumption.
Qed.

(** *** Rounding to the nearest integer *)

Lemma round_even_cases x :
  let f := Qfloor x in
  (round_even x = f /\ (x - inject_Z f <= 1 # 2)%Q) \/
  (round_even x = f + 1 /\ (1 # 2 <= x - inject_Z f)%Q).
Proof.
  cbv zeta. unfold round_even.
  destruct (Qcompare_spec (x - inject_Z (Qfloor x)) (1 # 2)) as [H|H|H].
  - destruct (Z.even (Qfloor x)); [left | right]; (split; [reflexivity | rewrite H; apply Qle_refl]).
  - left. split; [reflexivity | apply Qlt_le_weak, H].
  - right. split; [reflexivity | apply Qlt_le_weak, H].
Qed.

Lemma round_even_Z z : round_even (inject_Z z) = z.
Proof.
  unfold round_even. rewrite Qfloor_Z.
  destruct (Qcompare_spec (inject_Z z - inject_Z z) (1 # 2)) as [H|H|H].
  - exfalso. lra.
  - reflexivity.
  - exfalso. lra.
Qed.

Lemma round_even_mono x y : (x <= y)%Q -> round_even x <= round_even y.
Proof.
  intros Hxy.
  pose proof (Qfloor_resp_le x y Hxy) as Hf.
  pose proof (Qfloor_le x) as Hx1. pose proof (Qlt_floor x) as Hx2.
  pose proof (Qfloor_le y) as Hy1. pose proof (Qlt_floor y) as Hy2.
  rewrite inject_Z_plus in Hx2, Hy2.
  destruct (Z.eq_dec (Qfloor x) (Qfloor y)) as [E|E].
  - unfold round_even. rewrite <- E.
    destruct (Qcompare_spec (x - inject_Z (Qfloor x)) (1 # 2)) as [H|H|H];
    destruct (Qcompare_spec (y - inject_Z (Qfloor x)) (1 # 2)) as [G|G|G];
      try destruct (Z.even (Qfloor x)); try lia; exfalso; lra.
  - destruct (round_even_cases x) as [[-> _]|[-> _]], (round_even_cases y) as [[-> _]|[-> _]]; lia.
Qed.

#[global] Instance round_even_proper : Proper (Qeq ==> eq) round_even.
Proof.
  intros x y H. unfold round_even.
  assert (E : Qfloor x = Qfloor y) by (rewrite H; reflexivity).
  rewrite E. rewrite H. reflexivity.
Qed.

Lemma round_even_nonneg x : (0 <= x)%Q -> 0 <= round_even x.
Proof. intros H. rewrite <- (round_even_Z 0). apply round_even_mono. exact H. Qed.

(** *** Rounding to the nearest double *)

Lemma nearest_pos a :
  (0 < a)%Q -> nearest a = (inject_Z (round_even (a / 2 ^ ulp_exponent a)) * 2 ^ ulp_exponent a)%Q.
Proof.
  intros Ha. unfold nearest.
  destruct (Qle_bool a 0) eqn:E; [|reflexivity].
  apply Qle_bool_iff in E. exfalso. lra.
Qed.

Lemma nearest_nonpos a : (a <= 0)%Q -> nearest a = 0%Q.
Proof. intros H. unfold nearest. apply Qle_bool_iff in H. rewrite H. reflexivity. Qed.

Lemma nearest_nonneg a : (0 <= nearest a)%Q.
Proof.
  destruct (Qlt_le_dec 0 a) as [Ha|Ha].
  - rewrite (nearest_pos a Ha). apply Qmult_le_0_compat.
    + change 0%Q with (inject_Z 0). rewrite <- Zle_Qle. apply round_even_nonneg.
      apply Qle_shift_div_l; [apply pow2_pos | lra].
    + apply Qlt_le_weak, pow2_pos.
  - rewrite (nearest_nonpos a Ha). apply Qle_refl.
Qed.

#[global] Instance nearest_proper : Proper (Qeq ==> Qeq) nearest.
Proof.
  intros a b Hab.
  destruct (Qlt_le_dec 0 a) as [Ha|Ha].
  - assert (Hb : (0 < b)%Q) by (rewrite <- Hab; exact Ha).
    rewrite (nearest_pos a Ha), (nearest_pos b Hb).
    assert (E : ulp_exponent a = ulp_exponent b).
    { unfold ulp_exponent. f_equal. f_equal.
      destruct (ilog2_spec a Ha) as [H1 H2].
      symmetry. apply ilog2_unique; rewrite <- Hab; assumption. }
    rewrite E. rewrite Hab. reflexivity.
  - rewrite (nearest_nonpos a Ha). rewrite nearest_nonpos; [reflexivity | rewrite <- Hab; exact Ha].
Qed.

(** A rational that is at most a power of two above its last bit rounds
    to at most that power, and likewise from below. *)
Lemma nearest_le_pow2 a k :
  (0 < a)%Q -> (a <= 2 ^ k)%Q -> ulp_exponent a <= k -> (nearest a <= 2 ^ k)%Q.
Proof.
  intros Ha Hak He. rewrite (nearest_pos a Ha).
  set (e := ulp_exponent a) in *.
  assert (Hk : (2 ^ k == inject_Z (2 ^ (k - e)) * 2 ^ e)%Q).
  { rewrite <- pow2_Z by lia. rewrite <- pow2_plus. replace (k - e + e) with k by lia. reflexivity. }
  rewrite Hk. apply Qmult_le_compat_r; [|apply Qlt_le_weak, pow2_pos].
  rewrite <- Zle_Qle. rewrite <- (round_even_Z (2 ^ (k - e))).
  apply round_even_mono. apply Qle_shift_div_r; [apply pow2_pos|].
  rewrite <- Hk. exact Hak.
Qed.

Lemma nearest_ge_pow2 a k :
  (2 ^ k <= a)%Q -> ulp_exponent a <= k -> (2 ^ k <= nearest a)%Q.
Proof.
  intros Hak He.
  assert (Ha : (0 < a)%Q) by (eapply Qlt_le_trans; [apply (pow2_pos k) | exact Hak]).
  rewrite (nearest_pos a Ha).
  set (e := ulp_exponent a) in *.
  assert (Hk : (2 ^ k == inject_Z (2 ^ (k - e)) * 2 ^ e)%Q).
  { rewrite <- pow2_Z by lia. rewrite <- pow2_plus. replace (k - e + e) with k by lia. reflexivity. }
  rewrite Hk. apply Qmult_le_compat_r; [|apply Qlt_le_weak, pow2_pos].
  rewrite <- Zle_Qle. rewrite <- (round_even_Z (2 ^ (k - e))).
  apply round_even_mono. apply Qle_shift_div_l; [apply pow2_pos|].
  rewrite <- Hk. exact Hak.
Qed.

Lemma nearest_mono a b : (a <= b)%Q -> (nearest a <= nearest b)%Q.
Proof.
  intros Hab.
  destruct (Qlt_le_dec 0 a) as [Ha|Ha].
  2:{ rewrite (nearest_nonpos a Ha). apply nearest_nonneg. }
  assert (Hb : (0 < b)%Q) by lra.
  pose proof (ilog2_mono a b Ha Hab) as Hl.
  destruct (ilog2_spec a Ha) as [Ha1 Ha2]. destruct (ilog2_spec b Hb) as [Hb1 Hb2].
  destruct (Z.eq_dec (ulp_exponent a) (ulp_exponent b)) as [E|E].
  - rewrite (nearest_pos a Ha), (nearest_pos b Hb), E.
    apply Qmult_le_compat_r; [|apply Qlt_le_weak, pow2_pos].
    rewrite <- Zle_Qle. apply round_even_mono.
    apply Qmult_le_compat_r; [exact Hab|]. apply Qlt_le_weak, Qinv_lt_0_compat, pow2_pos.
  - assert (Hlt : ilog2 a < ilog2 b) by (unfold ulp_exponent in E; lia).
    apply Qle_trans with (2 ^ ilog2 b)%Q.
    + apply nearest_le_pow2; [exact Ha | | unfold ulp_exponent in *; lia].
      apply Qle_trans with (2 ^ (ilog2 a + 1))%Q; [lra | apply pow2_le; lia].
    + apply nearest_ge_pow2; [exact Hb1 | unfold ulp_exponent in *; lia].
Qed.

(** Whole multiples [m * 2^k] of a power of two no smaller than the last
    bit, with [m] of at most 53 bits, are doubles. *)
Lemma nearest_exact m k :
  0 <= m <= 2 ^ 53 -> -1074 <= k -> (nearest (inject_Z m * 2 ^ k) == inject_Z m * 2 ^ k)%Q.
Proof.
  intros Hm Hk.
  destruct (Z.eq_dec m 0) as [->|Hm0].
  { rewrite nearest_nonpos; [ring | rewrite Qmult_0_l; apply Qle_refl]. }
  assert (Hmpos : 0 < m) by lia.
  set (a := (inject_Z m * 2 ^ k)%Q).
  assert (Ha : (0 < a)%Q).
  { unfold a. apply Qmult_lt_0_compat; [apply inject_Z_pos; lia | apply pow2_pos]. }
  destruct (Z.log2_spec m Hmpos) as [Hl1 Hl2]. pose proof (Z.log2_nonneg m) as Hl0.
  assert (Hl : ilog2 a = Z.log2 m + k).
  { apply ilog2_unique; unfold a.
    - rewrite pow2_plus. apply Qmult_le_compat_r; [|apply Qlt_le_weak, pow2_pos].
      rewrite pow2_Z by lia. rewrite <- Zle_Qle. exact Hl1.
    - replace (Z.log2 m + k + 1) with (Z.log2 m + 1 + k) by lia.
      rewrite pow2_plus. apply Qmult_lt_compat_r; [apply pow2_pos|].
      rewrite pow2_Z by lia. rewrite <- Zlt_Qlt. replace (Z.log2 m + 1) with (Z.succ (Z.log2 m)) by lia.
      exact Hl2. }
  rewrite (nearest_pos a Ha). unfold ulp_exponent. rewrite Hl.
  set (e := Z.max (Z.log2 m + k - 52) (-1074)).
  assert (Hl53 : Z.log2 m <= 53).
  { rewrite <- (Z.log2_pow2 53) by lia. apply Z.log2_le_mono. lia. }
  destruct (Z.eq_dec m (2 ^ 53)) as [E53|N53].
  - (* the top of the range is itself a power of two *)
    assert (L53 : Z.log2 m = 53) by (rewrite E53; apply Z.log2_pow2; lia).
    assert (He : e <= 53 + k) by (unfold e; lia).
    assert (Hx : (a / 2 ^ e == inject_Z (2 ^ (53 + k - e)))%Q).
    { unfold a. rewrite E53. rewrite <- pow2_Z by lia. rewrite <- pow2_Z by lia.
      rewrite <- pow2_plus. rewrite <- pow2_minus. reflexivity. }
    rewrite Hx, round_even_Z. unfold a. rewrite E53.
    rewrite <- pow2_Z by lia. rewrite <- pow2_Z by lia.
    rewrite <- !pow2_plus. replace (53 + k - e + e) with (53 + k) by lia. reflexivity.
  - assert (Hl52 : Z.log2 m <= 52).
    { assert (Z.log2 m < 53); [|lia]. apply Z.log2_lt_pow2; lia. }
    assert (He : e <= k) by (unfold e; lia).
    assert (Hx : (a / 2 ^ e == inject_Z (m * 2 ^ (k - e)))%Q).
    { unfold a. rewrite inject_Z_mult. rewrite <- (pow2_Z (k - e)) by lia.
      rewrite pow2_minus. field. apply Qnot_eq_sym, Qlt_not_eq, pow2_pos. }
    rewrite Hx, round_even_Z. unfold a.
    rewrite inject_Z_mult. rewrite <- (pow2_Z (k - e)) by lia.
    rewrite <- Qmult_assoc. rewrite <- pow2_plus. replace (k - e + e) with k by lia. reflexivity.
Qed.

(** *** The rounding of signed values *)

Lemma binary64_nonneg x : (0 <= x)%Q -> binary64 x = nearest x.
Proof. intros H. unfold binary64. apply Qle_bool_iff in H. rewrite H. reflexivity. Qed.

Lemma binary64_neg x : (x < 0)%Q -> binary64 x = (- nearest (- x))%Q.
Proof.
  intros H. unfold binary64. destruct (Qle_bool 0 x) eqn:E; [|reflexivity].
  apply Qle_bool_iff in E. exfalso. lra.
Qed.

#[global] Instance binary64_proper : Proper (Qeq ==> Qeq) binary64.
Proof.
  intros x y H. destruct (Qlt_le_dec x 0) as [Hx|Hx].
  - rewrite (binary64_neg x Hx), (binary64_neg y) by (rewrite <- H; exact Hx).
    rewrite H. reflexivity.
  - rewrite (binary64_nonneg x Hx), (binary64_nonneg y) by (rewrite <- H; exact Hx).
    rewrite H. reflexivity.
Qed.

Lemma binary64_mono x y : (x <= y)%Q -> (binary64 x <= binary64 y)%Q.
Proof.
  intros Hxy.
  destruct (Qlt_le_dec x 0) as [Hx|Hx], (Qlt_le_dec y 0) as [Hy|Hy].
  - rewrite (binary64_neg x Hx), (binary64_neg y Hy).
    apply Qopp_le_compat. apply nearest_mono. lra.
  - rewrite (binary64_neg x Hx), (binary64_nonneg y Hy).
    pose proof (nearest_nonneg (- x)). pose proof (nearest_nonneg y). lra.
  - exfalso. lra.
  - rewrite (binary64_nonneg x Hx), (binary64_nonneg y Hy). apply nearest_mono. exact Hxy.
Qed.

Lemma binary64_exact m k :
  Z.abs m <= 2 ^ 53 -> -1074 <= k -> (binary64 (inject_Z m * 2 ^ k) == inject_Z m * 2 ^ k)%Q.
Proof.
  intros Hm Hk. destruct (Z.le_gt_cases 0 m) as [H0|H0].
  - rewrite binary64_nonneg.
    + apply nearest_exact; lia.
    + apply Qmult_le_0_compat; [change 0%Q with (inject_Z 0); rewrite <- Zle_Qle; lia
                               | apply Qlt_le_weak, pow2_pos].
  - rewrite binary64_neg.
    + assert (E : (- (inject_Z m * 2 ^ k) == inject_Z (- m) * 2 ^ k)%Q)
        by (rewrite inject_Z_opp; ring).
      rewrite E. rewrite nearest_exact by lia. rewrite inject_Z_opp. ring.
    + assert (inject_Z m < 0)%Q by (change 0%Q with (inject_Z 0); rewrite <- Zlt_Qlt; lia).
      pose proof (pow2_pos k). nra.
Qed.

Lemma binary64_Z z : Z.abs z <= 2 ^ 53 -> (binary64 (inject_Z z) == inject_Z z)%Q.
Proof.
  intros H. pose proof (binary64_exact z 0 H ltac:(lia)) as E.
  change (2 ^ 0)%Q with 1%Q in E. rewrite Qmult_1_r in E. exact E.
Qed.

Lemma binary64_sign x : (0 <= x)%Q -> (0 <= binary64 x)%Q.
Proof. intros H. rewrite (binary64_nonneg x H). apply nearest_nonneg. Qed.

(** ** Numbers *)

Lemma Qltb_lt a b : Qltb a b = true <-> (a < b)%Q.
Proof.
  unfold Qltb. rewrite negb_true_iff. split.
  - intros H. apply Qnot_le_lt. intros Hle.
    apply Qle_bool_iff in Hle. congruence.
  - intros H. destruct (Qle_bool b a) eqn:E; [|reflexivity].
    apply Qle_bool_iff in E. exfalso. apply (Qlt_not_le _ _ H E).
Qed.

Lemma Qltb_ge a b : Qltb a b = false <-> (b <= a)%Q.
Proof.
  unfold Qltb. rewrite negb_false_iff. apply Qle_bool_iff.
Qed.

Lemma Qgtb_gt a b : Qgtb a b = true <-> (b < a)%Q.
Proof. apply Qltb_lt. Qed.

Lemma Qgtb_le a b : Qgtb a b = false <-> (a <= b)%Q.
Proof. apply Qltb_ge. Qed.

Lemma len_cons {A} (x : A) l : (len (x :: l) == 1 + len l)%Q.
Proof.
  unfold len. cbn [length]. rewrite Nat2Z.inj_succ, <- Z.add_1_l.
  rewrite inject_Z_plus. reflexivity.
Qed.

Lemma len_nonneg {A} (l : list A) : (0 <= len l)%Q.
Proof.
  unfold len. change 0%Q with (inject_Z 0). rewrite <- Zle_Qle. lia.
Qed.

(** ** Arithmetic on doubles *)

#[global] Instance js_add_proper : Proper (Qeq ==> Qeq ==> Qeq) js_add.
Proof. intros a b H c d G. unfold js_add. now rewrite H, G. Qed.

#[global] Instance js_sub_proper : Proper (Qeq ==> Qeq ==> Qeq) js_sub.
Proof. intros a b H c d G. unfold js_sub. now rewrite H, G. Qed.

#[global] Instance js_mul_proper : Proper (Qeq ==> Qeq ==> Qeq) js_mul.
Proof. intros a b H c d G. unfold js_mul. now rewrite H, G. Qed.

#[global] Instance js_div_proper : Proper (Qeq ==> Qeq ==> Qeq) js_div.
Proof. intros a b H c d G. unfold js_div. now rewrite H, G. Qed.

Lemma binary64_0 : binary64 0 = 0%Q.
Proof. reflexivity. Qed.

(** The operations are exact on whole numbers as long as the result is
    at most [2^53] in size. *)
Lemma js_add_Z a b :
  Z.abs (a + b) <= 2 ^ 53 -> (inject_Z a ⊕ inject_Z b == inject_Z (a + b))%Q.
Proof. intros H. unfold js_add. rewrite <- inject_Z_plus. apply binary64_Z, H. Qed.

Lemma js_sub_Z a b :
  Z.abs (a - b) <= 2 ^ 53 -> (inject_Z a ⊖ inject_Z b == inject_Z (a - b))%Q.
Proof.
  intros H. unfold js_sub.
  assert (E : (inject_Z a - inject_Z b == inject_Z (a - b))%Q).
  { unfold Z.sub. rewrite inject_Z_plus, inject_Z_opp. reflexivity. }
  rewrite E. apply binary64_Z, H.
Qed.

Lemma js_mul_Z a b :
  Z.abs (a * b) <= 2 ^ 53 -> (inject_Z a ⊗ inject_Z b == inject_Z (a * b))%Q.
Proof. intros H. unfold js_mul. rewrite <- inject_Z_mult. apply binary64_Z, H. Qed.

Lemma js_div_Z a b :
  b <> 0 -> Z.abs a <= 2 ^ 53 -> (inject_Z (a * b) ⊘ inject_Z b == inject_Z a)%Q.
Proof.
  intros Hb H. unfold js_div.
  assert (E : (inject_Z (a * b) / inject_Z b == inject_Z a)%Q).
  { rewrite inject_Z_mult. field. intros Hz.
    apply Hb. apply (inject_Z_injective b 0). exact Hz. }
  rewrite E. apply binary64_Z, H.
Qed.

(** ** Linear regression *)

Section Reduce.
Context {A : Type}.

(** A running sum whose terms are all one whole number [t] is exact as
    long as its partial sums are at most [2^53] in size. *)
Lemma reduce_from_whole (g : A -> nat -> Q) (t : Z) l :
  forall i (acc : Q) (z : Z),
    (acc == inject_Z z)%Q ->
    (forall x j, x ∈ l -> g x j == inject_Z t)%Q ->
    (forall k, 0 <= k <= Z.of_nat (length l) -> Z.abs (z + k * t) <= 2 ^ 53) ->
    (reduce_from (fun a x j => a ⊕ g x j) i l acc
     == inject_Z (z + Z.of_nat (length l) * t))%Q.
Proof.
  induction l as [|x l IH]; intros i acc z Hacc Hg Hb; cbn [reduce_from length].
  - rewrite Hacc. apply inject_Z_injective. lia.
  - rewrite (IH (S i) _ (z + t)).
    + apply inject_Z_injective. lia.
    + cbv beta. rewrite (Hg x i) by apply list_elem_of_here. rewrite Hacc.
      apply js_add_Z. specialize (Hb 1). replace (z + 1 * t) with (z + t) in Hb by lia.
      apply Hb. cbn [length]. lia.
    + intros y j Hy. apply Hg. now apply list_elem_of_further.
    + intros k Hk. replace (z + t + k * t) with (z + (k + 1) * t) by lia.
      apply Hb. cbn [length]. lia.
Qed.
End Reduce.

Lemma sum_reduce l : sum l = reduce (fun a x _ => a ⊕ x) l 0%Q.
Proof.
  unfold sum, reduce. generalize 0%nat, 0%Q.
  induction l as [|x l IH]; intros i acc; cbn [fold_left reduce_from]; [reflexivity|].
  apply IH.
Qed.

Lemma abs_mul_le k n t b : 0 <= k <= n -> Z.abs (n * t) <= b -> Z.abs (k * t) <= b.
Proof.
  intros Hk Hb. rewrite Z.abs_mul in *.
  apply Z.le_trans with (Z.abs n * Z.abs t); [|exact Hb].
  apply Z.mul_le_mono_nonneg_r; lia.
Qed.

Lemma sum_whole (t : Z) l :
  (forall x, x ∈ l -> x == inject_Z t)%Q ->
  Z.abs (Z.of_nat (length l) * t) <= 2 ^ 53 ->
  (sum l == inject_Z (Z.of_nat (length l) * t))%Q.
Proof.
  intros H Hb. rewrite sum_reduce. unfold reduce.
  rewrite (reduce_from_whole (fun x _ => x) t l 0%nat 0%Q 0).
  - apply inject_Z_injective. lia.
  - reflexivity.
  - intros x _ Hx. apply H, Hx.
  - intros k Hk. rewrite Z.add_0_l. apply (abs_mul_le k _ t _ Hk Hb).
Qed.

Lemma sq_bounds n c :
  1 <= n -> (n * c) ^ 2 <= 2 ^ 53 ->
  Z.abs (n * c) <= 2 ^ 53 /\ Z.abs (c * c) <= 2 ^ 53 /\
  (forall k, 0 <= k <= n -> Z.abs (k * (c * c)) <= 2 ^ 53) /\
  Z.abs (n * (n * (c * c))) <= 2 ^ 53 /\ Z.abs (n * c * (n * c)) <= 2 ^ 53.
Proof.
  intros Hn Hb. set (B := 2 ^ 53) in *.
  assert (HB : 0 < B) by (unfold B; lia).
  replace ((n * c) ^ 2) with (n * c * (n * c)) in Hb by ring.
  assert (H0 : 0 <= c * c) by nia.
  assert (H1 : c * c <= n * (c * c)) by nia.
  assert (H2 : n * (c * c) <= n * (n * (c * c))) by nia.
  assert (H3 : n * (n * (c * c)) = n * c * (n * c)) by ring.
  repeat split.
  - apply Z.abs_le. nia.
  - apply Z.abs_le. nia.
  - intros k Hk. apply Z.abs_le. nia.
  - apply Z.abs_le. nia.
  - apply Z.abs_le. nia.
Qed.

(** Identical whole [xs] make the computed denominator of the slope
    vanish. *)
Lemma denom_zero_of_whole_xs (c : Z) xs :
  (forall x, x ∈ xs -> x == inject_Z c)%Q ->
  (Z.of_nat (length xs) * c) ^ 2 <= 2 ^ 53 ->
  (slope_denominator xs == 0)%Q.
Proof.
  intros H Hb. unfold slope_denominator, reduce, len.
  set (n := Z.of_nat (length xs)) in *.
  destruct (Z.eq_dec n 0) as [E0|N0].
  { assert (xs = []) as -> by (destruct xs; [reflexivity | cbn in n; lia]).
    vm_compute. reflexivity. }
  assert (Hn : 1 <= n) by (unfold n in *; lia).
  destruct (sq_bounds n c Hn Hb) as (Hnc & Hcc & Hk & Hnn & Hsq).
  rewrite (reduce_from_whole (fun x _ => x ⊗ x) (c * c) xs 0%nat 0%Q 0).
  - rewrite (sum_whole c xs H Hnc). fold n. rewrite Z.add_0_l.
    rewrite (js_mul_Z n) by exact Hnn. rewrite (js_mul_Z (n * c)) by exact Hsq.
    rewrite js_sub_Z.
    + apply inject_Z_injective. ring.
    + replace (n * (n * (c * c)) - n * c * (n * c)) with 0 by ring. cbn. lia.
  - reflexivity.
  - intros x _ Hx. rewrite (H x Hx). apply js_mul_Z, Hcc.
  - intros k Hk'. fold n in Hk'. rewrite Z.add_0_l. apply Hk, Hk'.
Qed.

(** Constant whole [ys] make the computed total sum of squares vanish. *)
Lemma ssTot_zero_of_whole_ys (c : Z) xs ys :
  length xs = length ys -> ys <> [] ->
  (forall y, y ∈ ys -> y == inject_Z c)%Q ->
  Z.abs (Z.of_nat (length ys) * c) <= 2 ^ 53 ->
  (total_sum_of_squares xs ys == 0)%Q.
Proof.
  intros Hlen Hne H Hb. unfold total_sum_of_squares, reduce, len. rewrite Hlen.
  set (n := Z.of_nat (length ys)) in *.
  assert (Hn : 0 < n) by (unfold n; destruct ys; [congruence | cbn [length]; lia]).
  assert (Hc : Z.abs c <= 2 ^ 53) by nia.
  assert (Hm : (sum ys ⊘ inject_Z n == inject_Z c)%Q).
  { rewrite (sum_whole c ys H Hb). fold n. rewrite (Z.mul_comm n c).
    apply js_div_Z; lia. }
  rewrite (reduce_from_whole (fun y _ => sq (y ⊖ sum ys ⊘ inject_Z n)) 0 ys 0%nat 0%Q 0).
  - apply inject_Z_injective. lia.
  - reflexivity.
  - intros y _ Hy. unfold sq. rewrite (H y Hy), Hm.
    rewrite js_sub_Z by (rewrite Z.sub_diag; cbn; lia). rewrite Z.sub_diag.
    vm_compute. reflexivity.
  - intros k Hk. rewrite Z.mul_0_r. cbn. lia.
Qed.

(** The two tests of the code: a zero denominator returns the flat line
    through [sumY / n], and a total sum of squares that is not positive
    gives [r2 = 0]. *)
Lemma linearRegression_zero_denominator xs ys :
  (2 <= length xs)%nat -> (slope_denominator xs == 0)%Q ->
  linearRegression xs ys = mkReg 0 (sum ys ⊘ len xs) 0.
Proof.
  intros Hn Hd. unfold linearRegression.
  destruct (Nat.ltb_spec (length xs) 2); [lia|].
  apply Qeq_bool_iff in Hd. unfold slope_denominator in Hd. now rewrite Hd.
Qed.

Lemma linearRegression_zero_ssTot xs ys :
  (total_sum_of_squares xs ys <= 0)%Q -> r2 (linearRegression xs ys) = 0%Q.
Proof.
  intros Ht. unfold linearRegression.
  destruct (length xs <? 2)%nat; [reflexivity|].
  destruct (Qeq_bool _ 0); [reflexivity|]. cbn [r2].
  apply Qgtb_le in Ht. unfold total_sum_of_squares in Ht. now rewrite Ht.
Qed.

(** C6 (amended): below two points the fit is the zero trend; with two or
    more points and a computed denominator of zero, as identical whole
    [xs] give, it is the flat line through the mean of [ys] with
    [r2 = 0]; and a computed total sum of squares that is not positive,
    as constant whole [ys] give, makes [r2 = 0]. *)
Theorem linearRegression_degenerate (xs ys : list Q) :
  length xs = length ys ->
  ((length xs < 2)%nat -> linearRegression xs ys = mkReg 0 0 0) /\
  ((2 <= length xs)%nat ->
     ((slope_denominator xs == 0)%Q ->
        slope (linearRegression xs ys) = 0%Q /\
        intercept (linearRegression xs ys) = mean ys /\
        r2 (linearRegression xs ys) = 0%Q) /\
     (forall c : Z, (forall x, x ∈ xs -> x == inject_Z c)%Q ->
        (Z.of_nat (length xs) * c) ^ 2 <= 2 ^ 53 ->
        (slope_denominator xs == 0)%Q)) /\
  ((total_sum_of_squares xs ys <= 0)%Q -> r2 (linearRegression xs ys) = 0%Q) /\
  (forall c : Z, (forall y, y ∈ ys -> y == inject_Z c)%Q ->
     Z.abs (Z.of_nat (length ys) * c) <= 2 ^ 53 ->
     r2 (linearRegression xs ys) = 0%Q).
Proof.
  intros Hlen.
  split; [|split; [|split]].
  - intros Hn. unfold linearRegression.
    apply Nat.ltb_lt in Hn. now rewrite Hn.
  - intros Hn. split; [|intros c; apply denom_zero_of_whole_xs].
    intros Hd. rewrite (linearRegression_zero_denominator xs ys Hn Hd). cbn.
    repeat split. unfold mean, len. now rewrite Hlen.
  - apply linearRegression_zero_ssTot.
  - intros c Hc Hb. destruct (Nat.ltb_spec (length xs) 2) as [Hn|Hn].
    + unfold linearRegression. apply Nat.ltb_lt in Hn. now rewrite Hn.
    + apply linearRegression_zero_ssTot.
      rewrite (ssTot_zero_of_whole_ys c xs ys Hlen); [apply Qle_refl | | exact Hc | exact Hb].
      intros ->. cbn in Hlen. lia.
Qed.

Lemma linearRegression_degenerate_witness :
  linearRegression [5%Q] [10%Q] = mkReg 0 0 0 /\
  (slope (linearRegression [2020; 2020; 2020]%Q [10; 11; 12]%Q) = 0%Q /\
   (intercept (linearRegression [2020; 2020; 2020]%Q [10; 11; 12]%Q) == 11)%Q /\
   r2 (linearRegression [2020; 2020; 2020]%Q [10; 11; 12]%Q) = 0%Q) /\
  r2 (linearRegression [2019; 2020; 2021]%Q [7; 7; 7]%Q) = 0%Q.
Proof.
  split; [|split].
  - apply (linearRegression_degenerate [5%Q] [10%Q]); cbn; lia.
  - destruct (linearRegression_degenerate [2020; 2020; 2020]%Q [10; 11; 12]%Q eq_refl)
      as (_ & H & _).
    destruct (H ltac:(cbn; lia)) as [Hr Hd].
    destruct Hr as (Hs & Hi & Hr).
    + apply (Hd 2020).
      * intros x Hx. repeat (apply elem_of_cons in Hx as [->|Hx]); try reflexivity.
        now apply elem_of_nil in Hx.
      * vm_compute. discriminate.
    + split; [exact Hs|split; [|exact Hr]].
      rewrite Hi. vm_compute. reflexivity.
  - destruct (linearRegression_degenerate [2019; 2020; 2021]%Q [7; 7; 7]%Q eq_refl)
      as (_ & _ & _ & H).
    apply (H 7).
    + intros y Hy. repeat (apply elem_of_cons in Hy as [->|Hy]); try reflexivity.
      now apply elem_of_nil in Hy.
    + vm_compute. discriminate.
Defined.

(** C6 as worded fails on a constant series that is not whole: for the
    readings 0.1, 0.1, 0.1 of the years 2019 to 2021 the rounding of the
    mean leaves a positive total sum of squares, and [r2] is far below
    zero. *)
Lemma constant_series_r2_not_zero :
  ~ regression_as_worded [2019; 2020; 2021]%Q [tenth; tenth; tenth].
Proof.
  intros (_ & _ & H).
  specialize (H tenth).
  assert (E : r2 (linearRegression [2019; 2020; 2021]%Q [tenth; tenth; tenth])
              = (-5336947121018197 # 1073741824)%Q) by (vm_compute; reflexivity).
  rewrite E in H.
  assert (C : (-5336947121018197 # 1073741824 == 0)%Q).
  { apply H. intros y Hy. repeat (apply elem_of_cons in Hy as [->|Hy]); try reflexivity.
    now apply elem_of_nil in Hy. }
  discriminate C.
Qed.

(** ** Sorting *)

Section SortFacts.
Context {A : Type} (leb : A -> A -> bool).

Lemma insert_sorted_perm x l : insert_sorted leb x l ≡ₚ x :: l.
Proof.
  induction l as [|y l IH]; cbn; [done|].
  destruct (leb x y); [done|].
  rewrite IH. apply Permutation_swap.
Qed.

Lemma sort_by_perm l : sort_by leb l ≡ₚ l.
Proof.
  induction l as [|x l IH]; cbn; [done|].
  rewrite insert_sorted_perm. now rewrite IH.
Qed.

Lemma sort_by_elem x l : x ∈ sort_by leb l <-> x ∈ l.
Proof. now rewrite sort_by_perm. Qed.

Lemma sort_by_length l : length (sort_by leb l) = length l.
Proof. apply Permutation_length, sort_by_perm. Qed.

Hypothesis leb_total : forall x y, leb x y = false -> leb y x = true.
Hypothesis leb_trans : forall x y z, leb x y = true -> leb y z = true -> leb x z = true.

Lemma insert_sorted_sorted x l :
  StronglySorted (fun a b => leb a b = true) l ->
  StronglySorted (fun a b => leb a b = true) (insert_sorted leb x l).
Proof.
  induction 1 as [|y l Hs IH Hy]; cbn.
  - repeat constructor.
  - destruct (leb x y) eqn:E.
    + constructor; [now constructor|].
      constructor; [done|].
      eapply Forall_impl; [exact Hy|]. intros z Hz. eauto.
    + constructor; [done|].
      rewrite insert_sorted_perm. constructor; [eauto|done].
Qed.

Lemma sort_by_sorted l : StronglySorted (fun a b => leb a b = true) (sort_by leb l).
Proof.
  induction l as [|x l IH]; cbn; [constructor|].
  now apply insert_sorted_sorted.
Qed.
End SortFacts.

Lemma filter_length_perm {A} (f : A -> bool) l1 l2 :
  l1 ≡ₚ l2 -> length (List.filter f l1) = length (List.filter f l2).
Proof.
  induction 1 as [|x l1 l2 _ IH|x y l|l1 l2 l3 _ IH1 _ IH2]; cbn.
  - reflexivity.
  - destruct (f x); cbn; congruence.
  - destruct (f x), (f y); reflexivity.
  - congruence.
Qed.

(** ** Grouping by water year *)

Lemma year_days_app por d y :
  year_days (por ++ [d]) y =
  year_days por y ++
    (if is_valid d && (dateToWY (por_date d) =? y) then [d] else []).
Proof. unfold year_days. rewrite List.filter_app. reflexivity. Qed.

Lemma nonempty_opt_default {A} (l : list A) : default [] (nonempty_opt l) = l.
Proof. now destruct l. Qed.

Lemma nonempty_opt_snoc {A} (l : list A) x : nonempty_opt (l ++ [x]) = Some (l ++ [x]).
Proof. now destruct l. Qed.

(** After the grouping loop, [byWY[y]] is the list of the valid
    observations of water year [y] in input order, and is absent when
    there is none. *)
Lemma group_byWY_lookup por y :
  group_byWY por !! y = nonempty_opt (year_days por y).
Proof.
  unfold group_byWY. revert y.
  induction por as [|d por IH] using rev_ind; intros y.
  - reflexivity.
  - rewrite fold_left_app. cbn [fold_left]. rewrite year_days_app.
    unfold byWY_step, is_valid. destruct (por_swe d) as [v|]; cbn [andb].
    + destruct (Z.eqb_spec (dateToWY (por_date d)) y) as [->|Hne].
      * rewrite lookup_insert_eq, IH, nonempty_opt_default.
        now rewrite nonempty_opt_snoc.
      * rewrite lookup_insert_ne by done. rewrite app_nil_r. apply IH.
    + rewrite app_nil_r. apply IH.
Qed.

Lemma Object_entries_perm {V} (o : gmap Z V) : Object_entries o ≡ₚ map_to_list o.
Proof. apply sort_by_perm. Qed.

(** A map has at most one entry of key [y], and the count of those that
    pass [p] reads off the lookup. *)
Lemma count_key {V} (p : V -> bool) (o : gmap Z V) y :
  length (List.filter (fun e => (e.1 =? y) && p e.2) (map_to_list o)) =
  match o !! y with
  | Some v => if p v then 1%nat else 0%nat
  | None => 0%nat
  end.
Proof.
  induction o as [|k v o Hk Hfirst IH] using map_first_key_ind.
  - rewrite map_to_list_empty. reflexivity.
  - rewrite map_to_list_insert_first_key by done. cbn [List.filter fst snd].
    destruct (Z.eqb_spec k y) as [->|Hne].
    + rewrite lookup_insert_eq. rewrite Hk in IH. cbn [andb].
      destruct (p v); cbn [length]; now rewrite IH.
    + rewrite lookup_insert_ne by done. cbn [andb]. exact IH.
Qed.

(** ** Segmentation threshold *)

Lemma wy_summarize k days : wy (summarize k days) = k.
Proof. reflexivity. Qed.

Lemma filter_map_length {A B} (f : B -> bool) (g : A -> B) l :
  length (List.filter f (map g l)) = length (List.filter (fun a => f (g a)) l).
Proof.
  induction l as [|a l IH]; cbn; [reflexivity|].
  destruct (f (g a)); cbn; congruence.
Qed.

Lemma filter_filter_length {A} (f g : A -> bool) l :
  length (List.filter f (List.filter g l)) =
  length (List.filter (fun a => f a && g a) l).
Proof.
  induction l as [|a l IH]; cbn; [reflexivity|].
  destruct (g a); cbn; [|now rewrite andb_false_r].
  rewrite andb_true_r. destruct (f a); cbn; congruence.
Qed.

Lemma summaries_of_summarize_all por y :
  summaries_of (summarize_all (group_byWY por)) y =
  if (60 <? valid_count por y)%nat then 1%nat else 0%nat.
Proof.
  unfold summaries_of, summarize_all.
  rewrite (filter_length_perm _ _ _ (sort_by_perm _ _)).
  rewrite filter_map_length, filter_filter_length.
  rewrite (filter_length_perm _ _ _ (Object_entries_perm _)).
  cbn [wy summarize].
  rewrite (count_key (fun days => (60 <? length days)%nat)).
  rewrite group_byWY_lookup. unfold valid_count.
  destruct (year_days por y); reflexivity.
Qed.

Lemma summaries_of_pos ws y :
  (exists s, s ∈ ws /\ wy s = y) <-> (0 < summaries_of ws y)%nat.
Proof.
  unfold summaries_of. induction ws as [|w ws IH]; cbn.
  - split; [intros (s & Hs & _); inversion Hs|lia].
  - destruct (Z.eqb_spec (wy w) y) as [E|E]; cbn.
    + split; [lia|]. intros _. exists w. split; [left|exact E].
    + rewrite <- IH. split; intros (s & Hs & Hy); exists s.
      * apply elem_of_cons in Hs as [->|Hs]; [contradiction|done].
      * split; [now right|done].
Qed.

(** C1 (amended): the segmentation yields exactly one summary for a water
    year with more than 60 valid observations and none for any other
    year; so a year of 59 or of 60 yields none and a year of 61 one. *)
Theorem segmentation_threshold now porData station allStations hydro y :
  let ws := waterYears (computeAnalytics now porData station allStations hydro) in
  summaries_of ws y = (if (60 <? valid_count porData y)%nat then 1%nat else 0%nat) /\
  ((exists s, s ∈ ws /\ wy s = y) <-> (60 < valid_count porData y)%nat).
Proof.
  cbn zeta. change (waterYears (computeAnalytics _ porData _ _ _))
    with (summarize_all (group_byWY porData)).
  pose proof (summaries_of_summarize_all porData y) as Hc.
  split; [exact Hc|].
  rewrite summaries_of_pos, Hc.
  destruct (Nat.ltb_spec 60 (valid_count porData y)); lia.
Qed.

Lemma segmentation_threshold_witness :
  summaries_of (waterYears (computeAnalytics sample_clock (season 2020 61 ramp)
                              harts_pass [] [])) 2020 = 1%nat /\
  summaries_of (waterYears (computeAnalytics sample_clock (season 2020 59 ramp)
                              harts_pass [] [])) 2020 = 0%nat.
Proof.
  split.
  - exact (proj1 (segmentation_threshold sample_clock (season 2020 61 ramp)
                    harts_pass [] [] 2020)).
  - exact (proj1 (segmentation_threshold sample_clock (season 2020 59 ramp)
                    harts_pass [] [] 2020)).
Defined.

(** C1 as worded fails on a year of exactly 60 valid observations: the
    guard is [days.length > 60]. *)
Lemma sixty_observations_no_summary :
  ~ summary_iff_at_least_60
      (waterYears (computeAnalytics sample_clock (season 2020 60 ramp) harts_pass [] []))
      (season 2020 60 ramp) 2020.
Proof.
  intros [_ H].
  assert (E : waterYears (computeAnalytics sample_clock (season 2020 60 ramp)
                            harts_pass [] []) = []) by (vm_compute; reflexivity).
  rewrite E in H. destruct H as (s & Hs & _).
  - vm_compute. lia.
  - inversion Hs.
Qed.

(** ** Dates *)

Lemma date_leb_spec a b :
  date_leb a b = true <->
  year a < year b \/
  (year a = year b /\ (month a < month b \/ (month a = month b /\ day a <= day b))).
Proof.
  unfold date_leb, date_compare.
  destruct (Z.compare_spec (year a) (year b));
    destruct (Z.compare_spec (month a) (month b));
    destruct (Z.compare_spec (day a) (day b));
    split; intros H2; first [reflexivity | lia | discriminate H2].
Qed.

Lemma date_leb_refl a : date_leb a a = true.
Proof. apply date_leb_spec. lia. Qed.

Lemma date_leb_total a b : date_leb a b = false -> date_leb b a = true.
Proof.
  intros H. apply date_leb_spec.
  destruct (date_leb a b) eqn:E; [discriminate|].
  apply not_true_iff_false in E. rewrite date_leb_spec in E. lia.
Qed.

Lemma date_leb_trans a b c :
  date_leb a b = true -> date_leb b c = true -> date_leb a c = true.
Proof. rewrite !date_leb_spec. lia. Qed.

Lemma sort_days_sorted days : StronglySorted date_le (sort_days days).
Proof.
  unfold sort_days.
  apply (sort_by_sorted (fun a b => date_leb (por_date a) (por_date b))).
  - intros x y. apply date_leb_total.
  - intros x y z. apply date_leb_trans.
Qed.

Lemma sort_days_elem d days : d ∈ sort_days days <-> d ∈ days.
Proof. apply sort_by_elem. Qed.

Lemma sorted_after {A} (R : A -> A -> Prop) l1 e l2 x :
  StronglySorted R (l1 ++ e :: l2) -> x ∈ l2 -> R e x.
Proof.
  induction l1 as [|a l1 IH]; cbn; intros Hs Hx.
  - apply StronglySorted_inv in Hs as [_ Hall].
    rewrite Forall_forall in Hall. now apply Hall.
  - apply StronglySorted_inv in Hs as [Hs _]. now apply IH.
Qed.

(** In a sorted array, [find] returns an element that is at or before
    every element that passes the test. *)
Lemma find_sorted_first {A} (R : A -> A -> Prop) (p : A -> bool) l o e :
  StronglySorted R l -> List.find p l = Some o -> e ∈ l -> p e = true ->
  o = e \/ R o e.
Proof.
  induction 1 as [|x l Hs IH Hall]; cbn; intros Hf He Hp.
  - inversion He.
  - destruct (p x) eqn:Ex.
    + injection Hf as <-. apply elem_of_cons in He as [->|He]; [now left|].
      right. rewrite Forall_forall in Hall. now apply Hall.
    + apply elem_of_cons in He as [->|He]; [congruence|]. now apply IH.
Qed.

(** ** The summary of one water year *)

(** The peak loop from [(p0, d0)] over [l]: the result bounds [p0] and
    every value of [l]; it is either the initial pair, no value exceeding
    [p0], or the value and date of the first element that attains the
    maximum. *)
Lemma peak_loop l : forall p0 d0,
  let r := fold_left peak_step l (p0, d0) in
  (p0 <= r.1)%Q /\
  (forall e v, e ∈ l -> por_swe e = Some v -> (v <= r.1)%Q) /\
  ((r = (p0, d0) /\ forall e v, e ∈ l -> por_swe e = Some v -> (v <= p0)%Q) \/
   (exists l1 e l2,
      l = l1 ++ e :: l2 /\ por_swe e = Some r.1 /\ por_date e = r.2 /\
      (p0 < r.1)%Q /\
      forall e' v, e' ∈ l1 -> por_swe e' = Some v -> (v < r.1)%Q)).
Proof.
  induction l as [|x l IH]; intros p0 d0; cbn zeta.
  - cbn. split; [apply Qle_refl|]. split.
    + intros e v He. inversion He.
    + left. split; [reflexivity|]. intros e v He. inversion He.
  - cbn [fold_left].
    assert (Hstep : (peak_step (p0, d0) x = (p0, d0) /\
                     forall v, por_swe x = Some v -> (v <= p0)%Q) \/
                    (exists v, por_swe x = Some v /\ (p0 < v)%Q /\
                               peak_step (p0, d0) x = (v, por_date x))).
    { unfold peak_step. destruct (por_swe x) as [v|]; cbn [fst].
      - destruct (Qgtb v p0) eqn:E.
        + right. exists v. apply Qgtb_gt in E. auto.
        + left. apply Qgtb_le in E. split; [reflexivity|].
          intros v' [= <-]. exact E.
      - left. split; [reflexivity|]. intros v' [=]. }
    destruct Hstep as [[-> Hx]|(v & Hv & Hlt & ->)].
    + destruct (IH p0 d0) as (H0 & Hall & Hcase). split; [exact H0|]. split.
      * intros e w He Hw. apply elem_of_cons in He as [->|He]; [|eauto].
        eapply Qle_trans; [apply Hx, Hw|exact H0].
      * destruct Hcase as [[Hr Hle]|(l1 & e & l2 & -> & He & Hd & Hp & Hl1)].
        -- left. split; [exact Hr|]. intros e w He Hw.
           apply elem_of_cons in He as [->|He]; eauto.
        -- right. exists (x :: l1), e, l2. repeat split; try done.
           intros e' w He' Hw. apply elem_of_cons in He' as [->|He']; [|eauto].
           eapply Qle_lt_trans; [apply Hx, Hw|exact Hp].
    + destruct (IH v (por_date x)) as (H0 & Hall & Hcase). split; [|split].
      * apply Qlt_le_weak. eapply Qlt_le_trans; [exact Hlt|exact H0].
      * intros e w He Hw. apply elem_of_cons in He as [->|He]; [|eauto].
        rewrite Hv in Hw. injection Hw as <-. exact H0.
      * right.
        destruct Hcase as [[Hr Hle]|(l1 & e & l2 & -> & He & Hd & Hp & Hl1)].
        -- exists [], x, l. rewrite Hr. cbn. repeat split; try done.
           intros e' w He'. inversion He'.
        -- exists (x :: l1), e, l2. repeat split; try done.
           ++ eapply Qlt_trans; [exact Hlt|exact Hp].
           ++ intros e' w He' Hw. apply elem_of_cons in He' as [->|He']; [|eauto].
              rewrite Hv in Hw. injection Hw as <-. exact Hp.
Qed.

(** Every summary comes from the valid observations of its water year,
    of which there are more than 60. *)
Lemma elem_of_summarize_all por s :
  s ∈ summarize_all (group_byWY por) ->
  s = summarize (wy s) (year_days por (wy s)) /\ (60 < valid_count por (wy s))%nat.
Proof.
  unfold summarize_all. rewrite sort_by_elem, list_elem_of_In, in_map_iff.
  intros ([k days] & <- & Hin). cbn [fst snd wy summarize].
  apply filter_In in Hin as [Hin Hlen]. cbn [snd] in Hlen.
  apply list_elem_of_In in Hin. rewrite Object_entries_perm in Hin.
  apply elem_of_map_to_list in Hin. rewrite group_byWY_lookup in Hin.
  assert (days = year_days por k) as ->.
  { destruct (year_days por k); [discriminate|]. now injection Hin. }
  split; [reflexivity|]. now apply Nat.ltb_lt in Hlen.
Qed.

Lemma find_elem {A} (p : A -> bool) l x :
  List.find p l = Some x -> x ∈ l /\ p x = true.
Proof. intros H. apply find_some in H as [H1 H2]. now rewrite list_elem_of_In. Qed.

(** The ordering of onset, peak and melt-out within one summary. *)
Lemma summarize_order k days :
  let s := summarize k days in
  (forall d, onsetDate s = Some d -> date_leb d (peakDate s) = true) /\
  (forall d, meltOutDate s = Some d -> date_leb (peakDate s) d = true).
Proof.
  cbn zeta. split; intros d Hd.
  - cbn [onsetDate peakDate summarize] in *.
    destruct (List.find above1 (sort_days days)) as [o|] eqn:Ef; [|discriminate].
    cbn in Hd. injection Hd as <-.
    pose proof (find_elem _ _ _ Ef) as [Ho Hab].
    destruct (peak_loop (sort_days days) 0%Q (first_date (sort_days days)))
      as (_ & Hall & Hcase).
    unfold above1 in Hab. destruct (por_swe o) as [v|] eqn:Ev; [|discriminate].
    apply Qgtb_gt in Hab. pose proof (Hall o v Ho Ev) as Hle.
    destruct Hcase as [[_ Hno]|(l1 & e & l2 & Hl & He & Hde & _ & _)].
    + specialize (Hno o v Ho Ev). lra.
    + rewrite <- Hde.
      destruct (find_sorted_first date_le above1 (sort_days days) o e) as [->|H].
      * apply sort_days_sorted.
      * exact Ef.
      * rewrite Hl. apply elem_of_app. right. left.
      * unfold above1. rewrite He. apply Qgtb_gt. lra.
      * apply date_leb_refl.
      * exact H.
  - cbn [meltOutDate peakDate summarize] in *.
    match type of Hd with por_date <$> ?f = _ => destruct f as [m|] eqn:Ef end;
      [|discriminate].
    cbn in Hd. injection Hd as <-.
    apply find_some in Ef as [Hin _]. apply in_rev in Hin.
    apply filter_In in Hin as [_ Hge]. exact Hge.
Qed.

(** C3: in every summary an onset date, when present, is at or before the
    peak date, and a melt-out date, when present, is at or after it. *)
Theorem onset_peak_meltout_order now porData station allStations hydro s :
  s ∈ waterYears (computeAnalytics now porData station allStations hydro) ->
  (forall d, onsetDate s = Some d -> date_leb d (peakDate s) = true) /\
  (forall d, meltOutDate s = Some d -> date_leb (peakDate s) d = true) /\
  (forall o m, onsetDate s = Some o -> meltOutDate s = Some m ->
     date_leb o (peakDate s) = true /\ date_leb (peakDate s) m = true).
Proof.
  change (waterYears (computeAnalytics _ porData _ _ _))
    with (summarize_all (group_byWY porData)).
  intros Hs. apply elem_of_summarize_all in Hs as [-> _].
  destruct (summarize_order (wy s) (year_days porData (wy s))) as [Ho Hm].
  repeat split; auto.
Qed.

Lemma onset_peak_meltout_order_witness :
  date_leb (mkDate 2020 1 12) (peakDate sample_summary) = true /\
  date_leb (peakDate sample_summary) (mkDate 2020 3 5) = true.
Proof.
  assert (Hs : sample_summary ∈
    waterYears (computeAnalytics sample_clock (season 2020 61 ramp) harts_pass [] [])).
  { vm_compute. left. }
  destruct (onset_peak_meltout_order _ _ _ _ _ _ Hs) as (Ho & Hm & _).
  split; [apply Ho|apply Hm]; reflexivity.
Defined.

(** ** Peak value and peak date *)

Lemma summarize_peak k days :
  (peakSWE (summarize k days), peakDate (summarize k days)) =
  fold_left peak_step (sort_days days) (0%Q, first_date (sort_days days)).
Proof. cbn [peakSWE peakDate summarize]. now destruct (fold_left _ _ _). Qed.

Lemma year_days_valid por y d :
  d ∈ year_days por y -> exists v, por_swe d = Some v.
Proof.
  unfold year_days. rewrite list_elem_of_In, filter_In. intros [_ H].
  apply andb_true_iff in H as [H _]. unfold is_valid in H.
  destruct (por_swe d) as [v|]; [now exists v|discriminate].
Qed.

(** The first element of a sorted non-empty array is at or before all. *)
Lemma first_date_earliest days d :
  d ∈ sort_days days -> date_leb (first_date (sort_days days)) (por_date d) = true.
Proof.
  pose proof (sort_days_sorted days) as Hs.
  destruct (sort_days days) as [|d0 l]; intros Hd; [inversion Hd|].
  cbn [first_date]. apply elem_of_cons in Hd as [->|Hd]; [apply date_leb_refl|].
  apply (sorted_after date_le [] d0 l d Hs Hd).
Qed.

Lemma first_date_elem days :
  days <> [] -> exists d, d ∈ days /\ por_date d = first_date (sort_days days).
Proof.
  intros Hne. pose proof (sort_days_elem) as He.
  destruct (sort_days days) as [|d0 l] eqn:E.
  - apply (f_equal length) in E. unfold sort_days in E.
    rewrite sort_by_length in E. destruct days; [congruence|discriminate].
  - exists d0. split; [|reflexivity]. apply He. rewrite E. left.
Qed.

Section Peak.
Variables (k : Z) (days : list PORDay).
Hypothesis days_nonempty : days <> [].

Let s := summarize k days.

Lemma peak_bounds :
  (0 <= peakSWE s)%Q /\
  forall d v, d ∈ days -> por_swe d = Some v -> (v <= peakSWE s)%Q.
Proof.
  pose proof (summarize_peak k days) as Hp.
  destruct (peak_loop (sort_days days) 0%Q (first_date (sort_days days)))
    as (H0 & Hall & _).
  rewrite <- Hp in H0, Hall. cbn [fst] in H0, Hall.
  split; [exact H0|]. intros d v Hd. apply Hall. now apply sort_days_elem.
Qed.

(** With a positive reading in the year, the loop stops on the first
    element that attains the maximum. *)
Lemma peak_positive :
  (exists d v, d ∈ days /\ por_swe d = Some v /\ (0 < v)%Q) ->
  (exists d, d ∈ days /\ por_swe d = Some (peakSWE s) /\ por_date d = peakDate s) /\
  (forall d v, d ∈ days -> por_swe d = Some v -> (v == peakSWE s)%Q ->
               date_leb (peakDate s) (por_date d) = true).
Proof.
  intros (d0 & v0 & Hd0 & Hv0 & Hpos). unfold s.
  pose proof (summarize_peak k days) as Hp.
  destruct (peak_loop (sort_days days) 0%Q (first_date (sort_days days)))
    as (_ & _ & Hcase).
  rewrite <- Hp in Hcase. cbn [fst snd] in Hcase.
  destruct Hcase as [[_ Hno]|(l1 & e & l2 & Hl & He & Hde & _ & Hl1)].
  { apply sort_days_elem in Hd0. specialize (Hno d0 v0 Hd0 Hv0). lra. }
  assert (Hin : e ∈ days).
  { apply sort_days_elem. rewrite Hl. apply elem_of_app. right. left. }
  split; [now exists e|].
  intros d v Hd Hv Heq. apply sort_days_elem in Hd. rewrite Hl in Hd.
  apply elem_of_app in Hd as [Hd|Hd].
  - specialize (Hl1 d v Hd Hv). rewrite Heq in Hl1.
    exfalso. revert Hl1. apply Qlt_irrefl.
  - rewrite <- Hde. apply elem_of_cons in Hd as [->|Hd]; [apply date_leb_refl|].
    pose proof (sort_days_sorted days) as Hs. rewrite Hl in Hs.
    apply (sorted_after date_le l1 e l2 d Hs Hd).
Qed.

(** Without one, the loop leaves its initial pair: zero and the date of
    the earliest observation. *)
Lemma peak_not_positive :
  (forall d v, d ∈ days -> por_swe d = Some v -> (v <= 0)%Q) ->
  peakSWE s = 0%Q /\
  (exists d, d ∈ days /\ por_date d = peakDate s) /\
  (forall d, d ∈ days -> date_leb (peakDate s) (por_date d) = true).
Proof.
  intros Hle.
  pose proof (summarize_peak k days) as Hp.
  destruct (peak_loop (sort_days days) 0%Q (first_date (sort_days days)))
    as (_ & _ & Hcase).
  rewrite <- Hp in Hcase. cbn [fst snd] in Hcase.
  destruct Hcase as [[Hr _]|(l1 & e & l2 & Hl & He & _ & Hlt & _)].
  - apply pair_equal_spec in Hr as [H1 H2]. unfold s. rewrite H1, H2.
    split; [reflexivity|]. split; [now apply first_date_elem|].
    intros d Hd. apply first_date_earliest. now apply sort_days_elem.
  - assert (Hin : e ∈ days).
    { apply sort_days_elem. rewrite Hl. apply elem_of_app. right. left. }
    specialize (Hle e _ Hin He). lra.
Qed.
End Peak.

Lemma positive_or_none (days : list PORDay) :
  (exists d v, d ∈ days /\ por_swe d = Some v /\ (0 < v)%Q) \/
  (forall d v, d ∈ days -> por_swe d = Some v -> (v <= 0)%Q).
Proof.
  induction days as [|x days [IH|IH]].
  - right. intros d v Hd. inversion Hd.
  - left. destruct IH as (d & v & Hd & Hv). exists d, v. split; [now right|exact Hv].
  - destruct (por_swe x) as [w|] eqn:Ex.
    + destruct (Qlt_le_dec 0 w) as [Hw|Hw].
      * left. exists x, w. split; [left|done].
      * right. intros d v Hd Hv. apply elem_of_cons in Hd as [->|Hd]; [|eauto].
        rewrite Ex in Hv. now injection Hv as <-.
    + right. intros d v Hd Hv. apply elem_of_cons in Hd as [->|Hd]; [|eauto].
      congruence.
Qed.

(** C2 (amended): the peak value is the maximum of the year's readings
    and the peak date the earliest date of that maximum whenever some
    reading is positive or none is negative; when no reading is positive
    the peak value is 0 and the peak date is the year's earliest date. *)
Theorem peak_value_and_date now porData station allStations hydro s :
  s ∈ waterYears (computeAnalytics now porData station allStations hydro) ->
  let days := year_days porData (wy s) in
  ((exists d v, d ∈ days /\ por_swe d = Some v /\ (0 < v)%Q) ->
     peak_is_first_maximum porData s) /\
  ((forall d v, d ∈ days -> por_swe d = Some v -> (0 <= v)%Q) ->
     peak_is_first_maximum porData s) /\
  ((forall d v, d ∈ days -> por_swe d = Some v -> (v <= 0)%Q) ->
     peakSWE s = 0%Q /\
     (exists d, d ∈ days /\ por_date d = peakDate s) /\
     (forall d, d ∈ days -> date_leb (peakDate s) (por_date d) = true)).
Proof.
  change (waterYears (computeAnalytics _ porData _ _ _))
    with (summarize_all (group_byWY porData)).
  intros Hs. destruct (elem_of_summarize_all _ _ Hs) as [Heq Hlen].
  unfold peak_is_first_maximum, valid_count in *. cbn zeta.
  set (k := wy s) in *. set (days := year_days porData k) in *. clearbody k.
  assert (Hvalid : forall d, d ∈ days -> exists v, por_swe d = Some v).
  { intros d. apply year_days_valid. }
  assert (Hne : days <> []) by (intros E; rewrite E in Hlen; cbn in Hlen; lia).
  clearbody days. subst s.
  pose proof (peak_bounds k days) as [H0 Hb].
  pose proof (peak_positive k days) as Hpos.
  pose proof (peak_not_positive k days Hne) as Hnp.
  assert (P1 : (exists d v, d ∈ days /\ por_swe d = Some v /\ (0 < v)%Q) ->
     (forall d v, d ∈ days -> por_swe d = Some v -> (v <= peakSWE (summarize k days))%Q) /\
     (exists d v, d ∈ days /\ por_swe d = Some v /\ (v == peakSWE (summarize k days))%Q /\
                  por_date d = peakDate (summarize k days)) /\
     (forall d v, d ∈ days -> por_swe d = Some v -> (v == peakSWE (summarize k days))%Q ->
                  date_leb (peakDate (summarize k days)) (por_date d) = true)).
  { intros Hex. destruct (Hpos Hex) as [(e & He & Hv & Hd) Hfirst].
    split; [exact Hb|]. split; [|exact Hfirst].
    exists e, (peakSWE (summarize k days)). repeat split; try done. }
  split; [exact P1|]. split; [|exact Hnp].
  intros Hge. destruct (positive_or_none days) as [Hex|Hle]; [now apply P1|].
  destruct (Hnp Hle) as (Hz & (e & He & Hd) & Hearly).
  split; [exact Hb|]. split.
  - destruct (Hvalid e He) as [v Hv]. exists e, v. repeat split; try done.
    rewrite Hz. apply Qle_antisym; eauto.
  - intros d v Hd' _ _. now apply Hearly.
Qed.

Lemma peak_value_and_date_witness :
  peak_is_first_maximum (season 2020 61 ramp) sample_summary.
Proof.
  assert (Hs : sample_summary ∈
    waterYears (computeAnalytics sample_clock (season 2020 61 ramp) harts_pass [] [])).
  { vm_compute. left. }
  apply (proj1 (peak_value_and_date _ _ _ _ _ _ Hs)).
  exists (mkPOR (nth_date 2020 1) (Some (ramp 1))), (ramp 1).
  split; [|split].
  - vm_compute. right. left.
  - reflexivity.
  - reflexivity.
Defined.

Lemma year_days_elem por y d :
  d ∈ year_days por y -> d ∈ por /\ dateToWY (por_date d) = y.
Proof.
  unfold year_days. rewrite list_elem_of_In, filter_In, <- list_elem_of_In.
  intros [Hd H]. apply andb_true_iff in H as [_ H]. split; [done|].
  now apply Z.eqb_eq.
Qed.

Lemma season_value y n v d : d ∈ season y n v -> exists i, por_swe d = Some (v i).
Proof.
  unfold season. rewrite list_elem_of_In, in_map_iff.
  intros (i & <- & _). now exists i.
Qed.

(** C2 as worded fails on a year whose readings are all negative: the
    loop starts from [peakSWE = 0], which no reading exceeds. *)
Lemma negative_year_peak_not_maximum :
  ~ (forall s,
       s ∈ waterYears (computeAnalytics sample_clock (season 2020 61 below_zero)
                         harts_pass [] []) ->
       peak_is_first_maximum (season 2020 61 below_zero) s).
Proof.
  intros H.
  destruct (H (summarize 2020 (season 2020 61 below_zero)))
    as (_ & (d & v & Hd & Hv & Heq & _) & _).
  { vm_compute. left. }
  assert (Hp : peakSWE (summarize 2020 (season 2020 61 below_zero)) = 0%Q)
    by (vm_compute; reflexivity).
  rewrite Hp in Heq.
  apply year_days_elem in Hd as [Hd _].
  apply season_value in Hd as [i Hi].
  rewrite Hi in Hv. injection Hv as <-. discriminate Heq.
Qed.

(** ** Current rank *)

Lemma pool_fold today l : forall acc,
  fold_left (pool_step today) l acc =
  acc ++ omap (fun e => List.find (within3 today) e.2 ≫= por_swe) l.
Proof.
  induction l as [|e l IH]; intros acc; cbn [fold_left omap list_omap].
  - now rewrite app_nil_r.
  - rewrite IH. unfold pool_step.
    destruct (List.find (within3 today) e.2) as [d|]; cbn; [|reflexivity].
    destruct (por_swe d); cbn; [|reflexivity]. now rewrite <- app_assoc.
Qed.

(** The pool holds, for each water year with a valid observation within
    three days of today's day of water year, the reading of the first
    such observation. *)
Lemma pool_elem por today v :
  v ∈ historicalAtDOWY (group_byWY por) today <->
  exists y d, List.find (within3 today) (year_days por y) = Some d /\ por_swe d = Some v.
Proof.
  unfold historicalAtDOWY. rewrite sort_by_elem, pool_fold, app_nil_l.
  rewrite list_elem_of_omap. split.
  - intros ([y days] & He & Hf). cbn [snd] in Hf.
    rewrite Object_entries_perm in He. apply elem_of_map_to_list in He.
    rewrite group_byWY_lookup in He.
    assert (days = year_days por y) as ->.
    { destruct (year_days por y); [discriminate|]. now injection He. }
    destruct (List.find _ _) as [d|] eqn:Ef; [|discriminate].
    exists y, d. split; [exact Ef|exact Hf].
  - intros (y & d & Hf & Hv). exists (y, year_days por y). split.
    + rewrite Object_entries_perm. apply elem_of_map_to_list.
      rewrite group_byWY_lookup. destruct (year_days por y); [discriminate|done].
    + cbn [snd]. now rewrite Hf.
Qed.

Lemma filter_none {A} (f : A -> bool) l :
  (forall x, x ∈ l -> f x = false) -> List.filter f l = [].
Proof.
  induction l as [|x l IH]; intros H; cbn; [reflexivity|].
  rewrite (H x) by left. apply IH. intros y Hy. apply H. now right.
Qed.

Lemma filter_all {A} (f : A -> bool) l :
  (forall x, x ∈ l -> f x = true) -> List.filter f l = l.
Proof.
  induction l as [|x l IH]; intros H; cbn; [reflexivity|].
  rewrite (H x) by left. f_equal. apply IH. intros y Hy. apply H. now right.
Qed.

(** The keys of [byWY] are the water years that hold a valid
    observation. *)
Lemma group_byWY_key por y :
  (exists days, (y, days) ∈ Object_entries (group_byWY por)) <-> y ∈ water_years_of por.
Proof.
  unfold water_years_of. rewrite sort_by_elem, elem_of_remove_dups.
  rewrite list_elem_of_In, in_map_iff. split.
  - intros (days & He). rewrite Object_entries_perm in He.
    apply elem_of_map_to_list in He. rewrite group_byWY_lookup in He.
    destruct (year_days por y) as [|d l] eqn:E; [discriminate|].
    assert (Hd : d ∈ year_days por y) by (rewrite E; left).
    unfold year_days in Hd. apply list_elem_of_In, filter_In in Hd as [Hd Hv].
    apply andb_prop in Hv as [Hv Hy]. apply Z.eqb_eq in Hy.
    exists d. split; [exact Hy|]. apply filter_In. split; assumption.
  - intros (d & Hy & Hd). apply filter_In in Hd as [Hd Hv].
    exists (year_days por y). rewrite Object_entries_perm.
    apply elem_of_map_to_list. rewrite group_byWY_lookup.
    assert (Hin : d ∈ year_days por y).
    { unfold year_days. apply list_elem_of_In, filter_In. split; [exact Hd|].
      rewrite Hv. cbn. now apply Z.eqb_eq. }
    destruct (year_days por y); [now apply elem_of_nil in Hin | reflexivity].
Qed.

Lemma sorted_map {A B} (R : A -> A -> Prop) (S : B -> B -> Prop) (f : A -> B) l :
  (forall x y, R x y -> S (f x) (f y)) ->
  StronglySorted R l -> StronglySorted S (map f l).
Proof.
  intros H. induction 1 as [|x l Hs IH Hall]; cbn; [constructor|].
  constructor; [exact IH|].
  apply Forall_forall. intros y Hy.
  apply list_elem_of_In, in_map_iff in Hy as (z & <- & Hz).
  apply H. rewrite Forall_forall in Hall. apply Hall. now apply list_elem_of_In.
Qed.

Lemma sorted_impl {A} (R S : A -> A -> Prop) l :
  (forall x y, R x y -> S x y) -> StronglySorted R l -> StronglySorted S l.
Proof.
  intros H. induction 1 as [|x l Hs IH Hall]; constructor; [exact IH|].
  eapply Forall_impl; [exact Hall|]. intros y. apply H.
Qed.

Lemma filter_sorted {A} (R : A -> A -> Prop) (f : A -> bool) l :
  StronglySorted R l -> StronglySorted R (List.filter f l).
Proof.
  induction 1 as [|x l Hs IH Hall]; cbn; [constructor|].
  destruct (f x); [|exact IH]. constructor; [exact IH|].
  rewrite Forall_forall in Hall |- *. intros y Hy. apply Hall.
  apply list_elem_of_In, filter_In in Hy as [Hy _]. now apply list_elem_of_In.
Qed.

Lemma sort_by_Z_sorted l : StronglySorted Z.le (sort_by Z.leb l).
Proof.
  apply (sorted_impl (fun a b => Z.leb a b = true)); [intros x y; apply Z.leb_le|].
  apply sort_by_sorted.
  - intros x y H. apply Z.leb_le. apply Z.leb_gt in H. lia.
  - intros x y z H1 H2. apply Z.leb_le in H1, H2. apply Z.leb_le. lia.
Qed.

(** [Object.entries(byWY)] lists the water years that hold a valid
    observation in ascending order, each with its valid observations in
    input order. *)
Lemma Object_entries_group por :
  Object_entries (group_byWY por) = map (fun y => (y, year_days por y)) (water_years_of por).
Proof.
  set (E := Object_entries (group_byWY por)).
  assert (Hval : forall e, e ∈ E -> e = (e.1, year_days por e.1)).
  { intros [y days] He. cbn [fst]. unfold E in He. rewrite Object_entries_perm in He.
    apply elem_of_map_to_list in He. rewrite group_byWY_lookup in He.
    destruct (year_days por y); [discriminate|]. now injection He as <-. }
  assert (Hkeys : map fst E = water_years_of por).
  { apply (StronglySorted_unique Z.le).
    - apply (sorted_map (fun a b : Z * list PORDay => (a.1 <=? b.1) = true)).
      + intros x y. apply Z.leb_le.
      + unfold E, Object_entries. apply (sort_by_sorted (fun a b : Z * list PORDay => a.1 <=? b.1)).
        * intros x y H. apply Z.leb_le. apply Z.leb_gt in H. lia.
        * intros x y z H1 H2. apply Z.leb_le in H1, H2. apply Z.leb_le. lia.
    - apply sort_by_Z_sorted.
    - apply NoDup_Permutation.
      + assert (P : map fst E ≡ₚ map fst (map_to_list (group_byWY por))).
        { unfold E. now rewrite Object_entries_perm. }
        rewrite P. apply (NoDup_fst_map_to_list (group_byWY por)).
      + unfold water_years_of. rewrite sort_by_perm. apply NoDup_remove_dups.
      + intros y. rewrite <- group_byWY_key. fold E.
        rewrite list_elem_of_In, in_map_iff. split.
        * intros ([k days] & <- & He). exists days. now apply list_elem_of_In.
        * intros (days & He). exists (y, days). split; [reflexivity|now apply list_elem_of_In]. }
  rewrite <- Hkeys, map_map. rewrite <- (map_id E) at 1.
  apply map_ext_in. intros e He. apply Hval. now apply list_elem_of_In.
Qed.

Lemma within3_window today d : within3 today d = in_window today d.
Proof.
  unfold within3, in_window.
  destruct (Z.leb_spec (Z.abs (dateToDOWY (por_date d) - today)) 3),
           (Z.leb_spec (today - 3) (dateToDOWY (por_date d))),
           (Z.leb_spec (dateToDOWY (por_date d)) (today + 3)); cbn; try reflexivity; lia.
Qed.

Lemma find_ext {A} (f g : A -> bool) l :
  (forall x, f x = g x) -> List.find f l = List.find g l.
Proof.
  intros H. induction l as [|x l IH]; cbn; [reflexivity|]. now rewrite H, IH.
Qed.

Lemma omap_map {A B C} (f : B -> option C) (g : A -> B) l :
  omap f (map g l) = omap (fun x => f (g x)) l.
Proof.
  induction l as [|x l IH]; cbn; [reflexivity|]. rewrite IH. reflexivity.
Qed.

(** The pool of the code is the pool as the specification words it,
    sorted. *)
Lemma historicalAtDOWY_pool por today :
  historicalAtDOWY (group_byWY por) today = sort_by Qle_bool (pool_of por today).
Proof.
  unfold historicalAtDOWY. rewrite pool_fold, app_nil_l, Object_entries_group, omap_map.
  unfold pool_of, pooled_value. f_equal. cbn [snd].
  induction (water_years_of por) as [|y l IH]; [reflexivity|].
  cbn [omap list_omap]. rewrite IH.
  rewrite (find_ext (within3 today) (in_window today)); [reflexivity|].
  intros d. apply within3_window.
Qed.

(** C4: the rank is one more than the number of values strictly below the
    current value in the pool, which holds for each water year the first
    valid reading whose day of water year is within three days of
    today's; it is 1 when no pooled value is below the current one and
    [totalYears + 1] when all are; a missing current value counts as 0. *)
Theorem current_rank now porData station allStations hydro :
  let a := computeAnalytics now porData station allStations hydro in
  let today := dateToDOWY (utcDate now) in
  let pool := pool_of porData today in
  let current := default 0%Q (st_swe station) in
  currentRank a = (length (List.filter (fun v => Qltb v current) pool) + 1)%nat /\
  totalYears a = length pool /\
  ((forall v, v ∈ pool -> (current <= v)%Q) -> currentRank a = 1%nat) /\
  ((forall v, v ∈ pool -> (v < current)%Q) -> currentRank a = (totalYears a + 1)%nat) /\
  (st_swe station = None ->
     currentRank a = (length (List.filter (fun v => Qltb v 0) pool) + 1)%nat).
Proof.
  cbn zeta.
  change (currentRank (computeAnalytics now porData station allStations hydro))
    with (length (List.filter (fun v => Qltb v (default 0%Q (st_swe station)))
            (historicalAtDOWY (group_byWY porData) (dateToDOWY (utcDate now)))) + 1)%nat.
  change (totalYears (computeAnalytics now porData station allStations hydro))
    with (length (historicalAtDOWY (group_byWY porData) (dateToDOWY (utcDate now)))).
  rewrite historicalAtDOWY_pool, sort_by_length.
  set (pool := pool_of porData (dateToDOWY (utcDate now))).
  assert (Hcount : forall f, length (List.filter f (sort_by Qle_bool pool))
                             = length (List.filter f pool)).
  { intros f. apply filter_length_perm, sort_by_perm. }
  rewrite !Hcount.
  split; [reflexivity|]. split; [reflexivity|].
  split; [|split].
  - intros H. rewrite filter_none; [reflexivity|].
    intros v Hv. apply Qltb_ge. now apply H.
  - intros H. rewrite filter_all; [reflexivity|].
    intros v Hv. apply Qltb_lt. now apply H.
  - now intros ->.
Qed.

Lemma january_pool :
  pool_of three_years (dateToDOWY (utcDate january_clock))
  = [binary64 (6 # 10); 2 ⊗ binary64 (6 # 10); 3 ⊗ binary64 (6 # 10)].
Proof. vm_compute. reflexivity. Qed.

Lemma current_rank_witness :
  currentRank (computeAnalytics january_clock three_years stevens_pass [] []) = 3%nat /\
  totalYears (computeAnalytics january_clock three_years stevens_pass [] []) = 3%nat /\
  currentRank (computeAnalytics january_clock three_years harts_pass [] []) = 4%nat.
Proof.
  destruct (current_rank january_clock three_years stevens_pass [] []) as (Hr & Ht & _).
  destruct (current_rank january_clock three_years harts_pass [] []) as (Hr' & _).
  rewrite Hr, Ht, Hr', january_pool. vm_compute. repeat split.
Defined.

(** ** Peak projection *)

Lemma truthy_false v : truthy v = false <-> v = None \/ exists q, v = Some q /\ (q == 0)%Q.
Proof.
  destruct v as [q|]; cbn.
  - rewrite negb_false_iff, Qeq_bool_iff. split.
    + intros H. right. now exists q.
    + intros [H|(q' & [= <-] & H)]; [discriminate|exact H].
  - split; [now left|reflexivity].
Qed.

Lemma truthy_true q : ~ (q == 0)%Q -> truthy (Some q) = true.
Proof.
  intros H. cbn. apply negb_true_iff. destruct (Qeq_bool q 0) eqn:E; [|reflexivity].
  apply Qeq_bool_iff in E. contradiction.
Qed.

Lemma project_peak_short hydro : (length hydro < 6)%nat -> project_peak hydro = None.
Proof.
  intros H. unfold project_peak.
  destruct (Nat.ltb_spec 5 (length hydro)); [lia|reflexivity].
Qed.

(** The projection is absent as soon as the last entry has a falsy
    reading or a falsy median. *)
Lemma project_peak_falsy hydro latest :
  last hydro = Some latest ->
  truthy (h_swe latest) = false \/ truthy (h_median latest) = false ->
  project_peak hydro = None.
Proof.
  intros Hl H. unfold project_peak. rewrite Hl.
  destruct (5 <? length hydro)%nat; [|reflexivity].
  destruct (h_median latest) as [med|]; [|reflexivity].
  destruct (h_swe latest) as [swe|]; [|reflexivity].
  destruct H as [-> | ->]; [now rewrite andb_false_r|reflexivity].
Qed.

Lemma project_peak_median_nonpos hydro latest med :
  last hydro = Some latest -> h_median latest = Some med -> (med <= 0)%Q ->
  project_peak hydro = None.
Proof.
  intros Hl Hm Hle. unfold project_peak. rewrite Hl, Hm.
  destruct (5 <? length hydro)%nat; [|reflexivity].
  destruct (h_swe latest) as [swe|]; [|reflexivity].
  apply Qgtb_le in Hle. rewrite Hle. now rewrite andb_false_r.
Qed.

Lemma project_peak_past_peak hydro latest med peakMedian :
  last hydro = Some latest -> h_median latest = Some med ->
  Math_max (omap h_median hydro) = Some peakMedian -> (peakMedian <= med)%Q ->
  project_peak hydro = None.
Proof.
  intros Hl Hm Hmax Hle. unfold project_peak. rewrite Hl, Hm, Hmax.
  destruct (5 <? length hydro)%nat; [|reflexivity].
  destruct (h_swe latest) as [swe|]; [|reflexivity].
  apply Qgtb_le in Hle. rewrite Hle. now destruct (_ && _).
Qed.

Lemma project_peak_value hydro latest swe med peakMedian :
  (6 <= length hydro)%nat -> last hydro = Some latest ->
  h_swe latest = Some swe -> ~ (swe == 0)%Q ->
  h_median latest = Some med -> (0 < med)%Q ->
  Math_max (omap h_median hydro) = Some peakMedian -> (med < peakMedian)%Q ->
  project_peak hydro = Some (round1 (swe ⊘ med ⊗ peakMedian)).
Proof.
  intros Hn Hl Hs Hs0 Hm Hm0 Hmax Hlt. unfold project_peak.
  rewrite Hl, Hs, Hm, Hmax.
  destruct (Nat.ltb_spec 5 (length hydro)); [|lia].
  rewrite !truthy_true; [|exact Hs0|intros E; rewrite E in Hm0; now apply Qlt_irrefl in Hm0].
  apply Qgtb_gt in Hm0, Hlt. now rewrite Hm0, Hlt.
Qed.

(** C5 (amended): the projection is null below 6 observations, when the
    latest median is null or at most 0, when the latest reading is null or
    0, and when the peak median is at most the latest median; otherwise
    it is ratio times peak median rounded to one decimal place, the
    quotient, the product and the rounding all being those of doubles. *)
Theorem peak_projection now porData station allStations hydro :
  let p := projectedPeak (computeAnalytics now porData station allStations hydro) in
  ((length hydro < 6)%nat -> p = None) /\
  (forall latest, last hydro = Some latest ->
     (h_median latest = None \/ exists med, h_median latest = Some med /\ (med <= 0)%Q) ->
     p = None) /\
  (forall latest, last hydro = Some latest ->
     (h_swe latest = None \/ exists swe, h_swe latest = Some swe /\ (swe == 0)%Q) ->
     p = None) /\
  (forall latest med peakMedian,
     last hydro = Some latest -> h_median latest = Some med ->
     Math_max (omap h_median hydro) = Some peakMedian ->
     (peakMedian <= med)%Q -> p = None) /\
  (forall latest swe med peakMedian,
     (6 <= length hydro)%nat -> last hydro = Some latest ->
     h_swe latest = Some swe -> ~ (swe == 0)%Q ->
     h_median latest = Some med -> (0 < med)%Q ->
     Math_max (omap h_median hydro) = Some peakMedian -> (med < peakMedian)%Q ->
     p = Some (round1 (swe ⊘ med ⊗ peakMedian))).
Proof.
  cbn zeta.
  change (projectedPeak (computeAnalytics now porData station allStations hydro))
    with (project_peak hydro).
  split; [apply project_peak_short|]. split; [|split; [|split]].
  - intros latest Hl [Hm|(med & Hm & Hle)].
    + apply (project_peak_falsy _ _ Hl). right. now rewrite Hm.
    + now apply (project_peak_median_nonpos _ _ _ Hl Hm).
  - intros latest Hl H. apply (project_peak_falsy _ _ Hl). left.
    now apply truthy_false.
  - intros latest med pk. apply project_peak_past_peak.
  - intros latest swe med pk. apply project_peak_value.
Qed.

Lemma peak_projection_witness :
  projectedPeak (computeAnalytics sample_clock [] harts_pass [] declining_median)
  = Some (round1 (1 ⊘ 3 ⊗ 4)) /\
  projectedPeak (computeAnalytics sample_clock [] harts_pass [] tenths_of_an_inch)
  = Some (binary64 (2 # 10)).
Proof.
  split.
  - apply (proj2 (proj2 (proj2 (proj2
      (peak_projection sample_clock [] harts_pass [] declining_median))))
      (hydro_point 7 (Some 1%Q) (Some 3%Q)) 1%Q 3%Q 4%Q).
    + vm_compute. lia.
    + reflexivity.
    + reflexivity.
    + discriminate.
    + reflexivity.
    + reflexivity.
    + reflexivity.
    + reflexivity.
  - rewrite (proj2 (proj2 (proj2 (proj2
      (peak_projection sample_clock [] harts_pass [] tenths_of_an_inch))))
      (hydro_point 7 (Some tenth) (Some (binary64 (2 # 10))))
      tenth (binary64 (2 # 10)) (binary64 (3 # 10))).
    + vm_compute. reflexivity.
    + vm_compute. lia.
    + reflexivity.
    + reflexivity.
    + vm_compute. discriminate.
    + reflexivity.
    + vm_compute. reflexivity.
    + vm_compute. reflexivity.
    + vm_compute. reflexivity.
Defined.

(** C5 as worded fails where the product is not a whole number of
    tenths: the engine returns 1.3 for a reading of 1, a median of 3 and a
    peak median of 4, where the quotient times the peak median is
    1.3333333333333333. *)
Lemma projection_is_rounded :
  ~ projection_as_worded declining_median
      (projectedPeak (computeAnalytics sample_clock [] harts_pass [] declining_median)).
Proof.
  intros (_ & _ & _ & H).
  destruct (H (hydro_point 7 (Some 1%Q) (Some 3%Q)) 1%Q 3%Q 4%Q) as (q & Hq & Heq);
    try reflexivity.
  - vm_compute. lia.
  - vm_compute in Hq. injection Hq as <-. vm_compute in Heq. discriminate Heq.
Qed.



(** ** Significance of the peak trend *)

Lemma sort_by_of_sorted {A} (leb : A -> A -> bool) l :
  StronglySorted (fun a b => leb a b = true) l -> sort_by leb l = l.
Proof.
  unfold sort_by. induction 1 as [|x l Hs IH Hall]; cbn [foldr]; [reflexivity|].
  rewrite IH. destruct l as [|y l]; cbn; [reflexivity|].
  rewrite Forall_forall in Hall. rewrite (Hall y) by left. reflexivity.
Qed.

Lemma filter_map {A B} (f : B -> bool) (g : A -> B) l :
  List.filter f (map g l) = map g (List.filter (fun a => f (g a)) l).
Proof.
  induction l as [|a l IH]; cbn; [reflexivity|].
  destruct (f (g a)); cbn; now rewrite IH.
Qed.

Lemma summarized_years_sorted por : StronglySorted Z.le (summarized_years por).
Proof. apply filter_sorted, sort_by_Z_sorted. Qed.

(** The summaries are those of the water years with more than 60 valid
    observations, in ascending order, each made from the valid
    observations of its year. *)
Lemma summarize_all_years por :
  summarize_all (group_byWY por)
  = map (fun y => summarize y (year_days por y)) (summarized_years por).
Proof.
  unfold summarize_all. rewrite Object_entries_group, filter_map, map_map.
  cbn [fst snd]. fold (summarized_years por).
  change (List.filter (fun a => (60 <? length (year_days por a))%nat) (water_years_of por))
    with (summarized_years por).
  apply sort_by_of_sorted.
  apply (sorted_map Z.le); [|apply summarized_years_sorted].
  intros x y H. rewrite !wy_summarize. now apply Z.leb_le.
Qed.

Lemma nearest_idem a : (nearest (nearest a) == nearest a)%Q.
Proof.
  destruct (Qlt_le_dec 0 a) as [Ha|Ha].
  2:{ rewrite (nearest_nonpos a Ha). reflexivity. }
  rewrite (nearest_pos a Ha). apply nearest_exact; [|unfold ulp_exponent; lia].
  set (e := ulp_exponent a).
  destruct (ilog2_spec a Ha) as [_ Hup].
  split.
  - apply round_even_nonneg. apply Qle_shift_div_l; [apply pow2_pos | lra].
  - rewrite <- (round_even_Z (2 ^ 53)). apply round_even_mono.
    apply Qle_shift_div_r; [apply pow2_pos|].
    rewrite <- pow2_Z by lia. rewrite <- pow2_plus.
    apply Qle_trans with (2 ^ (ilog2 a + 1))%Q; [now apply Qlt_le_weak|].
    apply pow2_le. unfold e, ulp_exponent. lia.
Qed.

(** A double rounds to itself. *)
Lemma binary64_idem x : (binary64 (binary64 x) == binary64 x)%Q.
Proof.
  destruct (Qlt_le_dec x 0) as [Hx|Hx].
  - rewrite (binary64_neg x Hx).
    pose proof (nearest_nonneg (- x)) as Hn.
    destruct (Qlt_le_dec 0 (nearest (- x))) as [Hp|Hz].
    + rewrite binary64_neg by lra.
      rewrite Qopp_opp. now rewrite nearest_idem.
    + assert (E : (nearest (- x) == 0)%Q) by lra.
      rewrite E. reflexivity.
  - rewrite (binary64_nonneg x Hx).
    rewrite binary64_nonneg by apply nearest_nonneg. apply nearest_idem.
Qed.

(** The coefficient of determination that the fit returns is a double. *)
Lemma r2_double xs ys :
  (binary64 (r2 (linearRegression xs ys)) == r2 (linearRegression xs ys))%Q.
Proof.
  unfold linearRegression.
  destruct (length xs <? 2)%nat; [reflexivity|].
  destruct (Qeq_bool _ 0); [reflexivity|]. cbn [r2].
  destruct (Qgtb _ 0); [|reflexivity]. apply binary64_idem.
Qed.

(** Against a double, the literal [0.15] compares as the rational does:
    the double that the literal denotes lies below it, with no double in
    between. *)
Lemma above_literal r :
  (binary64 r == r)%Q -> Qgtb r (binary64 (15 # 100)) = true <-> (15 # 100 < r)%Q.
Proof.
  intros Hr. rewrite Qgtb_gt.
  assert (Hlit : (binary64 (15 # 100) <= 15 # 100)%Q) by (vm_compute; discriminate).
  split.
  - intros H. apply Qnot_le_lt. intros Hle.
    pose proof (binary64_mono _ _ Hle) as Hm. rewrite Hr in Hm. lra.
  - intros H. lra.
Qed.

(** C7: the peak trend is significant exactly when the fit of the peak
    values against the water years with more than 60 valid observations
    has [r2 > 0.15] and there are more than 10 such years; a record with
    3 of them gets 3 summaries and no significant trend. *)
Theorem peak_trend_significance now porData station allStations hydro :
  let a := computeAnalytics now porData station allStations hydro in
  let years := summarized_years porData in
  let peakReg := linearRegression (map inject_Z years) (map (peak_of_year porData) years) in
  waterYears a = map (fun y => summarize y (year_days porData y)) years /\
  (peakTrendSignificant a = true <->
     ((15 # 100) < r2 peakReg)%Q /\ (10 < length years)%nat) /\
  ((length years <= 10)%nat -> peakTrendSignificant a = false) /\
  (length years = 3%nat ->
     length (waterYears a) = 3%nat /\ peakTrendSignificant a = false).
Proof.
  cbn zeta.
  change (peakTrendSignificant (computeAnalytics now porData station allStations hydro))
    with (Qgtb (r2 (linearRegression
                  (map (fun w => inject_Z (wy w)) (summarize_all (group_byWY porData)))
                  (map peakSWE (summarize_all (group_byWY porData)))))
               (binary64 (15 # 100))
          && (10 <? length (summarize_all (group_byWY porData)))%nat).
  change (waterYears (computeAnalytics now porData station allStations hydro))
    with (summarize_all (group_byWY porData)).
  rewrite summarize_all_years, !map_map, length_map.
  change (map (fun y => peakSWE (summarize y (year_days porData y))) (summarized_years porData))
    with (map (peak_of_year porData) (summarized_years porData)).
  rewrite (map_ext (fun y => inject_Z (wy (summarize y (year_days porData y)))) inject_Z)
    by (intros y; now rewrite wy_summarize).
  set (years := summarized_years porData).
  set (reg := linearRegression (map inject_Z years) (map (peak_of_year porData) years)).
  split; [reflexivity|].
  rewrite andb_true_iff, (above_literal (r2 reg) (r2_double _ _)), Nat.ltb_lt.
  split; [reflexivity|].
  assert (H : (length years <= 10)%nat ->
              Qgtb (r2 reg) (binary64 (15 # 100)) && (10 <? length years)%nat = false).
  { intros Hle. apply andb_false_iff. right. apply Nat.ltb_ge. exact Hle. }
  split; [exact H|]. intros E. split; [exact E | apply H; lia].
Qed.

Lemma three_summarized_years : length (summarized_years three_years) = 3%nat.
Proof. vm_compute. reflexivity. Qed.

Lemma eleven_years_fit :
  (15 # 100 <
   r2 (linearRegression (map inject_Z (summarized_years eleven_years))
         (map (peak_of_year eleven_years) (summarized_years eleven_years))))%Q /\
  (10 < length (summarized_years eleven_years))%nat.
Proof. split; vm_compute; reflexivity. Qed.

Lemma peak_trend_significance_witness :
  (length (waterYears (computeAnalytics sample_clock three_years harts_pass [] [])) = 3%nat /\
   peakTrendSignificant (computeAnalytics sample_clock three_years harts_pass [] []) = false) /\
  peakTrendSignificant (computeAnalytics sample_clock eleven_years harts_pass [] []) = true.
Proof.
  split.
  - apply (proj2 (proj2 (proj2
      (peak_trend_significance sample_clock three_years harts_pass [] [])))).
    exact three_summarized_years.
  - apply (proj1 (proj2
      (peak_trend_significance sample_clock eleven_years harts_pass [] []))).
    exact eleven_years_fit.
Defined.

(** ** Dependence on the clock *)

(** C8 (amended): the result is a function of the four inputs and of two
    readings the engine takes from the clock itself, the start year of the
    current water year and the day of water year of the UTC date; every
    field but [currentOnsetDOWY], [currentRank] and [totalYears] is
    independent of the clock. *)
Theorem analytics_deterministic_given_clock porData station allStations hydro now1 now2 :
  let a1 := computeAnalytics now1 porData station allStations hydro in
  let a2 := computeAnalytics now2 porData station allStations hydro in
  (waterYearDates_wyYear now1 = waterYearDates_wyYear now2 ->
   dateToDOWY (utcDate now1) = dateToDOWY (utcDate now2) ->
   a1 = a2) /\
  (waterYears a1 = waterYears a2 /\
   peakTrendSlope a1 = peakTrendSlope a2 /\
   peakTrendPct a1 = peakTrendPct a2 /\
   peakTrendSignificant a1 = peakTrendSignificant a2 /\
   avgOnsetDOWY a1 = avgOnsetDOWY a2 /\
   onsetTrendDays a1 = onsetTrendDays a2 /\
   avgMeltOutDOWY a1 = avgMeltOutDOWY a2 /\
   meltOutTrendDays a1 = meltOutTrendDays a2 /\
   avgSeasonLength a1 = avgSeasonLength a2 /\
   seasonLengthChange a1 = seasonLengthChange a2 /\
   belowMedianCount10yr a1 = belowMedianCount10yr a2 /\
   projectedPeak a1 = projectedPeak a2 /\
   monthlyClim a1 = monthlyClim a2 /\
   nearbyComparison a1 = nearbyComparison a2 /\
   regionName a1 = regionName a2 /\
   regionAvgPct a1 = regionAvgPct a2).
Proof.
  cbn zeta. split.
  - intros Hwy Hdowy. unfold computeAnalytics. now rewrite Hwy, Hdowy.
  - repeat split.
Qed.

Lemma analytics_deterministic_given_clock_witness :
  computeAnalytics sample_clock three_years harts_pass [] [] =
  computeAnalytics (mkClock (mkDate 2026 11 3) (mkDate 2025 11 3))
                   three_years harts_pass [] [].
Proof.
  apply (analytics_deterministic_given_clock three_years harts_pass [] []
           sample_clock (mkClock (mkDate 2026 11 3) (mkDate 2025 11 3)));
    reflexivity.
Defined.

(** C8 as worded fails: the engine reads [new Date()] itself, so the same
    four inputs rank differently on November 3rd and on January 10th. *)
Lemma analytics_depend_on_clock :
  ~ clock_independent (season 2020 61 ramp) harts_pass [] [].
Proof.
  intros H. specialize (H sample_clock january_clock).
  apply (f_equal totalYears) in H. vm_compute in H. discriminate H.
Qed.

(** ** Rounding inside the engine *)

(** A rounded value is the double nearest to a whole number of tenths. *)
Lemma round1_tenths x : exists z : Z, round1 x = binary64 (inject_Z z / 10).
Proof. now exists (Math_round (x ⊗ 10)). Qed.

Lemma month_values_app por d mo :
  month_values (por ++ [d]) mo =
  month_values por mo ++
    match (if getMonth (por_date d) =? mo then por_swe d else None) with
    | Some v => [v]
    | None => []
    end.
Proof.
  unfold month_values. rewrite omap_app. f_equal.
Qed.

(** After the bucket loop, [monthlyBuckets[mo]] is the list of the valid
    readings of month [mo] in input order, absent when there is none. *)
Lemma monthly_buckets_lookup por mo :
  monthly_buckets por !! mo = nonempty_opt (month_values por mo).
Proof.
  unfold monthly_buckets. revert mo.
  induction por as [|d por IH] using rev_ind; intros mo.
  - reflexivity.
  - rewrite fold_left_app. cbn [fold_left]. rewrite month_values_app.
    unfold bucket_step. destruct (por_swe d) as [v|].
    + destruct (Z.eqb_spec (getMonth (por_date d)) mo) as [->|Hne].
      * rewrite lookup_insert_eq, IH, nonempty_opt_default.
        now rewrite nonempty_opt_snoc.
      * rewrite lookup_insert_ne by done. rewrite app_nil_r. apply IH.
    + destruct (getMonth (por_date d) =? mo); rewrite app_nil_r; apply IH.
Qed.

Lemma lookup_map {A B} (f : A -> B) l i x :
  l !! i = Some x -> map f l !! i = Some (f x).
Proof.
  revert i. induction l as [|a l IH]; intros [|i] H; try discriminate.
  - now injection H as ->.
  - cbn in *. now apply IH.
Qed.

Lemma monthly_clim_lookup por i mo :
  snow_months !! i = Some mo ->
  month_values por mo <> [] ->
  exists mn mx,
    Math_min (month_values por mo) = Some mn /\
    Math_max (month_values por mo) = Some mx /\
    monthly_clim por !! i =
    Some (mkClim (nth (Z.to_nat mo) MONTHS ""%string)
                 (round1 (mean (month_values por mo))) (round1 mn) (round1 mx)).
Proof.
  intros Hi Hne. unfold monthly_clim.
  rewrite (lookup_map _ _ _ _ Hi). unfold clim_of.
  rewrite monthly_buckets_lookup, nonempty_opt_default.
  destruct (month_values por mo) as [|v vals] eqn:E; [congruence|].
  eexists _, _. split; [reflexivity|]. split; reflexivity.
Qed.

(** C9 (amended): the engine rounds its own results to one decimal place:
    each monthly average, minimum and maximum is [Math.round(x * 10) / 10]
    of the statistic [x] that the engine computed, a projected peak is
    [Math.round(ratio * peakMedian * 10) / 10], and such a rounded value
    is the double nearest to a whole number of tenths. *)
Theorem engine_rounds_to_one_decimal now porData station allStations hydro :
  let a := computeAnalytics now porData station allStations hydro in
  (forall i mo,
     snow_months !! i = Some mo -> month_values porData mo <> [] ->
     exists mn mx,
       Math_min (month_values porData mo) = Some mn /\
       Math_max (month_values porData mo) = Some mx /\
       monthlyClim a !! i =
       Some (mkClim (nth (Z.to_nat mo) MONTHS ""%string)
                    (round1 (mean (month_values porData mo))) (round1 mn) (round1 mx))) /\
  (forall q, projectedPeak a = Some q ->
     exists latest swe med peakMedian,
       last hydro = Some latest /\
       h_swe latest = Some swe /\ h_median latest = Some med /\
       Math_max (omap h_median hydro) = Some peakMedian /\
       q = round1 (swe ⊘ med ⊗ peakMedian)) /\
  (forall x, exists z : Z, round1 x = binary64 (inject_Z z / 10)).
Proof.
  cbn zeta. split; [|split].
  - intros i mo. apply monthly_clim_lookup.
  - change (projectedPeak (computeAnalytics now porData station allStations hydro))
      with (project_peak hydro).
    intros q. unfold project_peak.
    destruct (5 <? length hydro)%nat; [|discriminate].
    destruct (last hydro) as [latest|]; [|discriminate].
    destruct (h_median latest) as [med|] eqn:Em; [|discriminate].
    destruct (h_swe latest) as [swe|] eqn:Es; [|discriminate].
    destruct (_ && _); [|discriminate].
    destruct (Math_max _) as [pk|]; [|discriminate].
    destruct (Qgtb pk med); [|discriminate].
    intros [= <-]. exists latest, swe, med, pk. repeat split; assumption.
  - apply round1_tenths.
Qed.

Lemma engine_rounds_to_one_decimal_witness :
  exists mn mx,
    Math_min (month_values quarter_inch 0) = Some mn /\
    Math_max (month_values quarter_inch 0) = Some mx /\
    monthlyClim (computeAnalytics sample_clock quarter_inch harts_pass [] []) !! 3%nat =
    Some (mkClim "Jan" (round1 (mean (month_values quarter_inch 0))) (round1 mn) (round1 mx)).
Proof.
  apply (proj1 (engine_rounds_to_one_decimal sample_clock quarter_inch harts_pass [] [])
           3%nat 0).
  - reflexivity.
  - discriminate.
Defined.

(** C9 as worded fails: a month whose only reading is 0.25 has its
    average returned as 0.3. *)
Lemma monthly_average_is_rounded :
  ~ returned_unrounded quarter_inch []
      (computeAnalytics sample_clock quarter_inch harts_pass [] []).
Proof.
  intros [H _].
  destruct (H 3%nat 0 (mkClim "Jan" (binary64 (3 # 10)) (binary64 (3 # 10))
                         (binary64 (3 # 10)))) as [Havg _].
  - reflexivity.
  - vm_compute. reflexivity.
  - discriminate.
  - vm_compute in Havg. discriminate Havg.
Qed.

(** * Further properties of the code *)

(** ** Day of water year *)

Lemma Qfloor_div_exact z k : 0 < k -> Qfloor (inject_Z (z * k) / inject_Z k) = z.
Proof.
  intros Hk.
  assert (E : (inject_Z (z * k) / inject_Z k == inject_Z z)%Q).
  { rewrite inject_Z_mult. field. intros H. unfold Qeq in H. cbn in H. lia. }
  rewrite E. apply Qfloor_Z.
Qed.

(** The division by the milliseconds of a day is exact. *)
Lemma dateToDOWY_days d :
  dateToDOWY d =
  epochDay d
  - epochDay (mkDate (if 9 <=? getMonth d then getFullYear d else getFullYear d - 1) 10 1)
  + 1.
Proof.
  unfold dateToDOWY, getTime. rewrite <- Z.mul_sub_distr_r.
  now rewrite Qfloor_div_exact.
Qed.

Lemma year_base_succ y :
  year_base (y + 1) = year_base y + 365 + (if is_leap (y + 1) then 1 else 0).
Proof.
  unfold year_base, is_leap.
  destruct (Z.eqb_spec ((y + 1) mod 4) 0), (Z.eqb_spec ((y + 1) mod 100) 0),
    (Z.eqb_spec ((y + 1) mod 400) 0); cbn; Z.div_mod_to_equations; lia.
Qed.

Lemma epochDay_year_base d :
  epochDay d =
  year_base (if month d <=? 2 then year d - 1 else year d)
  + (153 * ((month d + 9) mod 12) + 2) / 5 + day d - 1 - 719468.
Proof. unfold epochDay, year_base. lia. Qed.

Lemma month_cases m : 1 <= m <= 12 ->
  m = 1 \/ m = 2 \/ m = 3 \/ m = 4 \/ m = 5 \/ m = 6 \/ m = 7 \/ m = 8 \/
  m = 9 \/ m = 10 \/ m = 11 \/ m = 12.
Proof. lia. Qed.

Ltac month_split H :=
  apply month_cases in H;
  destruct H as [->|[->|[->|[->|[->|[->|[->|[->|[->|[->|[->| ->]]]]]]]]]]].

(** The day of water year is the month's offset plus the day of the month. *)
Lemma dateToDOWY_table d :
  1 <= month d <= 12 ->
  dateToDOWY d = dowy_offset (year d) (month d) + day d.
Proof.
  destruct d as [y m dd]. cbn [month year day]. intros Hm.
  rewrite dateToDOWY_days, !epochDay_year_base. unfold getMonth, getFullYear.
  cbn [month year day].
  pose proof (year_base_succ (y - 1)) as Hy. replace (y - 1 + 1) with y in Hy by lia.
  unfold dowy_offset.
  month_split Hm; cbn; destruct (is_leap y);
    match goal with |- context[Z.leb ?a ?b] => destruct (Z.leb_spec a b); try lia end;
    Z.div_mod_to_equations; lia.
Qed.



(** The offset of a month and the day of the month stay within a year. *)
Lemma dowy_offset_bounds y m dd :
  1 <= m <= 12 -> 1 <= dd <= days_in_month y m ->
  1 <= dowy_offset y m + dd <= 366.
Proof.
  intros Hm Hd. unfold dowy_offset, days_in_month in *.
  month_split Hm; cbn in *; destruct (is_leap y); lia.
Qed.

Lemma dowy_bounds d : valid_date d -> 1 <= dateToDOWY d <= 366.
Proof.
  intros [Hm Hd]. rewrite (dateToDOWY_table d Hm). now apply dowy_offset_bounds.
Qed.

(** X2: every calendar date after the year 100 has a day of water year
    from 1 to 366. *)
Theorem dowy_range d :
  valid_date d -> 100 < year d -> 1 <= dateToDOWY d <= 366.
Proof.
  intros [Hm Hd] _. rewrite (dateToDOWY_table d Hm).
  destruct d as [y m dd]. cbn [year month day] in *.
  unfold dowy_offset, days_in_month in *.
  month_split Hm; cbn in *; destruct (is_leap y); lia.
Qed.

Lemma dowy_range_witness : 1 <= dateToDOWY (mkDate 2024 2 29) <= 366.
Proof. apply dowy_range; [vm_compute; intuition discriminate | cbn; lia]. Defined.

(** Within one water year a later date string has a later day. *)
Lemma dowy_monotone a b :
  valid_date a -> valid_date b -> dateToWY a = dateToWY b ->
  date_leb a b = true -> dateToDOWY a <= dateToDOWY b.
Proof.
  intros [Hma Hda] [Hmb Hdb] Hwy.
  rewrite (dateToDOWY_table a Hma), (dateToDOWY_table b Hmb).
  rewrite date_leb_spec.
  destruct a as [ya ma da], b as [yb mb db]. cbn [year month day] in *.
  unfold dateToWY, getMonth, getFullYear, dowy_offset, days_in_month in *.
  cbn [year month day] in *.
  month_split Hma; month_split Hmb; cbn in *;
    repeat match goal with
    | H : context[Z.leb ?a ?b] |- _ => destruct (Z.leb_spec a b); try lia
    end;
    try (assert (ya = yb) as -> by lia);
    try (assert (ya = yb - 1) as -> by lia);
    try (assert (yb = ya - 1) as -> by lia);
    repeat match goal with
    | H : context[is_leap ?y] |- _ => destruct (is_leap y)
    | |- context[is_leap ?y] => destruct (is_leap y)
    end;
    lia.
Qed.

(** ** The request window and the current water year *)

(** X4: the window that [waterYearDates] returns starts on day 1 of the
    water year that holds today's local date and ends on that date, so it
    never straddles two water years; the label of that water year is
    [wyYear + 1]. *)
Theorem request_window now :
  valid_date (localDate now) ->
  let w := waterYearDates now in
  wyd_end w = localDate now /\
  wyd_wyYear w = waterYearDates_wyYear now /\
  date_leb (wyd_start w) (wyd_end w) = true /\
  dateToDOWY (wyd_start w) = 1 /\
  dateToWY (wyd_start w) = dateToWY (wyd_end w) /\
  dateToWY (localDate now) = wyd_wyYear w + 1.
Proof.
  intros [Hm Hd]. cbn zeta. unfold waterYearDates, waterYearDates_wyYear.
  destruct (localDate now) as [y m d]. unfold getMonth, getFullYear in *.
  cbn [wyd_start wyd_end wyd_wyYear year month day] in *.
  replace (m - 1 + 1) with m by lia.
  split; [reflexivity|]. split; [reflexivity|].
  rewrite date_leb_spec, dateToDOWY_table by (cbn; lia).
  unfold dateToWY, getMonth, getFullYear, dowy_offset. cbn [year month day].
  destruct (Z.leb_spec 9 (m - 1)), (Z.leb_spec 9 (10 - 1)); try lia;
    cbn; repeat split; lia.
Qed.

Lemma request_window_witness :
  date_leb (wyd_start (waterYearDates sample_clock))
           (wyd_end (waterYearDates sample_clock)) = true.
Proof.
  apply (request_window sample_clock). vm_compute. intuition discriminate.
Defined.

(** X5: the summary from which [currentOnsetDOWY] is read is the one
    labelled [wyYear], the start year of the current water year; that is
    the water year before the one that holds today's local date. *)
Theorem current_onset_source now porData station allStations hydro :
  let a := computeAnalytics now porData station allStations hydro in
  let previous := dateToWY (localDate now) - 1 in
  (forall k, currentOnsetDOWY a = Some k ->
     exists s d, s ∈ waterYears a /\ wy s = previous /\
                 onsetDate s = Some d /\ k = dateToDOWY d) /\
  ((forall s, s ∈ waterYears a -> wy s = previous -> onsetDate s = None) ->
   currentOnsetDOWY a = None).
Proof.
  cbn zeta.
  assert (Hprev : dateToWY (localDate now) - 1 = waterYearDates_wyYear now).
  { unfold dateToWY, waterYearDates_wyYear.
    destruct (9 <=? getMonth (localDate now)); lia. }
  rewrite Hprev.
  change (currentOnsetDOWY (computeAnalytics now porData station allStations hydro))
    with (List.find (fun w => wy w =? waterYearDates_wyYear now)
            (summarize_all (group_byWY porData))
          ≫= (fun w => dateToDOWY <$> onsetDate w)).
  change (waterYears (computeAnalytics now porData station allStations hydro))
    with (summarize_all (group_byWY porData)).
  destruct (List.find _ _) as [w|] eqn:Ef; cbn.
  - apply find_elem in Ef as [Hin Hwy]. apply Z.eqb_eq in Hwy. split.
    + intros k Hk. destruct (onsetDate w) as [d|] eqn:Eo; [|discriminate].
      injection Hk as <-. now exists w, d.
    + intros H. now rewrite (H w Hin Hwy).
  - split; [discriminate|reflexivity].
Qed.

Lemma current_onset_source_witness :
  exists s d,
    s ∈ waterYears (computeAnalytics (mkClock (mkDate 2020 11 3) (mkDate 2020 11 3))
                      (season 2020 61 ramp) harts_pass [] []) /\
    wy s = dateToWY (mkDate 2020 11 3) - 1 /\
    onsetDate s = Some d /\ 104 = dateToDOWY d.
Proof.
  apply (current_onset_source (mkClock (mkDate 2020 11 3) (mkDate 2020 11 3))
           (season 2020 61 ramp) harts_pass [] []).
  vm_compute. reflexivity.
Defined.

(** ** More on the summaries *)

Lemma summaries_of_le_1 por y :
  (summaries_of (summarize_all (group_byWY por)) y <= 1)%nat.
Proof.
  rewrite summaries_of_summarize_all. destruct (_ <? _)%nat; lia.
Qed.

Lemma summarize_all_sorted por :
  StronglySorted (fun a b => (wy a <=? wy b) = true) (summarize_all (group_byWY por)).
Proof.
  unfold summarize_all. apply (sort_by_sorted (fun a b => wy a <=? wy b)).
  - intros x y H. apply Z.leb_le. apply Z.leb_gt in H. lia.
  - intros x y z H1 H2. apply Z.leb_le in H1, H2. apply Z.leb_le. lia.
Qed.

(** A list sorted by label in which no label occurs twice is strictly
    sorted. *)
Lemma sorted_strict ws :
  StronglySorted (fun a b => (wy a <=? wy b) = true) ws ->
  (forall y, (summaries_of ws y <= 1)%nat) ->
  StronglySorted (fun a b => wy a < wy b) ws.
Proof.
  induction 1 as [|x l Hs IH Hall]; intros Hc; constructor.
  - apply IH. intros y. specialize (Hc y). unfold summaries_of in *. cbn in Hc.
    destruct (wy x =? y); cbn in Hc; lia.
  - rewrite Forall_forall in Hall |- *. intros z Hz.
    specialize (Hall z Hz). apply Z.leb_le in Hall.
    destruct (Z.eq_dec (wy x) (wy z)) as [E|E]; [|lia].
    exfalso. specialize (Hc (wy x)). unfold summaries_of in Hc. cbn in Hc.
    rewrite Z.eqb_refl in Hc. cbn in Hc.
    assert (0 < summaries_of l (wy x))%nat; [|unfold summaries_of in *; lia].
    apply (summaries_of_pos l (wy x)). exists z. split; [exact Hz|now symmetry].
Qed.

(** X6: the summaries come in strictly ascending order of water year, so
    no water year is summarised twice. *)
Theorem water_years_ascending now porData station allStations hydro :
  StronglySorted (fun a b => wy a < wy b)
    (waterYears (computeAnalytics now porData station allStations hydro)).
Proof.
  change (waterYears (computeAnalytics now porData station allStations hydro))
    with (summarize_all (group_byWY porData)).
  apply sorted_strict; [apply summarize_all_sorted|apply summaries_of_le_1].
Qed.

Lemma above1_reading d : above1 d = true <-> exists v, por_swe d = Some v /\ (1 < v)%Q.
Proof.
  unfold above1. destruct (por_swe d) as [v|]; split.
  - intros H. exists v. split; [reflexivity|]. now apply Qgtb_gt.
  - intros (v' & [= <-] & H). now apply Qgtb_gt.
  - discriminate.
  - now intros (v' & [=] & _).
Qed.

Lemma find_none_elem {A} (p : A -> bool) l :
  List.find p l = None <-> forall x, x ∈ l -> p x = false.
Proof.
  split.
  - intros H x Hx. apply (find_none p l H). now apply list_elem_of_In.
  - intros H. induction l as [|x l IH]; cbn; [reflexivity|].
    rewrite (H x) by left. apply IH. intros y Hy. apply H. now right.
Qed.

(** The onset of one group: the earliest date with a reading above 1. *)
Lemma summarize_onset k days :
  (onsetDate (summarize k days) = None <-> forall d, d ∈ days -> above1 d = false) /\
  (forall o, onsetDate (summarize k days) = Some o ->
     (exists d, d ∈ days /\ por_date d = o /\ above1 d = true) /\
     (forall d, d ∈ days -> above1 d = true -> date_leb o (por_date d) = true)).
Proof.
  cbn [onsetDate summarize]. split.
  - destruct (List.find above1 (sort_days days)) as [o|] eqn:Ef; cbn.
    + split; [discriminate|]. intros H. apply find_elem in Ef as [Hin Hp].
      rewrite sort_days_elem in Hin. rewrite (H o Hin) in Hp. discriminate.
    + split; [|reflexivity]. intros _ d Hd.
      apply (proj1 (find_none_elem _ _) Ef). now apply sort_days_elem.
  - intros o Ho.
    destruct (List.find above1 (sort_days days)) as [e|] eqn:Ef; [|discriminate].
    cbn in Ho. injection Ho as <-. pose proof (find_elem _ _ _ Ef) as [Hin Hp].
    split.
    + exists e. split; [now apply sort_days_elem|done].
    + intros d Hd Hpd. apply (sort_days_elem d days) in Hd.
      destruct (find_sorted_first date_le above1 (sort_days days) e d
                  (sort_days_sorted days) Ef Hd Hpd) as [->|H]; [apply date_leb_refl|exact H].
Qed.

(** X7: the onset date of a summary is the earliest date of its water
    year with a reading above 1, and it is null exactly when no reading
    of that year is above 1. *)
Theorem onset_is_first_above_threshold now porData station allStations hydro s :
  s ∈ waterYears (computeAnalytics now porData station allStations hydro) ->
  let days := year_days porData (wy s) in
  (onsetDate s = None <->
     forall d v, d ∈ days -> por_swe d = Some v -> (v <= 1)%Q) /\
  (forall o, onsetDate s = Some o ->
     (exists d v, d ∈ days /\ por_date d = o /\ por_swe d = Some v /\ (1 < v)%Q) /\
     (forall d v, d ∈ days -> por_swe d = Some v -> (1 < v)%Q ->
                  date_leb o (por_date d) = true)).
Proof.
  change (waterYears (computeAnalytics now porData station allStations hydro))
    with (summarize_all (group_byWY porData)).
  intros Hs. destruct (elem_of_summarize_all _ _ Hs) as [Heq _]. cbn zeta.
  set (k := wy s) in *. set (days := year_days porData k) in *.
  clearbody k days. subst s.
  destruct (summarize_onset k days) as [Hnone Hsome]. split.
  - rewrite Hnone. split.
    + intros H d v Hd Hv. specialize (H d Hd).
      destruct (Qlt_le_dec 1 v) as [Hlt|Hle]; [|exact Hle].
      assert (above1 d = true) by (apply above1_reading; eauto). congruence.
    + intros H d Hd. destruct (above1 d) eqn:E; [|reflexivity].
      apply above1_reading in E as (v & Hv & Hlt). specialize (H d v Hd Hv). lra.
  - intros o Ho. destruct (Hsome o Ho) as [(d & Hd & Hdate & Hp) Hfirst]. split.
    + apply above1_reading in Hp as (v & Hv & Hlt). now exists d, v.
    + intros e v He Hv Hlt. apply Hfirst; [exact He|].
      apply above1_reading. eauto.
Qed.

Lemma onset_is_first_above_threshold_witness :
  exists d v, d ∈ year_days (season 2020 61 ramp) (wy sample_summary) /\
              por_date d = mkDate 2020 1 12 /\ por_swe d = Some v /\ (1 < v)%Q.
Proof.
  assert (Hs : sample_summary ∈
    waterYears (computeAnalytics sample_clock (season 2020 61 ramp) harts_pass [] [])).
  { vm_compute. left. }
  apply (proj2 (onset_is_first_above_threshold _ _ _ _ _ _ Hs) (mkDate 2020 1 12)).
  reflexivity.
Defined.

Lemma elem_of_rev {A} (l : list A) x : x ∈ rev l <-> x ∈ l.
Proof. rewrite !list_elem_of_In. symmetry. apply in_rev. Qed.

Lemma find_app_split {A} (p : A -> bool) l1 l2 :
  List.find p (l1 ++ l2) =
  match List.find p l1 with Some x => Some x | None => List.find p l2 end.
Proof.
  induction l1 as [|x l1 IH]; cbn; [reflexivity|]. now destruct (p x).
Qed.

(** In a sorted array, [find] on the reversed array returns an element
    that is at or after every element that passes the test. *)
Lemma find_sorted_last {A} (R : A -> A -> Prop) (p : A -> bool) l o e :
  StronglySorted R l -> List.find p (rev l) = Some o -> e ∈ l -> p e = true ->
  e = o \/ R e o.
Proof.
  induction 1 as [|x l Hs IH Hall]; cbn [rev]; intros Hf He Hp.
  - inversion He.
  - rewrite find_app_split in Hf. rewrite Forall_forall in Hall.
    destruct (List.find p (rev l)) as [o'|] eqn:Ef.
    + injection Hf as <-. apply elem_of_cons in He as [->|He].
      * right. apply Hall. apply find_elem in Ef as [Ho _].
        now apply (proj1 (elem_of_rev _ _)) in Ho.
      * now apply IH.
    + apply elem_of_cons in He as [->|He].
      * cbn in Hf. rewrite Hp in Hf. injection Hf as <-. now left.
      * exfalso. apply (proj1 (find_none_elem _ _)) with (x := e) in Ef.
        -- congruence.
        -- now apply (proj2 (elem_of_rev _ _)).
Qed.

Lemma filter_elem {A} (f : A -> bool) l x :
  x ∈ List.filter f l <-> x ∈ l /\ f x = true.
Proof. now rewrite !list_elem_of_In, filter_In. Qed.

(** The melt-out of one group: the latest date, at or after the peak
    date, with a reading above 1. *)
Lemma summarize_meltout k days :
  let s := summarize k days in
  (meltOutDate s = None <->
     forall d, d ∈ days -> date_leb (peakDate s) (por_date d) = true -> above1 d = false) /\
  (forall m, meltOutDate s = Some m ->
     (exists d, d ∈ days /\ por_date d = m /\ above1 d = true) /\
     (forall d, d ∈ days -> date_leb (peakDate s) (por_date d) = true ->
                above1 d = true -> date_leb (por_date d) m = true)).
Proof.
  cbn zeta. cbn [meltOutDate peakDate summarize].
  set (pd := (fold_left peak_step (sort_days days) (0%Q, first_date (sort_days days))).2).
  set (after := List.filter (fun d => date_leb pd (por_date d)) (sort_days days)).
  assert (Hafter : forall d, d ∈ after <-> d ∈ days /\ date_leb pd (por_date d) = true).
  { intros d. unfold after. now rewrite filter_elem, sort_days_elem. }
  assert (Hsorted : StronglySorted date_le after).
  { apply filter_sorted, sort_days_sorted. }
  split.
  - destruct (List.find above1 (rev after)) as [o|] eqn:Ef; cbn.
    + split; [discriminate|]. intros H. apply find_elem in Ef as [Hin Hp].
      apply (proj1 (elem_of_rev _ _)) in Hin. apply (proj1 (Hafter _)) in Hin as [Hin Hge].
      rewrite (H o Hin Hge) in Hp. discriminate.
    + split; [|reflexivity]. intros _ d Hd Hge.
      apply (proj1 (find_none_elem _ _) Ef). apply (proj2 (elem_of_rev _ _)), Hafter. now split.
  - intros m Hm. destruct (List.find above1 (rev after)) as [o|] eqn:Ef; [|discriminate].
    cbn in Hm. injection Hm as <-. pose proof (find_elem _ _ _ Ef) as [Hin Hp].
    apply (proj1 (elem_of_rev _ _)) in Hin. apply (proj1 (Hafter _)) in Hin as [Hin Hge]. split.
    + now exists o.
    + intros d Hd Hged Hpd.
      destruct (find_sorted_last date_le above1 after o d Hsorted Ef) as [->|H].
      * apply Hafter. now split.
      * exact Hpd.
      * apply date_leb_refl.
      * exact H.
Qed.

(** X8: the melt-out date of a summary is the latest date of its water
    year, among those at or after the peak date, with a reading above 1;
    it is null exactly when no such reading exists. *)
Theorem meltout_is_last_above_threshold now porData station allStations hydro s :
  s ∈ waterYears (computeAnalytics now porData station allStations hydro) ->
  let days := year_days porData (wy s) in
  (meltOutDate s = None <->
     forall d v, d ∈ days -> date_leb (peakDate s) (por_date d) = true ->
                 por_swe d = Some v -> (v <= 1)%Q) /\
  (forall m, meltOutDate s = Some m ->
     date_leb (peakDate s) m = true /\
     (exists d v, d ∈ days /\ por_date d = m /\ por_swe d = Some v /\ (1 < v)%Q) /\
     (forall d v, d ∈ days -> date_leb (peakDate s) (por_date d) = true ->
                  por_swe d = Some v -> (1 < v)%Q ->
                  date_leb (por_date d) m = true)).
Proof.
  change (waterYears (computeAnalytics now porData station allStations hydro))
    with (summarize_all (group_byWY porData)).
  intros Hs. destruct (elem_of_summarize_all _ _ Hs) as [Heq _]. cbn zeta.
  set (k := wy s) in *. set (days := year_days porData k) in *.
  clearbody k days. subst s.
  destruct (summarize_meltout k days) as [Hnone Hsome].
  destruct (summarize_order k days) as [_ Hord]. split.
  - rewrite Hnone. split.
    + intros H d v Hd Hge Hv. specialize (H d Hd Hge).
      destruct (Qlt_le_dec 1 v) as [Hlt|Hle]; [|exact Hle].
      assert (above1 d = true) by (apply above1_reading; eauto). congruence.
    + intros H d Hd Hge. destruct (above1 d) eqn:E; [|reflexivity].
      apply above1_reading in E as (v & Hv & Hlt). specialize (H d v Hd Hge Hv). lra.
  - intros m Hm. destruct (Hsome m Hm) as [(d & Hd & Hdate & Hp) Hlast].
    split; [now apply Hord|]. split.
    + apply above1_reading in Hp as (v & Hv & Hlt). now exists d, v.
    + intros e v He Hge Hv Hlt. apply Hlast; [exact He|exact Hge|].
      apply above1_reading. eauto.
Qed.

Lemma meltout_is_last_above_threshold_witness :
  date_leb (peakDate sample_summary) (mkDate 2020 3 5) = true /\
  (exists d v, d ∈ year_days (season 2020 61 ramp) (wy sample_summary) /\
               por_date d = mkDate 2020 3 5 /\ por_swe d = Some v /\ (1 < v)%Q) /\
  (forall d v, d ∈ year_days (season 2020 61 ramp) (wy sample_summary) ->
               date_leb (peakDate sample_summary) (por_date d) = true ->
               por_swe d = Some v -> (1 < v)%Q ->
               date_leb (por_date d) (mkDate 2020 3 5) = true).
Proof.
  assert (Hs : sample_summary ∈
    waterYears (computeAnalytics sample_clock (season 2020 61 ramp) harts_pass [] [])).
  { vm_compute. left. }
  apply (proj2 (meltout_is_last_above_threshold _ _ _ _ _ _ Hs) (mkDate 2020 3 5)).
  reflexivity.
Defined.

Lemma summarize_peak_date_elem k days :
  days <> [] ->
  (0 <= peakSWE (summarize k days))%Q /\
  exists d, d ∈ days /\ por_date d = peakDate (summarize k days).
Proof.
  intros Hne. split; [apply peak_bounds|].
  destruct (positive_or_none days) as [Hpos|Hle].
  - destruct (peak_positive k days Hpos) as [(d & Hd & _ & Hdate) _]. now exists d.
  - now destruct (peak_not_positive k days Hne Hle) as (_ & H & _).
Qed.

Lemma onset_iff_meltout k days :
  onsetDate (summarize k days) = None <-> meltOutDate (summarize k days) = None.
Proof.
  destruct (summarize_onset k days) as [Ho _].
  destruct (summarize_meltout k days) as [Hm _]. cbn zeta in Hm.
  rewrite Ho, Hm. split; [auto|].
  intros H d Hd. destruct (above1 d) eqn:E; [|reflexivity]. exfalso.
  apply above1_reading in E as (v & Hv & Hlt).
  destruct (peak_bounds k days) as [_ Hb]. specialize (Hb d v Hd Hv).
  destruct (peak_positive k days) as [(e & He & Hpe & Hde) _].
  { exists d, v. repeat split; try done. lra. }
  assert (Hab : above1 e = true).
  { apply above1_reading. exists (peakSWE (summarize k days)). split; [done|lra]. }
  rewrite (H e He) in Hab; [discriminate|]. rewrite Hde. apply date_leb_refl.
Qed.

(** X9: in every summary the onset date is null exactly when the melt-out
    date is, the peak value is never negative, and the peak, onset and
    melt-out dates all lie in the summary's own water year. *)
Theorem summary_dates_consistent now porData station allStations hydro s :
  s ∈ waterYears (computeAnalytics now porData station allStations hydro) ->
  (onsetDate s = None <-> meltOutDate s = None) /\
  (0 <= peakSWE s)%Q /\
  dateToWY (peakDate s) = wy s /\
  (forall o, onsetDate s = Some o -> dateToWY o = wy s) /\
  (forall m, meltOutDate s = Some m -> dateToWY m = wy s).
Proof.
  change (waterYears (computeAnalytics now porData station allStations hydro))
    with (summarize_all (group_byWY porData)).
  intros Hs. destruct (elem_of_summarize_all _ _ Hs) as [Heq Hlen].
  unfold valid_count in Hlen.
  assert (Hwy : forall d, d ∈ year_days porData (wy s) -> dateToWY (por_date d) = wy s).
  { intros d Hd. now apply year_days_elem in Hd as [_ Hd]. }
  assert (Hne : year_days porData (wy s) <> []).
  { intros E. rewrite E in Hlen. cbn in Hlen. lia. }
  set (k := wy s) in *. set (days := year_days porData k) in *.
  clearbody k days. subst s.
  split; [apply onset_iff_meltout|].
  destruct (summarize_peak_date_elem k days Hne) as [H0 (d & Hd & Hdate)].
  split; [exact H0|]. split; [rewrite <- Hdate; now apply Hwy|]. split.
  - intros o Ho. destruct (summarize_onset k days) as [_ H].
    destruct (H o Ho) as [(e & He & <- & _) _]. now apply Hwy.
  - intros m Hm. destruct (summarize_meltout k days) as [_ H].
    destruct (H m Hm) as [(e & He & <- & _) _]. now apply Hwy.
Qed.

Lemma summary_dates_consistent_witness :
  dateToWY (mkDate 2020 1 12) = wy sample_summary.
Proof.
  assert (Hs : sample_summary ∈
    waterYears (computeAnalytics sample_clock (season 2020 61 ramp) harts_pass [] [])).
  { vm_compute. left. }
  destruct (summary_dates_consistent _ _ _ _ _ _ Hs) as (_ & _ & _ & H & _).
  apply H. reflexivity.
Defined.

Lemma Math_round_div_exact z k :
  0 < k -> Math_round (inject_Z (z * k) / inject_Z k) = z.
Proof.
  intros Hk. unfold Math_round.
  assert (E : (inject_Z (z * k) / inject_Z k + (1 # 2) == inject_Z z + (1 # 2))%Q).
  { rewrite inject_Z_mult. field. intros H. unfold Qeq in H. cbn in H. lia. }
  rewrite E.
  assert (Hle : (inject_Z z <= inject_Z z + (1 # 2))%Q) by lra.
  assert (Hlt : (inject_Z z + (1 # 2) < inject_Z (z + 1))%Q).
  { rewrite inject_Z_plus. change (inject_Z 1) with 1%Q. lra. }
  pose proof (Qfloor_le (inject_Z z + (1 # 2))) as H1.
  pose proof (Qlt_floor (inject_Z z + (1 # 2))) as H2.
  assert (Ha : (inject_Z z < inject_Z (Qfloor (inject_Z z + (1 # 2)) + 1))%Q) by lra.
  assert (Hb : (inject_Z (Qfloor (inject_Z z + (1 # 2))) < inject_Z (z + 1))%Q) by lra.
  rewrite <- Zlt_Qlt in Ha, Hb. lia.
Qed.

Lemma summarize_seasonDays k days :
  seasonDays (summarize k days) =
  match onsetDate (summarize k days), meltOutDate (summarize k days) with
  | Some o, Some m => epochDay m - epochDay o
  | _, _ => 0
  end.
Proof.
  cbn [seasonDays onsetDate meltOutDate summarize].
  destruct (por_date <$> List.find above1 (sort_days days)) as [o|]; [|reflexivity].
  destruct (por_date <$> List.find above1 _) as [m|]; [|reflexivity].
  unfold getTime. rewrite <- Z.mul_sub_distr_r. now apply Math_round_div_exact.
Qed.

Lemma dateToDOWY_from_label d :
  dateToDOWY d = epochDay d - epochDay (mkDate (dateToWY d - 1) 10 1) + 1.
Proof.
  rewrite dateToDOWY_days. unfold dateToWY.
  destruct (9 <=? getMonth d); [|reflexivity].
  now replace (getFullYear d + 1 - 1) with (getFullYear d) by lia.
Qed.

(** X10: the season length of a summary is 0 when onset or melt-out is
    null and otherwise the number of days from onset to melt-out, which
    lies between 0 and 365 when the dates of the series are calendar
    dates. *)
Theorem season_length now porData station allStations hydro s :
  s ∈ waterYears (computeAnalytics now porData station allStations hydro) ->
  (onsetDate s = None \/ meltOutDate s = None -> seasonDays s = 0) /\
  (forall o m, onsetDate s = Some o -> meltOutDate s = Some m ->
     seasonDays s = epochDay m - epochDay o /\
     ((forall d, d ∈ porData -> valid_date (por_date d)) ->
      0 <= seasonDays s <= 365)).
Proof.
  change (waterYears (computeAnalytics now porData station allStations hydro))
    with (summarize_all (group_byWY porData)).
  intros Hs. destruct (elem_of_summarize_all _ _ Hs) as [Heq _].
  assert (Hin : forall d, d ∈ year_days porData (wy s) ->
                  d ∈ porData /\ dateToWY (por_date d) = wy s).
  { intros d. apply year_days_elem. }
  set (k := wy s) in *. set (days := year_days porData k) in *.
  clearbody k days. subst s.
  pose proof (summarize_seasonDays k days) as Hsd. split.
  - intros [H|H]; rewrite Hsd, H; [reflexivity|].
    now destruct (onsetDate (summarize k days)).
  - intros o m Ho Hm. rewrite Ho, Hm in Hsd. split; [exact Hsd|].
    intros Hvalid.
    destruct (summarize_onset k days) as [_ H1].
    destruct (H1 o Ho) as [(eo & Heo & <- & _) _].
    destruct (summarize_meltout k days) as [_ H2].
    destruct (H2 m Hm) as [(em & Hem & <- & _) _].
    destruct (Hin eo Heo) as [Hpo Hwo]. destruct (Hin em Hem) as [Hpm Hwm].
    pose proof (Hvalid eo Hpo) as Hvo. pose proof (Hvalid em Hpm) as Hvm.
    destruct (summarize_order k days) as [Hord1 Hord2].
    pose proof (date_leb_trans _ _ _ (Hord1 _ Ho) (Hord2 _ Hm)) as Hle.
    apply (dowy_monotone _ _ Hvo Hvm) in Hle; [|congruence].
    pose proof (dowy_bounds _ Hvo). pose proof (dowy_bounds _ Hvm).
    pose proof (dateToDOWY_from_label (por_date eo)) as Eo.
    pose proof (dateToDOWY_from_label (por_date em)) as Em.
    rewrite Hwo in Eo. rewrite Hwm in Em. lia.
Qed.

Lemma season_year y n v d : d ∈ season y n v -> year (por_date d) = y.
Proof.
  unfold season. rewrite list_elem_of_In, in_map_iff. now intros (i & <- & _).
Qed.

Lemma season_valid y n v d :
  (n <= 84)%nat -> d ∈ season y n v -> valid_date (por_date d).
Proof.
  intros Hn. unfold season. rewrite list_elem_of_In, in_map_iff.
  intros (i & <- & Hi). apply in_seq in Hi. cbn [por_date].
  unfold valid_date, nth_date, days_in_month. cbn [year month day].
  assert (H1 : 0 <= Z.of_nat i / 28 <= 2) by (Z.div_mod_to_equations; lia).
  assert (H2 : 0 <= Z.of_nat i mod 28 <= 27) by (Z.div_mod_to_equations; lia).
  split; [lia|].
  destruct (_ =? 2); [destruct (is_leap y); lia|].
  destruct (_ || _); lia.
Qed.

Lemma season_length_witness :
  0 <= seasonDays sample_summary <= 365.
Proof.
  assert (Hs : sample_summary ∈
    waterYears (computeAnalytics sample_clock (season 2020 61 ramp) harts_pass [] [])).
  { vm_compute. left. }
  destruct (proj2 (season_length _ _ _ _ _ _ Hs) (mkDate 2020 1 12) (mkDate 2020 3 5))
    as [_ H]; [reflexivity|reflexivity|].
  apply H. intros d. apply season_valid. lia.
Defined.

(** ** More on the rank and the median count *)

Lemma filter_length_le {A} (f : A -> bool) l :
  (length (List.filter f l) <= length l)%nat.
Proof. induction l as [|x l IH]; cbn; [lia|]. destruct (f x); cbn; lia. Qed.

Lemma omap_length_le {A B} (f : A -> option B) l :
  (length (omap f l) <= length l)%nat.
Proof. induction l as [|x l IH]; cbn; [lia|]. destruct (f x); cbn; lia. Qed.

Lemma filter_length_mono {A} (f g : A -> bool) l :
  (forall x, f x = true -> g x = true) ->
  (length (List.filter f l) <= length (List.filter g l))%nat.
Proof.
  intros H. induction l as [|x l IH]; cbn; [lia|].
  destruct (f x) eqn:E.
  - rewrite (H x E). cbn. lia.
  - destruct (g x); cbn; lia.
Qed.

Lemma pool_size por today :
  (length (historicalAtDOWY (group_byWY por) today) <= size (group_byWY por))%nat.
Proof.
  unfold historicalAtDOWY. rewrite sort_by_length, pool_fold, app_nil_l.
  etransitivity; [apply omap_length_le|].
  unfold Object_entries. rewrite sort_by_length.
  now rewrite length_map_to_list.
Qed.

(** X11: the rank lies between 1 and [totalYears + 1], and [totalYears]
    never exceeds the number of water years that have a valid
    observation. *)
Theorem rank_bounds now porData station allStations hydro :
  let a := computeAnalytics now porData station allStations hydro in
  (1 <= currentRank a <= totalYears a + 1)%nat /\
  (totalYears a <= size (group_byWY porData))%nat /\
  (forall y, y ∈ dom (group_byWY porData) <-> (0 < valid_count porData y)%nat).
Proof.
  cbn zeta.
  change (currentRank (computeAnalytics now porData station allStations hydro))
    with (length (List.filter (fun v => Qltb v (default 0%Q (st_swe station)))
            (historicalAtDOWY (group_byWY porData) (dateToDOWY (utcDate now)))) + 1)%nat.
  change (totalYears (computeAnalytics now porData station allStations hydro))
    with (length (historicalAtDOWY (group_byWY porData) (dateToDOWY (utcDate now)))).
  split; [|split].
  - pose proof (filter_length_le (fun v => Qltb v (default 0%Q (st_swe station)))
                 (historicalAtDOWY (group_byWY porData) (dateToDOWY (utcDate now)))).
    lia.
  - apply pool_size.
  - intros y. rewrite elem_of_dom, group_byWY_lookup. unfold valid_count.
    destruct (year_days porData y); cbn; split; try lia.
    + intros [x Hx]. discriminate.
    + intros _. eauto.
Qed.

(** X12: a higher current reading never ranks lower: over the same
    records and at the same time, the rank grows with the reading of the
    station. *)
Theorem rank_monotone now porData station1 station2 allStations hydro :
  (default 0 (st_swe station1) <= default 0 (st_swe station2))%Q ->
  (currentRank (computeAnalytics now porData station1 allStations hydro) <=
   currentRank (computeAnalytics now porData station2 allStations hydro))%nat.
Proof.
  intros Hle.
  change (length (List.filter (fun v => Qltb v (default 0%Q (st_swe station1)))
            (historicalAtDOWY (group_byWY porData) (dateToDOWY (utcDate now)))) + 1 <=
          length (List.filter (fun v => Qltb v (default 0%Q (st_swe station2)))
            (historicalAtDOWY (group_byWY porData) (dateToDOWY (utcDate now)))) + 1)%nat.
  apply Nat.add_le_mono_r, filter_length_mono.
  intros v Hv. apply Qltb_lt in Hv. apply Qltb_lt. lra.
Qed.

Lemma rank_monotone_witness :
  (currentRank (computeAnalytics january_clock (season 2020 61 ramp)
                  (mkStation "1" "Low" "WA" 0 0 0 None None) [] []) <=
   currentRank (computeAnalytics january_clock (season 2020 61 ramp) harts_pass [] []))%nat.
Proof. apply rank_monotone. vm_compute. discriminate. Defined.

Lemma Qle_bool_total x y : Qle_bool x y = false -> Qle_bool y x = true.
Proof.
  intros H. apply Qle_bool_iff. destruct (Qlt_le_dec x y) as [Hlt|Hle]; [|exact Hle].
  apply Qlt_le_weak, Qle_bool_iff in Hlt. congruence.
Qed.

Lemma Qle_bool_trans x y z :
  Qle_bool x y = true -> Qle_bool y z = true -> Qle_bool x z = true.
Proof. rewrite !Qle_bool_iff. apply Qle_trans. Qed.

(** In an ascending array, fewer than [i + 1] elements are strictly below
    the element at index [i]. *)
Lemma below_index_le l : forall i,
  StronglySorted (fun a b => Qle_bool a b = true) l -> (i < length l)%nat ->
  (length (List.filter (fun v => Qltb v (nth i l 0%Q)) l) <= i)%nat.
Proof.
  induction l as [|x l IH]; intros i Hs Hi; cbn in Hi; [lia|].
  apply StronglySorted_inv in Hs as [Hs Hall]. rewrite Forall_forall in Hall.
  destruct i as [|i]; cbn [nth].
  - rewrite filter_none; [cbn; lia|]. intros v Hv. apply Qltb_ge.
    apply elem_of_cons in Hv as [->|Hv]; [apply Qle_refl|].
    apply Qle_bool_iff. now apply Hall.
  - cbn [List.filter]. specialize (IH i Hs ltac:(lia)).
    destruct (Qltb x (nth i l 0%Q)); cbn; lia.
Qed.

Lemma filter_drop_le {A} (f : A -> bool) n l :
  (length (List.filter f (drop n l)) <= length (List.filter f l))%nat.
Proof.
  rewrite <- (take_drop n l) at 2. rewrite List.filter_app, length_app. lia.
Qed.

(** X13: [belowMedianCount10yr] is at most 10 and at most half the number
    of summaries: the median peak is the element at index [floor(n / 2)]
    of the sorted peaks, and only elements before it are strictly below. *)
Theorem below_median_count_bounds now porData station allStations hydro :
  let a := computeAnalytics now porData station allStations hydro in
  (belowMedianCount10yr a <= 10)%nat /\
  (belowMedianCount10yr a <= length (waterYears a) / 2)%nat.
Proof.
  cbn zeta.
  change (waterYears (computeAnalytics now porData station allStations hydro))
    with (summarize_all (group_byWY porData)).
  set (ws := summarize_all (group_byWY porData)).
  change (belowMedianCount10yr (computeAnalytics now porData station allStations hydro))
    with (length (List.filter
            (fun w => Qltb (peakSWE w)
               (if (0 <? length (map peakSWE ws))%nat
                then nth (length (map peakSWE ws) / 2) (sort_by Qle_bool (map peakSWE ws)) 0%Q
                else 0%Q)) (slice_last10 ws))).
  split.
  - etransitivity; [apply filter_length_le|].
    unfold slice_last10. rewrite length_drop. lia.
  - unfold slice_last10. etransitivity; [apply filter_drop_le|].
    rewrite length_map. destruct (Nat.ltb_spec 0 (length ws)) as [Hpos|Hz].
    + rewrite <- (filter_map_length (fun v => Qltb v _) peakSWE).
      rewrite <- (filter_length_perm _ _ _ (sort_by_perm Qle_bool (map peakSWE ws))).
      apply below_index_le.
      * apply (sort_by_sorted Qle_bool); [apply Qle_bool_total|apply Qle_bool_trans].
      * rewrite sort_by_length, length_map. apply Nat.div_lt; lia.
    + assert (ws = []) as -> by (destruct ws; [reflexivity|cbn in Hz; lia]).
      cbn. lia.
Qed.

(** ** More on the linear regression *)

Section Reduce_sign.
Context {A : Type}.

(** A running sum of terms that are not negative is not negative. *)
Lemma reduce_from_nonneg (g : A -> nat -> Q) l :
  (forall x j, 0 <= g x j)%Q ->
  forall i acc, (0 <= acc)%Q -> (0 <= reduce_from (fun a x j => a ⊕ g x j) i l acc)%Q.
Proof.
  intros Hg. induction l as [|x l IH]; intros i acc Hacc; cbn [reduce_from]; [exact Hacc|].
  apply IH. apply binary64_sign. specialize (Hg x i). lra.
Qed.
End Reduce_sign.

Lemma sq_nonneg x : (0 <= sq x)%Q.
Proof. unfold sq, js_mul. apply binary64_sign. nra. Qed.

Lemma binary64_1 : (binary64 1 == 1)%Q.
Proof. apply (binary64_Z 1). cbn. lia. Qed.

(** X14: the coefficient of determination that the fit returns never
    exceeds 1; it has no lower bound of 0, though: on the readings 0.1,
    0.1, 0.1 of the years 2019 to 2021 it is below minus four million. *)
Theorem r2_at_most_one :
  (forall xs ys, (r2 (linearRegression xs ys) <= 1)%Q) /\
  (r2 (linearRegression [2019; 2020; 2021]%Q [tenth; tenth; tenth]) < -4000000)%Q.
Proof.
  split; [|vm_compute; reflexivity].
  intros xs ys. unfold linearRegression.
  destruct (length xs <? 2)%nat; [cbn [r2]; lra|].
  destruct (Qeq_bool _ 0); [cbn [r2]; lra|]. cbn [r2].
  set (sl := ((_ ⊖ _) ⊘ _)). set (ic := ((_ ⊖ _) ⊘ len xs)).
  match goal with |- context [Qgtb ?t 0] => set (ssTot := t) end.
  match goal with |- context [js_div ?r ssTot] => set (ssRes := r) end.
  destruct (Qgtb ssTot 0) eqn:E; [|lra].
  apply Qgtb_gt in E.
  assert (Hres : (0 <= ssRes)%Q).
  { unfold ssRes, reduce.
    apply (reduce_from_nonneg (fun y i => sq (y ⊖ (sl ⊗ at_index xs i ⊕ ic)))).
    - intros y j. apply sq_nonneg.
    - apply Qle_refl. }
  assert (Hq : (0 <= ssRes ⊘ ssTot)%Q).
  { unfold js_div. apply binary64_sign. apply Qle_shift_div_l; [exact E | lra]. }
  unfold js_sub. rewrite <- binary64_1 at 2. apply binary64_mono. lra.
Qed.

(** X17: the copy of the fit in the dashboard returns the same slope and
    the same intercept as the one of the application on every input;
    their [r2] can differ, since the dashboard computes the total sum of
    squares as [syy - sy * sy / n]: on the readings 0.1, 0.1, 0.1 of the
    years 2019 to 2021 it is 0 in the dashboard. *)
Theorem dashboard_slope_and_intercept xs ys :
  slope (DataDashboard.linearRegression xs ys) = slope (linearRegression xs ys) /\
  intercept (DataDashboard.linearRegression xs ys) = intercept (linearRegression xs ys) /\
  r2 (DataDashboard.linearRegression [2019; 2020; 2021]%Q [tenth; tenth; tenth]) = 0%Q /\
  ~ (r2 (linearRegression [2019; 2020; 2021]%Q [tenth; tenth; tenth]) == 0)%Q.
Proof.
  split; [|split; [|split]].
  - unfold DataDashboard.linearRegression, linearRegression.
    destruct (length xs <? 2)%nat; [reflexivity|].
    destruct (Qeq_bool _ 0); reflexivity.
  - unfold DataDashboard.linearRegression, linearRegression.
    destruct (length xs <? 2)%nat; [reflexivity|].
    destruct (Qeq_bool _ 0); reflexivity.
  - vm_compute. reflexivity.
  - vm_compute. discriminate.
Qed.

(** ** More on rounding, the climatology and the projection *)

Lemma Math_round_mono x y : (x <= y)%Q -> Math_round x <= Math_round y.
Proof. intros H. unfold Math_round. apply Qfloor_resp_le. lra. Qed.

Lemma Math_round_Z z : Math_round (inject_Z z) = z.
Proof.
  rewrite <- (Math_round_div_exact z 1) at 2 by lia.
  unfold Math_round. apply Qfloor_comp. rewrite Z.mul_1_r. field.
Qed.

(** Rounding to one decimal place keeps the order of doubles. *)
Lemma round1_mono x y : (x <= y)%Q -> (round1 x <= round1 y)%Q.
Proof.
  intros H. unfold round1, js_div, js_mul. apply binary64_mono.
  apply Qmult_le_compat_r; [|discriminate].
  rewrite <- Zle_Qle. apply Math_round_mono. apply binary64_mono. lra.
Qed.

Lemma round1_0 : round1 0 = 0%Q.
Proof. vm_compute. reflexivity. Qed.

Lemma fold_max_ge l : forall x v,
  (v == x \/ v ∈ l -> v <= fold_left (fun m w => if Qltb m w then w else m) l x)%Q.
Proof.
  induction l as [|y l IH]; intros x v H; cbn [fold_left].
  - destruct H as [->|H]; [apply Qle_refl|inversion H].
  - destruct (Qltb x y) eqn:E.
    + apply Qltb_lt in E. destruct H as [Hx|H].
      * eapply Qle_trans; [|apply (IH y y); left; reflexivity]. lra.
      * apply elem_of_cons in H as [->|H]; apply IH; [left; reflexivity|now right].
    + apply Qltb_ge in E. destruct H as [Hx|H].
      * apply IH. now left.
      * apply elem_of_cons in H as [->|H].
        -- eapply Qle_trans; [exact E|]. apply IH. left. reflexivity.
        -- apply IH. now right.
Qed.

Lemma fold_min_le l : forall x v,
  (v == x \/ v ∈ l -> fold_left (fun m w => if Qltb w m then w else m) l x <= v)%Q.
Proof.
  induction l as [|y l IH]; intros x v H; cbn [fold_left].
  - destruct H as [->|H]; [apply Qle_refl|inversion H].
  - destruct (Qltb y x) eqn:E.
    + apply Qltb_lt in E. destruct H as [Hx|H].
      * eapply Qle_trans; [apply (IH y y); left; reflexivity|]. lra.
      * apply elem_of_cons in H as [->|H]; apply IH; [left; reflexivity|now right].
    + apply Qltb_ge in E. destruct H as [Hx|H].
      * apply IH. now left.
      * apply elem_of_cons in H as [->|H].
        -- eapply Qle_trans; [|exact E]. apply IH. left. reflexivity.
        -- apply IH. now right.
Qed.

Lemma Math_max_ge l mx v : Math_max l = Some mx -> v ∈ l -> (v <= mx)%Q.
Proof.
  destruct l as [|x l]; [discriminate|]. intros [= <-] Hv.
  apply fold_max_ge. apply elem_of_cons in Hv as [->|Hv]; [left; reflexivity|now right].
Qed.

Lemma Math_min_le l mn v : Math_min l = Some mn -> v ∈ l -> (mn <= v)%Q.
Proof.
  destruct l as [|x l]; [discriminate|]. intros [= <-] Hv.
  apply fold_min_le. apply elem_of_cons in Hv as [->|Hv]; [left; reflexivity|now right].
Qed.

Lemma Math_min_elem l mn : Math_min l = Some mn -> mn ∈ l.
Proof.
  destruct l as [|x l]; [discriminate|]. intros [= <-].
  assert (G : forall l x, fold_left (fun m w => if Qltb w m then w else m) l x ∈ x :: l).
  { clear. induction l as [|y l IH]; intros x; cbn [fold_left]; [left|].
    destruct (Qltb y x).
    - right. apply IH.
    - specialize (IH x). apply elem_of_cons in IH as [->|IH]; [left|right; now right]. }
  apply G.
Qed.

Lemma clim_of_min_max por mo :
  let c := clim_of (monthly_buckets por) mo in (mc_min c <= mc_max c)%Q.
Proof.
  cbn zeta. unfold clim_of. rewrite monthly_buckets_lookup, nonempty_opt_default.
  cbn [mc_min mc_max].
  destruct (month_values por mo) as [|v vals] eqn:E.
  - cbn. apply Qle_refl.
  - rewrite <- E.
    replace (0 <? length (month_values por mo))%nat with true
      by (rewrite E; reflexivity).
    destruct (Math_min (month_values por mo)) as [mn|] eqn:Emin;
      [|rewrite E in Emin; discriminate].
    destruct (Math_max (month_values por mo)) as [mx|] eqn:Emax;
      [|rewrite E in Emax; discriminate].
    cbn [default]. apply round1_mono.
    apply (Math_max_ge _ _ _ Emax). apply (Math_min_elem _ _ Emin).
Qed.

(** X18: the climatology always has the nine entries October to June in
    that order, and a month without a valid reading has average, minimum
    and maximum 0. *)
Theorem climatology_shape now porData station allStations hydro :
  let a := computeAnalytics now porData station allStations hydro in
  map mc_month (monthlyClim a)
  = ["Oct"; "Nov"; "Dec"; "Jan"; "Feb"; "Mar"; "Apr"; "May"; "Jun"]%string /\
  (forall i mo c,
     snow_months !! i = Some mo -> monthlyClim a !! i = Some c ->
     month_values porData mo = [] ->
     (mc_avg c == 0)%Q /\ (mc_min c == 0)%Q /\ (mc_max c == 0)%Q).
Proof.
  cbn zeta. split; [reflexivity|].
  change (monthlyClim (computeAnalytics now porData station allStations hydro))
    with (monthly_clim porData).
  intros i mo c Hi Hc Hempty. unfold monthly_clim in Hc.
  rewrite (lookup_map _ _ _ _ Hi) in Hc. injection Hc as <-.
  unfold clim_of. rewrite monthly_buckets_lookup, Hempty.
  cbn [nonempty_opt default length Nat.ltb Nat.leb mc_avg mc_min mc_max].
  rewrite round1_0. repeat split; reflexivity.
Qed.

Lemma climatology_shape_witness :
  (mc_avg (clim_of (monthly_buckets quarter_inch) 9) == 0)%Q /\
  (mc_min (clim_of (monthly_buckets quarter_inch) 9) == 0)%Q /\
  (mc_max (clim_of (monthly_buckets quarter_inch) 9) == 0)%Q.
Proof.
  apply (proj2 (climatology_shape sample_clock quarter_inch harts_pass [] []) 0%nat 9);
    reflexivity.
Defined.

(** X19: in every entry of the climatology the minimum is at most the
    maximum.  The average need not lie between them: rounding the mean
    and then the tenths can take it below the minimum, as for three
    readings of 0.35, whose average is returned as 0.3 and whose minimum
    and maximum as 0.4. *)
Theorem climatology_min_max now porData station allStations hydro c :
  c ∈ monthlyClim (computeAnalytics now porData station allStations hydro) ->
  (mc_min c <= mc_max c)%Q /\
  exists c', c' ∈ monthlyClim (computeAnalytics now three_of_035 station allStations hydro) /\
             (mc_avg c' < mc_min c')%Q.
Proof.
  change (monthlyClim (computeAnalytics now porData station allStations hydro))
    with (monthly_clim porData).
  change (monthlyClim (computeAnalytics now three_of_035 station allStations hydro))
    with (monthly_clim three_of_035).
  unfold monthly_clim at 1. rewrite list_elem_of_In, in_map_iff.
  intros (mo & <- & _). split; [apply clim_of_min_max|].
  exists (clim_of (monthly_buckets three_of_035) 0). split.
  - unfold monthly_clim. apply list_elem_of_In, in_map_iff. exists 0.
    split; [reflexivity|]. cbn. tauto.
  - vm_compute. reflexivity.
Qed.

Lemma climatology_min_max_witness :
  (mc_min (clim_of (monthly_buckets three_years) 0)
   <= mc_max (clim_of (monthly_buckets three_years) 0))%Q.
Proof.
  apply (climatology_min_max sample_clock three_years harts_pass [] []).
  change (monthlyClim (computeAnalytics sample_clock three_years harts_pass [] []))
    with (map (clim_of (monthly_buckets three_years)) snow_months).
  apply list_elem_of_In, in_map_iff. exists 0. split; [reflexivity|].
  cbn. tauto.
Defined.

(** X20: a projected peak is produced only from a series of six or more
    points whose last entry has a non-zero reading and a positive median
    below the peak median; it is then the rounded product of their ratio
    and the peak median. *)
Theorem projection_only_before_peak now porData station allStations hydro q :
  projectedPeak (computeAnalytics now porData station allStations hydro) = Some q ->
  (6 <= length hydro)%nat /\
  exists latest swe med peakMedian,
    last hydro = Some latest /\
    h_swe latest = Some swe /\ ~ (swe == 0)%Q /\
    h_median latest = Some med /\ (0 < med)%Q /\
    Math_max (omap h_median hydro) = Some peakMedian /\ (med < peakMedian)%Q /\
    q = round1 (swe ⊘ med ⊗ peakMedian).
Proof.
  change (projectedPeak (computeAnalytics now porData station allStations hydro))
    with (project_peak hydro).
  unfold project_peak.
  destruct (Nat.ltb_spec 5 (length hydro)) as [Hn|Hn]; [|discriminate].
  destruct (last hydro) as [latest|]; [|discriminate].
  destruct (h_median latest) as [med|] eqn:Em; [|discriminate].
  destruct (h_swe latest) as [swe|] eqn:Es; [|discriminate].
  destruct (truthy (Some med) && truthy (Some swe) && Qgtb med 0) eqn:Eg; [|discriminate].
  apply andb_true_iff in Eg as [Eg Hmed]. apply andb_true_iff in Eg as [_ Hswe].
  destruct (Math_max _) as [pk|]; [|discriminate].
  destruct (Qgtb pk med) eqn:Epk; [|discriminate].
  intros [= <-]. apply Qgtb_gt in Hmed, Epk.
  split; [lia|]. exists latest, swe, med, pk. repeat split; try done.
  intros E. cbn in Hswe. apply Qeq_bool_iff in E. rewrite E in Hswe. discriminate.
Qed.

Lemma projection_only_before_peak_witness :
  (6 <= length declining_median)%nat.
Proof.
  apply (projection_only_before_peak sample_clock [] harts_pass [] declining_median
           (round1 (1 ⊘ 3 ⊗ 4))).
  vm_compute. reflexivity.
Defined.

(** ** Neighbours and region *)

Lemma manhattan_total station x y :
  Qle_bool (manhattan station x) (manhattan station y) = false ->
  Qle_bool (manhattan station y) (manhattan station x) = true.
Proof. apply Qle_bool_total. Qed.

(** X21: the neighbours listed are the first three of the eligible
    stations (another id, within one degree of latitude and of longitude,
    with a percent of median) in ascending order of the Manhattan
    distance as the engine computes it, in doubles: no eligible station
    left out is closer, by that distance, than one that is listed. *)
Theorem nearest_neighbours now porData station allStations hydro :
  let a := computeAnalytics now porData station allStations hydro in
  let eligible := List.filter (eligible_neighbour station) allStations in
  exists ranked,
    ranked ≡ₚ eligible /\
    StronglySorted (fun s t => (manhattan station s <= manhattan station t)%Q) ranked /\
    nearbyComparison a = map (fun s => (st_name s, st_pctMedian s)) (take 3 ranked) /\
    length (nearbyComparison a) = Nat.min 3 (length eligible) /\
    (forall s t, s ∈ take 3 ranked -> t ∈ drop 3 ranked ->
                 (manhattan station s <= manhattan station t)%Q).
Proof.
  cbn zeta.
  set (leb := fun s t => Qle_bool (manhattan station s) (manhattan station t)).
  exists (sort_by leb (List.filter (eligible_neighbour station) allStations)).
  assert (Hs : StronglySorted (fun s t => (manhattan station s <= manhattan station t)%Q)
                 (sort_by leb (List.filter (eligible_neighbour station) allStations))).
  { eapply sorted_impl; [|apply (sort_by_sorted leb)].
    - intros s t H. now apply Qle_bool_iff.
    - intros x y. apply manhattan_total.
    - intros x y z. apply Qle_bool_trans. }
  split; [apply sort_by_perm|]. split; [exact Hs|]. split; [reflexivity|]. split.
  - change (nearbyComparison (computeAnalytics now porData station allStations hydro))
      with (map (fun s => (st_name s, st_pctMedian s))
              (take 3 (sort_by leb (List.filter (eligible_neighbour station) allStations)))).
    now rewrite length_map, length_take, sort_by_length.
  - intros s t Hs' Ht.
    rewrite <- (take_drop 3 (sort_by leb _)) in Hs.
    apply list_elem_of_split in Hs' as (l1 & l2 & E). rewrite E in Hs.
    rewrite <- app_assoc in Hs. cbn [app] in Hs.
    apply (sorted_after _ l1 s (l2 ++ drop 3 (sort_by leb _)) t Hs).
    apply elem_of_app. now right.
Qed.

(** The two sample stations are at the same distance in doubles, so the
    sort leaves them in the order of the list. *)
Lemma neighbours_tie_in_doubles :
  nearbyComparison (computeAnalytics sample_clock [] origin_station tied_stations [])
  = [("East"%string, Some 100%Q); ("North"%string, Some 100%Q)].
Proof. vm_compute. reflexivity. Qed.

Lemma includes_elem states x : includes states x = true <-> x ∈ states.
Proof.
  unfold includes. rewrite existsb_exists. split.
  - intros (y & Hy & E). apply String.eqb_eq in E as ->. now apply list_elem_of_In.
  - intros H. exists x. split; [now apply list_elem_of_In|apply String.eqb_refl].
Qed.

(** No state belongs to two regions, so the first match is the only one. *)
Lemma region_lookup name states x :
  (name, states) ∈ REGIONS -> x ∈ states ->
  List.find (fun r => includes r.2 x) REGIONS = Some (name, states).
Proof.
  intros Hr Hx. apply list_elem_of_In in Hr. apply list_elem_of_In in Hx.
  cbn in Hr.
  repeat (destruct Hr as [[= <- <-]|Hr];
          [cbn in Hx; repeat (destruct Hx as [<-|Hx]; [reflexivity|]); destruct Hx|]).
  destruct Hr.
Qed.

Lemma reduce_pct_sum l :
  (forall s, s ∈ l -> st_pctMedian s <> None) ->
  reduce (fun a s _ => a ⊕ default 0%Q (st_pctMedian s)) l 0%Q = sum (pct_values l).
Proof.
  intros H. unfold reduce, sum, pct_values.
  assert (G : forall i acc,
    reduce_from (fun a s _ => a ⊕ default 0%Q (st_pctMedian s)) i l acc
    = fold_left js_add (omap st_pctMedian l) acc).
  { induction l as [|s l IH]; intros i acc; cbn; [reflexivity|].
    destruct (st_pctMedian s) as [p|] eqn:E.
    - cbn. apply IH. intros t Ht. apply H. now right.
    - exfalso. apply (H s); [left|exact E]. }
  apply G.
Qed.

Lemma pct_values_length l :
  (forall s, s ∈ l -> st_pctMedian s <> None) -> length (pct_values l) = length l.
Proof.
  intros H. unfold pct_values. induction l as [|s l IH]; cbn; [reflexivity|].
  destruct (st_pctMedian s) eqn:E.
  - cbn. f_equal. apply IH. intros t Ht. apply H. now right.
  - exfalso. apply (H s); [left|exact E].
Qed.

Lemma region_members_data states allStations s :
  s ∈ region_members states allStations -> st_pctMedian s <> None.
Proof.
  unfold region_members. rewrite filter_elem. intros [_ H].
  apply andb_true_iff in H as [_ H]. now apply bool_decide_eq_true in H.
Qed.

(** X22: a station whose state belongs to one of the five regions gets
    that region's name and the mean percent of median of the stations of
    the region that report one, summed and divided in doubles and rounded
    to the nearest whole number (0 when none reports); a station of any
    other state gets the name "Region" and the average 0. *)
Theorem region_average now porData station allStations hydro :
  let a := computeAnalytics now porData station allStations hydro in
  (forall name states,
     (name, states) ∈ REGIONS -> st_state station ∈ states ->
     regionName a = name /\
     regionAvgPct a =
       (if (0 <? length (region_members states allStations))%nat
        then Math_round (mean (pct_values (region_members states allStations)))
        else 0)) /\
  ((forall name states, (name, states) ∈ REGIONS -> st_state station ∉ states) ->
   regionName a = "Region"%string /\ regionAvgPct a = 0).
Proof.
  cbn zeta.
  change (regionName (computeAnalytics now porData station allStations hydro))
    with (region_of station allStations).1.
  change (regionAvgPct (computeAnalytics now porData station allStations hydro))
    with (if (0 <? length (region_of station allStations).2)%nat
          then Math_round
                 (reduce (fun a s _ => a ⊕ default 0%Q (st_pctMedian s))
                    (region_of station allStations).2 0%Q
                  ⊘ len (region_of station allStations).2)
          else 0).
  split.
  - intros name states Hr Hx. unfold region_of.
    rewrite (region_lookup name states _ Hr Hx). cbn [fst snd].
    fold (region_members states allStations).
    split; [reflexivity|]. destruct (_ <? _)%nat; [|reflexivity].
    unfold mean, len.
    rewrite reduce_pct_sum, pct_values_length;
      try (intros s; apply region_members_data). reflexivity.
  - intros H. unfold region_of.
    destruct (List.find _ REGIONS) as [[name states]|] eqn:Ef; [|split; reflexivity].
    exfalso. apply find_elem in Ef as [Hin Hinc]. cbn [snd] in Hinc.
    apply (H name states Hin). now apply includes_elem.
Qed.

Lemma region_average_witness :
  regionName (computeAnalytics sample_clock [] berthoud colorado_stations []) = "Rockies"%string /\
  regionAvgPct (computeAnalytics sample_clock [] berthoud colorado_stations []) = 100.
Proof.
  destruct (proj1 (region_average sample_clock [] berthoud colorado_stations [])
              "Rockies"%string ["CO"; "WY"; "MT"; "ID"; "UT"]%string) as [Hn Ha].
  - apply list_elem_of_In. cbn. tauto.
  - left.
  - split; [exact Hn|]. rewrite Ha. vm_compute. reflexivity.
Defined.

(** The mean of 0.3 and 0.7 in doubles is one half, which rounds to 1. *)
Lemma region_average_in_doubles :
  regionAvgPct (computeAnalytics sample_clock [] berthoud sparse_stations []) = 1.
Proof. vm_compute. reflexivity. Qed.

(** ** Trends and averages on sparse records *)

Lemma omap_length_filter {A B} (f : A -> option B) l :
  length (omap f l) = length (List.filter (fun x => bool_decide (f x <> None)) l).
Proof.
  induction l as [|x l IH]; cbn; [reflexivity|].
  destruct (f x) eqn:E; cbn; [now rewrite IH|exact IH].
Qed.

Lemma filter_ext_elem {A} (f g : A -> bool) l :
  (forall x, x ∈ l -> f x = g x) -> List.filter f l = List.filter g l.
Proof.
  induction l as [|x l IH]; intros H; cbn; [reflexivity|].
  rewrite (H x) by left. rewrite IH; [reflexivity|]. intros y Hy. apply H. now right.
Qed.

Lemma summarize_all_onset_meltout por s :
  s ∈ summarize_all (group_byWY por) ->
  (onsetDate s = None <-> meltOutDate s = None).
Proof.
  intros Hs. destruct (elem_of_summarize_all _ _ Hs) as [-> _]. apply onset_iff_meltout.
Qed.

Lemma timing_data_length por (date_of : WaterYearSummary -> option Date) :
  length (omap (fun w => (fun d => (wy w, dateToDOWY d)) <$> date_of w)
            (summarize_all (group_byWY por)))
  = length (List.filter (fun s => bool_decide (date_of s <> None))
              (summarize_all (group_byWY por))).
Proof.
  rewrite omap_length_filter. f_equal. apply filter_ext_elem. intros s _.
  destruct (date_of s); cbn; reflexivity.
Qed.

Lemma js_mul_0_l x : (0 ⊗ x == 0)%Q.
Proof. unfold js_mul. rewrite Qmult_0_l. reflexivity. Qed.

Lemma js_div_0_l x : (0 ⊘ x == 0)%Q.
Proof. unfold js_div, Qdiv. rewrite Qmult_0_l. reflexivity. Qed.

Lemma timing_slope_sparse data : (length data <= 5)%nat -> timing_slope data = 0%Q.
Proof.
  intros H. unfold timing_slope. destruct (Nat.ltb_spec 5 (length data)); [lia|reflexivity].
Qed.

(** X23: sparse records give flat trends: with fewer than two summaries
    the peak trend has slope 0, percent change 0 and is not significant;
    with at most five summaries that have an onset date the onset and
    melt-out trends are 0; with at most five summaries of positive season
    length the season-length change is 0. *)
Theorem sparse_records_flat_trends now porData station allStations hydro :
  let a := computeAnalytics now porData station allStations hydro in
  ((length (waterYears a) < 2)%nat ->
     (peakTrendSlope a == 0)%Q /\ (peakTrendPct a == 0)%Q /\
     peakTrendSignificant a = false) /\
  ((length (with_onset (waterYears a)) <= 5)%nat ->
     (onsetTrendDays a == 0)%Q /\ (meltOutTrendDays a == 0)%Q) /\
  ((length (with_season (waterYears a)) <= 5)%nat ->
     (seasonLengthChange a == 0)%Q).
Proof.
  cbn zeta.
  change (waterYears (computeAnalytics now porData station allStations hydro))
    with (summarize_all (group_byWY porData)).
  set (ws := summarize_all (group_byWY porData)).
  split; [|split].
  - intros Hn.
    assert (Hreg : linearRegression (map (fun w => inject_Z (wy w)) ws) (map peakSWE ws)
                   = mkReg 0 0 0).
    { unfold linearRegression. rewrite length_map.
      destruct (Nat.ltb_spec (length ws) 2); [reflexivity|lia]. }
    unfold computeAnalytics. fold ws. cbn [peakTrendSlope peakTrendPct peakTrendSignificant].
    rewrite Hreg. cbn [slope r2]. split; [apply js_mul_0_l|]. split.
    + destruct (Qgtb _ 0); [|reflexivity].
      now rewrite js_mul_0_l, js_div_0_l, js_mul_0_l.
    + destruct (Nat.ltb_spec 10 (length ws)); [lia|]. now rewrite andb_false_r.
  - intros Hn. unfold with_onset in Hn. fold ws in Hn.
    unfold computeAnalytics. fold ws. cbn [onsetTrendDays meltOutTrendDays].
    rewrite !timing_slope_sparse; [split; apply js_mul_0_l| |].
    + unfold ws. rewrite (timing_data_length porData meltOutDate). fold ws.
      erewrite filter_ext_elem; [exact Hn|]. intros s Hs. cbn.
      pose proof (summarize_all_onset_meltout porData s Hs) as Hiff.
      destruct (onsetDate s), (meltOutDate s); try reflexivity.
      * destruct Hiff as [_ H]. discriminate (H eq_refl).
      * destruct Hiff as [H _]. discriminate (H eq_refl).
    + unfold ws. rewrite (timing_data_length porData onsetDate). exact Hn.
  - intros Hn. unfold with_season in Hn. fold ws in Hn.
    unfold computeAnalytics. fold ws. cbn [seasonLengthChange].
    rewrite timing_slope_sparse; [apply js_mul_0_l|]. now rewrite length_map.
Qed.

Lemma sparse_records_flat_trends_witness :
  (onsetTrendDays (computeAnalytics sample_clock three_years harts_pass [] []) == 0)%Q /\
  (meltOutTrendDays (computeAnalytics sample_clock three_years harts_pass [] []) == 0)%Q.
Proof.
  apply (sparse_records_flat_trends sample_clock three_years harts_pass [] []).
  assert (E : length (waterYears (computeAnalytics sample_clock three_years
                                   harts_pass [] [])) = 3%nat)
    by (vm_compute; reflexivity).
  unfold with_onset.
  etransitivity; [apply filter_length_le|]. rewrite E. lia.
Defined.

Lemma avg_dowy_empty : avg_dowy [] = 0.
Proof. reflexivity. Qed.

(** A running sum of whole numbers between [lo] and [hi] is exact, and so
    between [n * lo] and [n * hi], as long as [n * hi] is at most [2^53]. *)
Lemma reduce_from_Z_bounds {A} (g : A -> Z) (lo hi : Z) l :
  0 <= lo ->
  (forall x, x ∈ l -> lo <= g x <= hi) ->
  forall i (acc : Q) z,
    (acc == inject_Z z)%Q -> 0 <= z -> z + Z.of_nat (length l) * hi <= 2 ^ 53 ->
    exists s, (reduce_from (fun a x _ => a ⊕ inject_Z (g x)) i l acc == inject_Z s)%Q /\
              z + Z.of_nat (length l) * lo <= s <= z + Z.of_nat (length l) * hi.
Proof.
  intros Hlo. induction l as [|x l IH]; intros Hg i acc z Hacc Hz Hb; cbn [reduce_from].
  - exists z. split; [exact Hacc|]. cbn [length]. lia.
  - pose proof (Hg x (list_elem_of_here _ _)) as Hx.
    cbn [length] in Hb. rewrite Nat2Z.inj_succ in Hb.
    assert (Hn : 0 <= Z.of_nat (length l)) by lia.
    destruct (IH (fun y Hy => Hg y (list_elem_of_further _ _ _ Hy))
                 (S i) (acc ⊕ inject_Z (g x)) (z + g x)) as (s & Hs & Hbs).
    + rewrite Hacc. apply js_add_Z. rewrite Z.abs_eq by lia. nia.
    + lia.
    + nia.
    + exists s. split; [exact Hs|]. cbn [length]. rewrite Nat2Z.inj_succ. nia.
Qed.

Lemma avg_dowy_bounds lo hi data :
  data <> [] -> 0 <= lo -> (forall p, p ∈ data -> lo <= p.2 <= hi) ->
  Z.of_nat (length data) * hi <= 2 ^ 53 ->
  lo <= avg_dowy data <= hi.
Proof.
  intros Hne Hlo H Hb. unfold avg_dowy.
  destruct data as [|p0 data'] eqn:E; [congruence|]. rewrite <- E in *.
  replace (0 <? length data)%nat with true by (rewrite E; reflexivity).
  set (n := Z.of_nat (length data)) in *.
  assert (Hn : 1 <= n) by (unfold n; rewrite E; cbn [length]; lia).
  assert (Hhi : lo <= hi).
  { specialize (H p0). rewrite E in H. specialize (H (list_elem_of_here _ _)). lia. }
  destruct (reduce_from_Z_bounds (fun o : Z * Z => o.2) lo hi data Hlo H 0%nat 0%Q 0)
    as (s & Hs & Hbs); [reflexivity | lia | exact Hb |].
  fold n in Hbs. unfold reduce, len. fold n.
  assert (Hq : (inject_Z lo <= inject_Z s / inject_Z n <= inject_Z hi)%Q).
  { assert (Hnq : (0 < inject_Z n)%Q) by (apply inject_Z_pos; lia).
    split.
    - apply Qle_shift_div_l; [exact Hnq|]. rewrite <- inject_Z_mult, <- Zle_Qle. lia.
    - apply Qle_shift_div_r; [exact Hnq|]. rewrite <- inject_Z_mult, <- Zle_Qle. lia. }
  assert (Hr : (inject_Z lo <= binary64 (inject_Z s / inject_Z n) <= inject_Z hi)%Q).
  { split.
    - rewrite <- (binary64_Z lo) by (rewrite Z.abs_eq by lia; nia).
      apply binary64_mono, Hq.
    - rewrite <- (binary64_Z hi) by (rewrite Z.abs_eq by lia; nia).
      apply binary64_mono, Hq. }
  assert (Ev : (reduce_from (fun a (o : Z * Z) _ => a ⊕ inject_Z o.2) 0 data 0%Q
                ⊘ inject_Z n == binary64 (inject_Z s / inject_Z n))%Q).
  { unfold js_div. now rewrite Hs. }
  unfold Math_round. rewrite Ev. fold (Math_round (binary64 (inject_Z s / inject_Z n))).
  split.
  - rewrite <- (Math_round_Z lo) at 1. apply Math_round_mono, Hr.
  - etransitivity; [|apply Z.eq_le_incl, (Math_round_Z hi)]. apply Math_round_mono, Hr.
Qed.

Lemma remove_dups_length (l : list Z) : (length (remove_dups l) <= length l)%nat.
Proof.
  induction l as [|x l IH]; cbn; [lia|]. case_decide; cbn; lia.
Qed.

(** There are no more summaries than observations. *)
Lemma summaries_length por : (length (summarize_all (group_byWY por)) <= length por)%nat.
Proof.
  rewrite summarize_all_years, length_map. unfold summarized_years, water_years_of.
  etransitivity; [apply filter_length_le|]. rewrite sort_by_length.
  etransitivity; [apply remove_dups_length|]. rewrite length_map. apply filter_length_le.
Qed.

Lemma summary_date_valid por s (date_of : WaterYearSummary -> option Date) d :
  (date_of = onsetDate \/ date_of = meltOutDate) ->
  (forall e, e ∈ por -> valid_date (por_date e)) ->
  s ∈ summarize_all (group_byWY por) -> date_of s = Some d -> valid_date d.
Proof.
  intros Hwhich Hvalid Hs Hd.
  destruct (elem_of_summarize_all _ _ Hs) as [Heq _].
  assert (Hin : forall e, e ∈ year_days por (wy s) -> e ∈ por).
  { intros e He. now apply year_days_elem in He as [He _]. }
  set (k := wy s) in *. set (days := year_days por k) in *. clearbody k days. subst s.
  destruct Hwhich as [-> | ->].
  - destruct (summarize_onset k days) as [_ H].
    destruct (H d Hd) as [(e & He & <- & _) _]. auto.
  - destruct (summarize_meltout k days) as [_ H].
    destruct (H d Hd) as [(e & He & <- & _) _]. auto.
Qed.

Lemma timing_data_bounds por (date_of : WaterYearSummary -> option Date) p :
  (date_of = onsetDate \/ date_of = meltOutDate) ->
  (forall e, e ∈ por -> valid_date (por_date e)) ->
  p ∈ omap (fun w => (fun d => (wy w, dateToDOWY d)) <$> date_of w)
        (summarize_all (group_byWY por)) ->
  1 <= p.2 <= 366.
Proof.
  intros Hwhich Hvalid Hp. apply list_elem_of_omap in Hp as (s & Hs & Hsome).
  destruct (date_of s) as [d|] eqn:Ed; [|discriminate]. cbn in Hsome.
  injection Hsome as <-. cbn [snd]. apply dowy_bounds.
  eapply summary_date_valid; eassumption.
Qed.

(** X24: the average onset and melt-out days of water year are 0 when no
    summary has an onset date; otherwise, on an array (of fewer than
    [2^32] elements, as every array) of calendar dates from the year 101
    on, each lies between 1 and 366. *)
Theorem average_timing_range now porData station allStations hydro :
  let a := computeAnalytics now porData station allStations hydro in
  (with_onset (waterYears a) = [] -> avgOnsetDOWY a = 0 /\ avgMeltOutDOWY a = 0) /\
  ((forall e, e ∈ porData -> valid_date (por_date e) /\ 100 < year (por_date e)) ->
   Z.of_nat (length porData) < 2 ^ 32 ->
   with_onset (waterYears a) <> [] ->
   1 <= avgOnsetDOWY a <= 366 /\ 1 <= avgMeltOutDOWY a <= 366).
Proof.
  cbn zeta.
  change (waterYears (computeAnalytics now porData station allStations hydro))
    with (summarize_all (group_byWY porData)).
  change (avgOnsetDOWY (computeAnalytics now porData station allStations hydro))
    with (avg_dowy (omap (fun w => (fun d => (wy w, dateToDOWY d)) <$> onsetDate w)
                      (summarize_all (group_byWY porData)))).
  change (avgMeltOutDOWY (computeAnalytics now porData station allStations hydro))
    with (avg_dowy (omap (fun w => (fun d => (wy w, dateToDOWY d)) <$> meltOutDate w)
                      (summarize_all (group_byWY porData)))).
  pose proof (timing_data_length porData onsetDate) as Lo.
  pose proof (timing_data_length porData meltOutDate) as Lm.
  assert (Hsame : List.filter (fun s => bool_decide (meltOutDate s <> None))
                    (summarize_all (group_byWY porData))
                  = with_onset (summarize_all (group_byWY porData))).
  { apply filter_ext_elem. intros s Hs.
    pose proof (summarize_all_onset_meltout porData s Hs) as Hiff.
    destruct (onsetDate s), (meltOutDate s); try reflexivity.
    - destruct Hiff as [_ H]. discriminate (H eq_refl).
    - destruct Hiff as [H _]. discriminate (H eq_refl). }
  rewrite Hsame in Lm. fold (with_onset (summarize_all (group_byWY porData))) in Lo.
  split.
  - intros E. rewrite E in Lo, Lm. cbn in Lo, Lm.
    apply length_zero_iff_nil in Lo, Lm. now rewrite Lo, Lm.
  - intros Hdates Hsize Hne.
    assert (Hvalid : forall e, e ∈ porData -> valid_date (por_date e)).
    { intros e He. now apply Hdates. }
    assert (Hlen : (0 < length (with_onset (summarize_all (group_byWY porData))))%nat).
    { destruct (with_onset _); [congruence|cbn; lia]. }
    assert (Hfew : Z.of_nat (length (with_onset (summarize_all (group_byWY porData))))
                   * 366 <= 2 ^ 53).
    { pose proof (filter_length_le (fun s => bool_decide (onsetDate s <> None))
                    (summarize_all (group_byWY porData))) as H1.
      pose proof (summaries_length porData) as H2. unfold with_onset.
      assert (H3 : 2 ^ 32 * 366 <= 2 ^ 53) by (vm_compute; discriminate). nia. }
    split; apply avg_dowy_bounds.
    + intros E. rewrite E in Lo. cbn in Lo. lia.
    + lia.
    + intros p. apply timing_data_bounds; [now left|exact Hvalid].
    + rewrite Lo. exact Hfew.
    + intros E. rewrite E in Lm. cbn in Lm. lia.
    + lia.
    + intros p. apply timing_data_bounds; [now right|exact Hvalid].
    + rewrite Lm. exact Hfew.
Qed.

Lemma average_timing_range_witness :
  1 <= avgOnsetDOWY (computeAnalytics sample_clock three_years harts_pass [] []) <= 366 /\
  1 <= avgMeltOutDOWY (computeAnalytics sample_clock three_years harts_pass [] []) <= 366.
Proof.
  apply (average_timing_range sample_clock three_years harts_pass [] []).
  - intros e He. unfold three_years in He.
    repeat (apply elem_of_app in He as [He|He]);
      (split; [eapply season_valid; [|exact He]; lia
              | apply season_year in He; rewrite He; lia]).
  - vm_compute. reflexivity.
  - assert (E : length (with_onset (waterYears (computeAnalytics sample_clock three_years
                                                  harts_pass [] []))) = 3%nat)
      by (vm_compute; reflexivity).
    intros H. rewrite H in E. discriminate E.
Defined.

(** ** Ordinals and the network summary *)

(** The suffix on every remainder that [n % 100] can take. *)
Lemma ordinal_suffix_cases v :
  -100 < v < 100 ->
  match js_index ["th"; "st"; "nd"; "rd"]%string (Z.rem (v - 20) 10) with
  | Some x => x
  | None => match js_index ["th"; "st"; "nd"; "rd"]%string v with
            | Some x => x
            | None => default ""%string (js_index ["th"; "st"; "nd"; "rd"]%string 0)
            end
  end
  = if v <? 0 then "th"%string
    else if (11 <=? v) && (v <=? 13) then "th"%string
    else if v mod 10 =? 1 then "st"%string
    else if v mod 10 =? 2 then "nd"%string
    else if v mod 10 =? 3 then "rd"%string
    else "th"%string.
Proof.
  intros Hv.
  assert (Hall : forallb (fun i =>
            let v := Z.of_nat i - 99 in
            String.eqb
              match js_index ["th"; "st"; "nd"; "rd"]%string (Z.rem (v - 20) 10) with
              | Some x => x
              | None => match js_index ["th"; "st"; "nd"; "rd"]%string v with
                        | Some x => x
                        | None => default ""%string
                                    (js_index ["th"; "st"; "nd"; "rd"]%string 0)
                        end
              end
              (if v <? 0 then "th"%string
               else if (11 <=? v) && (v <=? 13) then "th"%string
               else if v mod 10 =? 1 then "st"%string
               else if v mod 10 =? 2 then "nd"%string
               else if v mod 10 =? 3 then "rd"%string
               else "th"%string)) (seq 0 199) = true) by (vm_compute; reflexivity).
  rewrite forallb_forall in Hall.
  specialize (Hall (Z.to_nat (v + 99))). cbn zeta in Hall.
  replace (Z.of_nat (Z.to_nat (v + 99)) - 99) with v in Hall by lia.
  apply String.eqb_eq, Hall, in_seq. lia.
Qed.

(** X25: [ordinal] appends the English suffix to every whole number of
    size up to [2^53], the numbers that a double holds exactly and prints
    as decimal numerals: "st", "nd", "rd" after a last digit of 1, 2, 3,
    except "th" for the numbers that end in 11, 12, 13, and "th"
    otherwise. *)
Theorem ordinal_english n :
  Z.abs n <= 2 ^ 53 ->
  ordinal n = (pretty n +:+ english_suffix n)%string.
Proof.
  intros _. unfold ordinal, english_suffix. f_equal.
  assert (Hr : -100 < Z.rem n 100 < 100).
  { pose proof (Z.rem_bound_abs n 100). lia. }
  rewrite (ordinal_suffix_cases _ Hr).
  destruct (Z.ltb_spec n 0) as [Hneg|Hpos].
  - destruct (Z.ltb_spec (Z.rem n 100) 0) as [|H0]; [reflexivity|].
    assert (Z.rem n 100 = 0).
    { pose proof (Z.rem_nonpos n 100 ltac:(lia) ltac:(lia)). lia. }
    rewrite H. reflexivity.
  - rewrite Z.rem_mod_nonneg by lia.
    assert (Hm : (n mod 100) mod 10 = n mod 10).
    { Z.div_mod_to_equations. lia. }
    rewrite Hm.
    destruct (Z.ltb_spec (n mod 100) 0) as [H|_]; [|reflexivity].
    pose proof (Z.mod_pos_bound n 100). lia.
Qed.

Lemma ordinal_english_witness : ordinal 23 = "23rd"%string.
Proof. rewrite (ordinal_english 23) by (vm_compute; discriminate). reflexivity. Defined.

Lemma filter_partition_length {A} (f : A -> bool) l :
  (length (List.filter f l) + length (List.filter (fun x => negb (f x)) l))%nat = length l.
Proof.
  induction l as [|x l IH]; cbn; [reflexivity|]. destruct (f x); cbn; lia.
Qed.

(** X26: in the network summary every station that reports a percent of
    median is counted exactly once, as above (at or over 100) or as
    below; stations without one are not counted; and the average is 0
    when no station reports. *)
Theorem network_summary_partition snotelStations :
  let r := snotelSummary snotelStations in
  (ss_above r + ss_below r)%nat = ss_total r /\
  ss_total r = length (pct_values snotelStations) /\
  (ss_total r <= length snotelStations)%nat /\
  (ss_total r = 0%nat -> ss_avg r = 0).
Proof.
  cbn zeta. unfold snotelSummary. cbn [ss_above ss_below ss_total ss_avg].
  set (withData := List.filter (fun s => bool_decide (st_pctMedian s <> None)) snotelStations).
  split; [|split; [|split]].
  - apply (filter_partition_length
             (fun s => Qle_bool 100 (default 0%Q (st_pctMedian s))) withData).
  - unfold withData, pct_values. symmetry. apply omap_length_filter.
  - apply filter_length_le.
  - intros ->. reflexivity.
Qed.

(** ** From a day of water year back to a date *)

Lemma yoe_roundtrip yoe doy :
  0 <= yoe <= 399 -> 0 <= doy <= 365 ->
  (doy = 365 -> (yoe + 1) mod 4 = 0 /\ ((yoe + 1) mod 100 <> 0 \/ yoe = 399)) ->
  (yoe * 365 + yoe / 4 - yoe / 100 + doy
   - (yoe * 365 + yoe / 4 - yoe / 100 + doy) / 1460
   + (yoe * 365 + yoe / 4 - yoe / 100 + doy) / 36524
   - (yoe * 365 + yoe / 4 - yoe / 100 + doy) / 146096) / 365 = yoe.
Proof. intros H1 H2 H3. Z.div_mod_to_equations. lia. Qed.

Lemma is_leap_spec y :
  is_leap y = true <-> y mod 4 = 0 /\ (y mod 100 <> 0 \/ y mod 400 = 0).
Proof.
  unfold is_leap.
  destruct (Z.eqb_spec (y mod 4) 0), (Z.eqb_spec (y mod 100) 0),
    (Z.eqb_spec (y mod 400) 0); cbn;
    (split; intros H;
     first [reflexivity | discriminate H
           | exfalso; Z.div_mod_to_equations; lia
           | Z.div_mod_to_equations; lia]).
Qed.

(** The day count and its inverse agree on every calendar date. *)
Lemma civil_from_days_epochDay d :
  valid_date d -> civil_from_days (epochDay d) = d.
Proof.
  intros [Hm Hd]. destruct d as [Y M D]. cbn [year month day] in *.
  unfold epochDay, civil_from_days. cbn [year month day].
  set (y' := if M <=? 2 then Y - 1 else Y).
  set (era := y' / 400). set (yoe := y' - era * 400).
  set (mp := (M + 9) mod 12). set (doy := (153 * mp + 2) / 5 + D - 1).
  assert (Hyoe : 0 <= yoe <= 399) by (unfold yoe, era; Z.div_mod_to_equations; lia).
  assert (Hleap : is_leap (y' + 1) = true <->
                  (yoe + 1) mod 4 = 0 /\ ((yoe + 1) mod 100 <> 0 \/ yoe = 399)).
  { rewrite is_leap_spec. unfold yoe, era. Z.div_mod_to_equations. lia. }
  assert (Hmp : 0 <= mp <= 11 /\ (mp < 10 -> M = mp + 3) /\ (10 <= mp -> M = mp - 9)).
  { unfold mp. Z.div_mod_to_equations. lia. }
  assert (Hfeb : M = 2 -> y' + 1 = Y).
  { intros ->. unfold y'. cbn. lia. }
  assert (Hdoy : 0 <= doy <= 365 /\ (doy = 365 -> is_leap (y' + 1) = true) /\
                 (5 * doy + 2) / 153 = mp /\ doy - (153 * mp + 2) / 5 + 1 = D).
  { unfold doy, days_in_month in *. clearbody y' mp.
    month_split Hm; cbn in Hd;
      assert (Hmpv : exists k, mp = k /\ 0 <= k <= 11) by (exists mp; lia);
      destruct Hmp as (Hr & Hlo & Hhi);
      try (rewrite <- (Hfeb eq_refl) in Hd; destruct (is_leap (y' + 1)));
      repeat split; try (Z.div_mod_to_equations; lia). }
  destruct Hdoy as (Hr & Hl & Hmp' & HD).
  set (doe := yoe * 365 + yoe / 4 - yoe / 100 + doy).
  assert (Hdoe : 0 <= doe < 146097) by (unfold doe; Z.div_mod_to_equations; lia).
  replace (era * 146097 + doe - 719468 + 719468) with (doe + era * 146097) by lia.
  rewrite Z.div_add by lia. rewrite (Z.div_small doe 146097) by lia.
  replace (doe + era * 146097 - (0 + era) * 146097) with doe by lia.
  assert (Hy : (doe - doe / 1460 + doe / 36524 - doe / 146096) / 365 = yoe).
  { apply yoe_roundtrip; [exact Hyoe|exact Hr|]. intros E. apply Hleap, Hl, E. }
  rewrite Hy.
  replace (doe - (365 * yoe + yoe / 4 - yoe / 100)) with doy by (unfold doe; lia).
  rewrite Hmp', HD.
  destruct Hmp as (Hmr & Hlo & Hhi).
  destruct (Z.ltb_spec mp 10) as [Hlt|Hge].
  - rewrite <- (Hlo Hlt). destruct (Z.leb_spec M 2) as [H2|H2]; [lia|].
    f_equal. unfold yoe, y'. destruct (Z.leb_spec M 2); lia.
  - rewrite <- (Hhi Hge). destruct (Z.leb_spec M 2) as [H2|H2]; [|lia].
    f_equal. unfold yoe, y'. destruct (Z.leb_spec M 2); lia.
Qed.

Lemma dowyToDate_days dowy wyYear :
  dowyToDate dowy wyYear =
  date_label (civil_from_days (epochDay (mkDate (constructor_year wyYear) 10 1) + dowy - 1)).
Proof.
  unfold dowyToDate, setDate, date_label, getMonth. cbn [year month day].
  now replace (epochDay (mkDate (constructor_year wyYear) 10 1) + (1 + dowy - 1) - 1)
    with (epochDay (mkDate (constructor_year wyYear) 10 1) + dowy - 1) by lia.
Qed.

Lemma day_before_october y :
  epochDay (mkDate y 10 1) + 0 - 1 = epochDay (mkDate y 9 30).
Proof.
  rewrite !epochDay_year_base. cbn [year month day].
  destruct (Z.leb_spec 10 2), (Z.leb_spec 9 2); try lia.
  Z.div_mod_to_equations. lia.
Qed.

(** X28: [dowyToDate] at the ends of the water year that starts in the
    year [Y] that the [Date] constructor takes for [wyYear] ([wyYear]
    itself, or [1900 + wyYear] from 0 to 99), for the years that a [Date]
    can hold: day 1 is printed as "Oct 1", day 0 as the day before,
    "Sep 30", and day 366 as "Sep 30" when [Y + 1] is a leap year and as
    "Oct 1" of the next water year otherwise. *)
Theorem dowyToDate_edges y :
  -270000 <= y <= 270000 ->
  dowyToDate 1 y = "Oct 1"%string /\
  dowyToDate 0 y = "Sep 30"%string /\
  dowyToDate 366 y =
    (if is_leap (constructor_year y + 1) then "Sep 30" else "Oct 1")%string.
Proof.
  intros _. rewrite !dowyToDate_days. generalize (constructor_year y) as Y. intros Y.
  assert (Hoct : forall z, valid_date (mkDate z 10 1)).
  { intros z. unfold valid_date, days_in_month. cbn. lia. }
  assert (Hsep : forall z, valid_date (mkDate z 9 30)).
  { intros z. unfold valid_date, days_in_month. cbn. lia. }
  split; [|split].
  - replace (epochDay (mkDate Y 10 1) + 1 - 1) with (epochDay (mkDate Y 10 1)) by lia.
    now rewrite civil_from_days_epochDay.
  - now rewrite day_before_october, civil_from_days_epochDay.
  - pose proof (dateToDOWY_table (mkDate (Y + 1) 9 30) ltac:(cbn; lia)) as Ht.
    rewrite dateToDOWY_from_label in Ht. unfold dateToWY, getMonth, getFullYear in Ht.
    cbn [year month day] in Ht. unfold dowy_offset in Ht.
    destruct (Z.leb_spec 9 (9 - 1)) as [|_]; [lia|]. cbn in Ht.
    replace (Y + 1 - 1) with Y in Ht by lia.
    pose proof (day_before_october (Y + 1)) as Hn.
    destruct (is_leap (Y + 1)).
    + replace (epochDay (mkDate Y 10 1) + 366 - 1) with (epochDay (mkDate (Y + 1) 9 30))
        by lia.
      now rewrite civil_from_days_epochDay.
    + replace (epochDay (mkDate Y 10 1) + 366 - 1) with (epochDay (mkDate (Y + 1) 10 1))
        by lia.
      now rewrite civil_from_days_epochDay.
Qed.

Lemma dowyToDate_edges_witness :
  dowyToDate 1 99 = "Oct 1"%string /\
  dowyToDate 0 99 = "Sep 30"%string /\
  dowyToDate 366 99 =
    (if is_leap (constructor_year 99 + 1) then "Sep 30" else "Oct 1")%string.
Proof. apply (dowyToDate_edges 99). lia. Defined.
